(** * The ownership index of fs/crypto/crypto.c (f2fs block deduplication)

    A shallow embedding of the fingerprint-keyed table [cryptArray], its
    hash [hashCrypt], its linear-probing [crypt_search] and
    [crypttable_insert], the whole-table persistence to "/citable" and the
    single-block orchestration [fscrypt_crypt_block] with its page-level
    caller [fscrypt_decrypt_pagecache_blocks].

    Conventions.
    - A [char] buffer is a [list byte]; reading past its end yields NUL.
    - [size_t] and [unsigned long] are 64 bits wide (LP64 kernel), [u64]
      is 64 bits, [unsigned int] is 32 bits; wrap-around is written out.
    - Whether plain [char] is signed is left to the compiler by the C
      standard (signed on x86, unsigned on arm before Linux 6.2), so it is
      a parameter, [char_is_signed], of everything that reads a [char] as
      a number.
    - [cryptArray] is an array of pointers: slot [i] holds NULL or points
      to a [Cryptitem].  It is a finite map from the slot number to the
      item pointed to; an absent key is a NULL slot. *)

From Stdlib Require Import ZArith Lia List Bool.
From Stdlib Require Import Strings.Byte.
From stdpp Require Import base option list gmap.

Local Open Scope Z_scope.

(** ** C data *)

Module C.

(** [#define DEDUP_TABLE_SIZE 1024*1024].  The macro body has no
    parentheses; wherever the source uses it the textual expansion is
    what is embedded.  This constant is its value where the expansion
    stands alone as an operand ([a < 1024*1024], [a %= 1024*1024],
    [cryptArray[1024*1024]]). *)
Definition DEDUP_TABLE_SIZE : Z := 1024 * 1024.

Definition size_t_max : Z := 2 ^ 64.

(** Conversion of a mathematical value to [size_t]/[unsigned long]. *)
Definition to_size_t (z : Z) : Z := z mod size_t_max.

(** Conversion to [unsigned int]. *)
Definition to_uint (z : Z) : Z := z mod 2 ^ 32.

(** Conversion to [u64]. *)
Definition to_u64 (z : Z) : Z := z mod 2 ^ 64.

(** A byte read as [unsigned char]. *)
Definition uchar (b : byte) : Z := Z.of_N (Byte.to_N b).

(** A byte read as plain [char]. *)
Definition char_val (char_is_signed : bool) (b : byte) : Z :=
  if char_is_signed && (128 <=? uchar b) then uchar b - 256 else uchar b.

Definition NUL : byte := x00.

Definition is_nul (b : byte) : bool := Byte.eqb b NUL.

(** [s[0]] and [s + 1] for a [char *]. *)
Definition deref (s : list byte) : byte := hd NUL s.
Definition advance (s : list byte) : list byte := tl s.

(** [strncmp] (lib/string.c): at most [count] characters are compared,
    as [unsigned char], and the comparison stops after a NUL. *)
Fixpoint strncmp (cs ct : list byte) (count : nat) : Z :=
  match count with
  | O => 0
  | S count' =>
      let c1 := deref cs in
      let c2 := deref ct in
      if negb (Byte.eqb c1 c2) then (if uchar c1 <? uchar c2 then -1 else 1)
      else if is_nul c1 then 0
      else strncmp (advance cs) (advance ct) count'
  end.

(** [strncpy] (lib/string.c): exactly [count] characters are stored; once
    the source's NUL has been copied the source pointer stays on it, so
    the rest of the destination is NUL. *)
Fixpoint strncpy (src : list byte) (count : nat) : list byte :=
  match count with
  | O => []
  | S count' =>
      let c := deref src in
      c :: strncpy (if is_nul c then src else advance src) count'
  end.

End C.

Import C.

(** ** The ownership index *)

(** [struct Cryptitem { char fingerprint_crypt[16]; unsigned long ino; }] *)
Record Cryptitem := mkCryptitem {
  fingerprint_crypt : list byte;
  ino : Z
}.

(** [size_t hashCrypt(char *finger)].  The last statement,
    [hash = hash % DEDUP_TABLE_SIZE], expands to [hash = hash % 1024*1024],
    which C parses as [(hash % 1024) * 1024]. *)
Definition hashCrypt (char_is_signed : bool) (finger : list byte) : Z :=
  let hash :=
    fold_left
      (fun hash i => to_size_t (hash + to_size_t (char_val char_is_signed (nth i finger NUL))))
      (seq 0 16) 0 in
  to_size_t (hash mod 1024 * 1024).

(** The loop of [crypt_search], one iteration per unit of [fuel];
    [None] is "out of fuel", [Some r] is the returned pointer ([r = None]
    for NULL). *)
Fixpoint crypt_search_loop (fuel : nat) (cryptArray : gmap Z Cryptitem)
    (finger : list byte) (hashIndex loop : Z) : option (option Cryptitem) :=
  match fuel with
  | O => None
  | S fuel' =>
      match cryptArray !! hashIndex with
      | None => Some None
      | Some item =>
          let ret := strncmp (fingerprint_crypt item) finger 16 in
          if ret =? 0 then Some (Some item)
          else
            let hashIndex := hashIndex + 1 in
            let loop := loop + 1 in
            if loop >? DEDUP_TABLE_SIZE then Some None
            else crypt_search_loop fuel' cryptArray finger
                   (hashIndex mod DEDUP_TABLE_SIZE) loop
      end
  end.

(** Iterations granted to the loops of [crypt_search] and
    [crypttable_insert]. *)
Definition probe_fuel : nat := S (Z.to_nat DEDUP_TABLE_SIZE).

(** [struct Cryptitem *crypt_search(char *finger)] *)
Definition crypt_search (char_is_signed : bool) (cryptArray : gmap Z Cryptitem)
    (finger : list byte) : option Cryptitem :=
  match crypt_search_loop probe_fuel cryptArray finger
          (hashCrypt char_is_signed finger) 0 with
  | Some r => r
  | None => None
  end.

(** How the loop of [crypttable_insert] ends. *)
Inductive insert_probe :=
| ProbeSlot (hashIndex : Z)   (* the [while] condition became false here *)
| ProbeFull.                  (* [return 1] *)

Fixpoint crypttable_insert_loop (fuel : nat) (cryptArray : gmap Z Cryptitem)
    (hashIndex loop : Z) : option insert_probe :=
  match fuel with
  | O => None
  | S fuel' =>
      match cryptArray !! hashIndex with
      | Some item =>
          if ino item >? 0 then
            let hashIndex := hashIndex + 1 in
            let hashIndex := hashIndex mod DEDUP_TABLE_SIZE in
            let loop := loop + 1 in
            if loop >? DEDUP_TABLE_SIZE then Some ProbeFull
            else crypttable_insert_loop fuel' cryptArray hashIndex loop
          else Some (ProbeSlot hashIndex)
      | None => Some (ProbeSlot hashIndex)
      end
  end.

(** [int crypttable_insert(char *finger, unsigned long ino)]: the returned
    [int] and the array afterwards. *)
Definition crypttable_insert (char_is_signed : bool) (cryptArray : gmap Z Cryptitem)
    (finger : list byte) (ino : Z) : Z * gmap Z Cryptitem :=
  let crypt_item := mkCryptitem (strncpy finger 16) ino in
  match crypttable_insert_loop probe_fuel cryptArray
          (hashCrypt char_is_signed finger) 0 with
  | Some (ProbeSlot hashIndex) => (0, <[hashIndex := crypt_item]> cryptArray)
  | Some ProbeFull => (1, cryptArray)
  | None => (1, cryptArray)
  end.

(** ** Pages, inodes, initialization vectors *)

(** [fscrypt_direction_t] *)
Inductive fscrypt_direction_t := FS_DECRYPT | FS_ENCRYPT.

(** The fields of [struct fscrypt_info] that crypto.c reads. *)
Record fscrypt_info := mkInfo {
  ci_policy_flags : Z;   (* fscrypt_policy_flags(&ci->ci_policy) *)
  ci_inode_ino : Z;      (* ci->ci_inode->i_ino *)
  ci_hashed_ino : Z;     (* ci->ci_hashed_ino, u32 *)
  ci_nonce : list byte;  (* ci->ci_nonce *)
  ci_tfm : Z;            (* ci->ci_enc_key.tfm *)
  ci_mode_ivsize : nat   (* ci->ci_mode->ivsize *)
}.

(** The fields of [struct inode] that crypto.c reads. *)
Record inode := mkInode {
  i_ino : Z;
  i_sb : Z;
  i_blkbits : Z;
  i_crypt_info : fscrypt_info
}.

(** [union fscrypt_iv] (fscrypt_private.h), as the memory it occupies:
    bytes 0-7 are the little-endian [lblk_num], the next
    [FSCRYPT_FILE_NONCE_SIZE] bytes are [nonce], and [raw] goes on after
    the nonce up to [FSCRYPT_MAX_IV_SIZE] bytes. *)
Record fscrypt_iv := mkIv {
  iv_lblk_num : Z;
  iv_nonce : list byte;
  iv_tail : list byte
}.

(** [memset(iv, 0, ivsize)] on the [n] bytes of the union that start at
    offset [first]: a byte whose offset is below [ivsize] becomes 0, the
    others keep what the memory held. *)
Definition memset_iv_bytes (ivsize first n : nat) (bytes : list byte) : list byte :=
  map (fun j => if (first + j <? ivsize)%nat then NUL else nth j bytes NUL) (seq 0 n).

(** [struct Fingercryptitem { char fingerprint_crypt[16]; u64 lblk_num; }] *)
Record Fingercryptitem := mkFingercryptitem {
  fc_fingerprint_crypt : list byte;
  lblk_num_of : Z
}.

(** Errno values (include/uapi/asm-generic/errno-base.h). *)
Definition ENOMEM : Z := 12.
Definition EINVAL : Z := 22.

(** Calls that leave this file, and the accesses to "/citable", in the
    order they are made. *)
Inductive event :=
| EvReadFingerBlkTable                          (* read_finger_blk_table_from_file() *)
| EvHashPage (page : Z) (digest : list byte)    (* hash_page_data(page, digest) *)
| EvFingerCryptSearch (digest : list byte)      (* finger_crypt_search(digest) *)
| EvGenerateIv (lblk_num : Z) (owner : Z)       (* fscrypt_generate_iv(&iv, lblk_num, ci) *)
| EvCipher (rw : fscrypt_direction_t) (tfm : Z) (iv : fscrypt_iv) (len offs : Z)
| EvFscryptErr (rw : fscrypt_direction_t) (lblk_num res : Z)
| EvFilpOpen                                    (* filp_open("/citable", O_RDWR | O_CREAT, 0) *)
| EvKernelRead (hashIndex : Z)                  (* kernel_read(ci_table, cryptArray[hashIndex], ..) *)
| EvCryptSearch (digest : list byte)            (* crypt_search(digest) *)
| EvCrypttableInsert (digest : list byte) (ino : Z) (* crypttable_insert(digest, ino) *)
| EvKernelWrite (hashIndex : Z)                 (* kernel_write(ci_table, cryptArray[hashIndex], ..) *)
| EvFilpClose                                   (* filp_close(ci_table, NULL) *)
| EvIget (sb ino : Z)                           (* f2fs_iget(sb, ino) *)
| EvRequireKey (ino : Z).                       (* fscrypt_require_key(inode) *)

(** What the operations act on: the global [cryptArray], the records of
    the file "/citable" (a missing file and an empty one hold the same
    records: none), the contents of the pages, and the calls made so
    far, oldest first. *)
Record state := mkState {
  cryptArray : gmap Z Cryptitem;
  citable : list Cryptitem;
  pages : gmap Z (list byte);
  trace : list event
}.

Definition set_cryptArray (a : gmap Z Cryptitem) (st : state) : state :=
  mkState a (citable st) (pages st) (trace st).
Definition set_citable (f : list Cryptitem) (st : state) : state :=
  mkState (cryptArray st) f (pages st) (trace st).
Definition set_page (p : Z) (data : list byte) (st : state) : state :=
  mkState (cryptArray st) (citable st) (<[p := data]> (pages st)) (trace st).
Definition log (e : event) (st : state) : state :=
  mkState (cryptArray st) (citable st) (pages st) (trace st ++ [e]).

Definition page_data (st : state) (p : Z) : list byte :=
  match pages st !! p with Some d => d | None => [] end.

(** [IS_ALIGNED(x, a)]: [((x) & ((a) - 1)) == 0], on [unsigned int]. *)
Definition IS_ALIGNED (x a : Z) : bool := Z.land x (to_uint (a - 1)) =? 0.

(** The loop of [fscrypt_decrypt_pagecache_blocks] (lines 430-435),
    [for (i = offs; i < offs + len; i += blocksize, lblk_num++)], one
    iteration per unit of [fuel]; [None] is "out of fuel".
    [crypt_block lblk_num i] is the call in its body,
    [fscrypt_crypt_block(inode, FS_DECRYPT, lblk_num, page, page,
    blocksize, i, GFP_NOFS)]. *)
Fixpoint decrypt_blocks (crypt_block : Z -> Z -> state -> Z * state) (fuel : nat)
    (blocksize bound i lblk_num : Z) (st : state) : option (Z * state) :=
  match fuel with
  | O => None
  | S fuel' =>
      if i <? bound then
        let '(err, st) := crypt_block lblk_num i st in
        if negb (err =? 0) then Some (err, st)
        else decrypt_blocks crypt_block fuel' blocksize bound
               (to_uint (i + blocksize)) (to_u64 (lblk_num + 1)) st
      else Some (0, st)
  end.

(** ** Persistence and orchestration *)

(** What the file takes from the rest of the kernel: the target's choice
    for plain [char], constants of headers outside this file, and the
    collaborators it calls. *)
Record kernel := mkKernel {
  (** Signedness of plain [char] on the target. *)
  char_is_signed : bool;
  (** Constants of headers outside this file. *)
  FSCRYPT_CONTENTS_ALIGNMENT : Z;
  FSCRYPT_POLICY_FLAG_DIRECT_KEY : Z;
  FSCRYPT_POLICY_FLAG_IV_INO_LBLK_64 : Z;
  FSCRYPT_POLICY_FLAG_IV_INO_LBLK_32 : Z;
  FSCRYPT_FILE_NONCE_SIZE : nat;
  FSCRYPT_MAX_IV_SIZE : nat;
  PAGE_SHIFT : Z;
  GFP_NOFS : Z;
  (** [hash_page_data(page, digest)]: the digest of a page's bytes. *)
  hash_page_data : list byte -> list byte;
  (** [finger_crypt_search(digest)], after
      [read_finger_blk_table_from_file()]. *)
  finger_crypt_search : list byte -> option Fingercryptitem;
  (** [skcipher_request_alloc(tfm, gfp_flags) != NULL] *)
  skcipher_request_alloc : Z -> Z -> bool;
  (** The transform: direction, key, IV, source bytes, destination bytes
      before, length, offset; the result code and the destination bytes
      after. *)
  crypto_skcipher :
    fscrypt_direction_t -> Z -> fscrypt_iv -> list byte -> list byte -> Z -> Z ->
    Z * list byte;
  f2fs_iget : Z -> Z -> inode;
  PageLocked : Z -> bool;
  page_host : Z -> inode;   (* page->mapping->host *)
  page_index : Z -> Z;      (* page->index *)
  (** What [kmalloc] hands out for slot [hashIndex]: the sixteen
      fingerprint bytes are whatever the heap held.  A slot is NULL only
      until it is first materialized, so the slot number identifies the
      allocation. *)
  kmalloc_junk : Z -> list byte;
  (** What the stack holds where [fscrypt_crypt_block] has its local
      [iv], which it does not initialize.  It may differ from call to
      call, so it is given the calls made so far. *)
  uninitialized_iv : list event -> fscrypt_iv
}.

Section Orchestrator.

Variable K : kernel.

(** [fscrypt_generate_iv]; [iv] is what [*iv] holds when the function is
    entered.  [memset] clears the first [ivsize] bytes of the union and
    leaves the rest; whatever it does to bytes 0-7 is overwritten by the
    last statement, [iv->lblk_num = cpu_to_le64(lblk_num)]. *)
Definition fscrypt_generate_iv (iv : fscrypt_iv) (lblk_num : Z) (ci : fscrypt_info)
    : fscrypt_iv :=
  let flags := ci_policy_flags ci in
  let nonce :=
    memset_iv_bytes (ci_mode_ivsize ci) 8 (FSCRYPT_FILE_NONCE_SIZE K) (iv_nonce iv) in
  let tail :=
    memset_iv_bytes (ci_mode_ivsize ci) (8 + FSCRYPT_FILE_NONCE_SIZE K)
      (FSCRYPT_MAX_IV_SIZE K - (8 + FSCRYPT_FILE_NONCE_SIZE K)) (iv_tail iv) in
  if negb (Z.land flags (FSCRYPT_POLICY_FLAG_IV_INO_LBLK_64 K) =? 0) then
    mkIv (Z.lor lblk_num (to_u64 (Z.shiftl (ci_inode_ino ci) 32))) nonce tail
  else if negb (Z.land flags (FSCRYPT_POLICY_FLAG_IV_INO_LBLK_32 K) =? 0) then
    mkIv (to_uint (to_u64 (ci_hashed_ino ci + lblk_num))) nonce tail
  else if negb (Z.land flags (FSCRYPT_POLICY_FLAG_DIRECT_KEY K) =? 0) then
    mkIv lblk_num (firstn (FSCRYPT_FILE_NONCE_SIZE K) (ci_nonce ci)) tail
  else
    mkIv lblk_num nonce tail.

(** The first loop over the table (lines 259-264 and 413-418): a NULL
    slot gets a fresh item whose [ino] is 0. *)
Definition materialize_slot (a : gmap Z Cryptitem) (hashIndex : Z) : gmap Z Cryptitem :=
  match a !! hashIndex with
  | None => <[hashIndex := mkCryptitem (kmalloc_junk K hashIndex) 0]> a
  | Some _ => a
  end.

Definition materialize (st : state) : state :=
  set_cryptArray
    (fold_left materialize_slot (seqZ 0 DEDUP_TABLE_SIZE) (cryptArray st)) st.

(** One [kernel_read(ci_table, cryptArray[hashIndex], sizeof(struct
    Cryptitem), &pos_ci)]: the record at [pos_ci], if the file has one,
    overwrites the item and the position moves on; at the end of the
    file nothing is read and the position stays. *)
Definition kernel_read_slot (acc : state * nat) (hashIndex : Z) : state * nat :=
  let '(st, pos_ci) := acc in
  let st := log (EvKernelRead hashIndex) st in
  match cryptArray st !! hashIndex, citable st !! pos_ci with
  | Some _, Some record =>
      (set_cryptArray (<[hashIndex := record]> (cryptArray st)) st, S pos_ci)
  | _, _ => (st, pos_ci)
  end.

(** The second loop (lines 265-267 and 419-421). *)
Definition load_table (st : state) : state :=
  fst (fold_left kernel_read_slot (seqZ 0 DEDUP_TABLE_SIZE) (st, O)).

(** The first two loops together: the table is materialized, then read
    from the file. *)
Definition reload (st : state) : state := load_table (materialize st).

(** One [kernel_write(ci_table, cryptArray[hashIndex], sizeof(struct
    Cryptitem), &pos_ci)]: the item replaces the record at [pos_ci], or
    is appended when [pos_ci] is the end of the file. *)
Definition kernel_write_slot (acc : state * nat) (hashIndex : Z) : state * nat :=
  let '(st, pos_ci) := acc in
  let st := log (EvKernelWrite hashIndex) st in
  match cryptArray st !! hashIndex with
  | Some item =>
      (set_citable (take pos_ci (citable st) ++ item :: drop (S pos_ci) (citable st)) st,
       S pos_ci)
  | None => (st, pos_ci)
  end.

(** The last loop of the encrypt branch (lines 272-274). *)
Definition store_table (st : state) : state :=
  fst (fold_left kernel_write_slot (seqZ 0 DEDUP_TABLE_SIZE) (st, O)).

(** Lines 268-271: search, and insert when the search returned NULL.
    The [int] that [crypttable_insert] returns is dropped. *)
Definition record_owner (digest : list byte) (owner : Z) (st : state) : state :=
  let st := log (EvCryptSearch digest) st in
  match crypt_search (char_is_signed K) (cryptArray st) digest with
  | None =>
      let st := log (EvCrypttableInsert digest owner) st in
      set_cryptArray
        (snd (crypttable_insert (char_is_signed K) (cryptArray st) digest owner)) st
  | Some _ => st
  end.

(** The encrypt branch at the end of [fscrypt_crypt_block] (lines
    255-276). *)
Definition encrypt_post_step (inode : inode) (dest_page : Z) (st : state) : state :=
  let st := log EvFilpOpen st in
  let st := reload st in
  let digest := hash_page_data K (page_data st dest_page) in
  let st := log (EvHashPage dest_page digest) st in
  let st := record_owner digest (i_ino inode) st in
  let st := store_table st in
  log EvFilpClose st.

(** The decrypt branch at the head of [fscrypt_crypt_block] (lines
    215-222): the block number to use, and the state. *)
Definition decrypt_pre_step (lblk_num : Z) (src_page : Z) (st : state) : Z * state :=
  let st := log EvReadFingerBlkTable st in
  let digest := hash_page_data K (page_data st src_page) in
  let st := log (EvHashPage src_page digest) st in
  let st := log (EvFingerCryptSearch digest) st in
  match finger_crypt_search K digest with
  | Some finger_crypt_item => (lblk_num_of finger_crypt_item, st)
  | None => (lblk_num, st)
  end.

(** [fscrypt_crypt_block]: the returned [int] and the state. *)
Definition fscrypt_crypt_block (inode : inode) (rw : fscrypt_direction_t)
    (lblk_num : Z) (src_page dest_page : Z) (len offs : Z) (gfp_flags : Z)
    (st : state) : Z * state :=
  let ci := i_crypt_info inode in
  let tfm := ci_tfm ci in
  let '(lblk_num, st) :=
    match rw with
    | FS_DECRYPT => decrypt_pre_step lblk_num src_page st
    | FS_ENCRYPT => (lblk_num, st)
    end in
  if len <=? 0 then (- EINVAL, st)
  else if negb (len mod (FSCRYPT_CONTENTS_ALIGNMENT K) =? 0) then (- EINVAL, st)
  else
    let iv := fscrypt_generate_iv (uninitialized_iv K (trace st)) lblk_num ci in
    let st := log (EvGenerateIv lblk_num (ci_inode_ino ci)) st in
    if negb (skcipher_request_alloc K tfm gfp_flags) then (- ENOMEM, st)
    else
      let '(res, dest) :=
        crypto_skcipher K rw tfm iv (page_data st src_page) (page_data st dest_page)
          len offs in
      let st := log (EvCipher rw tfm iv len offs) (set_page dest_page dest st) in
      if negb (res =? 0) then (res, log (EvFscryptErr rw lblk_num res) st)
      else
        match rw with
        | FS_ENCRYPT => (0, encrypt_post_step inode dest_page st)
        | FS_DECRYPT => (0, st)
        end.

(** Lines 422-435 of [fscrypt_decrypt_pagecache_blocks]: on the reloaded
    table, the search for the page's fingerprint, the switch of [inode]
    to the owner when an item is found, and the loop over the blocks.
    [inode], [blocksize] and [lblk_num] are the locals computed at the
    head of the function. *)
Definition decrypt_owned_blocks (fuel : nat) (inode : inode) (blocksize lblk_num : Z)
    (page len offs : Z) (st : state) : option (Z * state) :=
  let digest_c := hash_page_data K (page_data st page) in
  let st := log (EvHashPage page digest_c) st in
  let st := log (EvCryptSearch digest_c) st in
  let crypt_item := crypt_search (char_is_signed K) (cryptArray st) digest_c in
  let owner :=
    match crypt_item with
    | Some crypt_item => f2fs_iget K (i_sb inode) (ino crypt_item)
    | None => inode
    end in
  let st :=
    match crypt_item with
    | Some crypt_item =>
        log (EvRequireKey (i_ino owner)) (log (EvIget (i_sb inode) (ino crypt_item)) st)
    | None => st
    end in
  decrypt_blocks
    (fun lblk_num i =>
       fscrypt_crypt_block owner FS_DECRYPT lblk_num page page blocksize i (GFP_NOFS K))
    fuel blocksize (to_uint (offs + len)) offs lblk_num st.

(** [fscrypt_decrypt_pagecache_blocks] *)
Definition fscrypt_decrypt_pagecache_blocks (fuel : nat) (page : Z) (len offs : Z)
    (st : state) : option (Z * state) :=
  let inode := page_host K page in
  let blockbits := i_blkbits inode in
  let blocksize := to_uint (Z.shiftl 1 blockbits) in
  let lblk_num :=
    to_u64 (to_u64 (Z.shiftl (page_index K page) (PAGE_SHIFT K - blockbits))
            + Z.shiftr offs blockbits) in
  let st := log EvFilpOpen st in
  if negb (PageLocked K page) then Some (- EINVAL, st)
  else if (len <=? 0) || negb (IS_ALIGNED (Z.lor len offs) blocksize) then
    Some (- EINVAL, st)
  else
    decrypt_owned_blocks fuel inode blocksize lblk_num page len offs (reload st).

End Orchestrator.

(** ** What "the sum of the sixteen bytes, modulo the capacity" denotes *)

(** The sum of the first sixteen bytes, each read as an unsigned integer. *)
Definition byte_sum (finger : list byte) : Z :=
  fold_right (fun b s => uchar b + s) 0 (firstn 16 finger).

(** Slot [k] steps after slot [h] on the probe path. *)
Definition probe_slot (h k : Z) : Z := (h + k) mod DEDUP_TABLE_SIZE.

(** [crypt_search] moves past slot [i]: it is not NULL and [strncmp]
    against the query is not 0. *)
Definition passes (a : gmap Z Cryptitem) (finger : list byte) (i : Z) : Prop :=
  exists item, a !! i = Some item /\ strncmp (fingerprint_crypt item) finger 16 <> 0.

(** [crypttable_insert] moves past slot [i]: it is not NULL and its [ino]
    is positive. *)
Definition live (a : gmap Z Cryptitem) (i : Z) : Prop :=
  exists item, a !! i = Some item /\ 0 < ino item.

(** [crypttable_insert] stops at slot [i]: NULL, or [ino] is 0. *)
Definition writable (a : gmap Z Cryptitem) (i : Z) : Prop :=
  match a !! i with
  | Some item => ino item <= 0
  | None => True
  end.

(** * Properties *)

(** ** The C string functions *)

Lemma DEDUP_TABLE_SIZE_val : DEDUP_TABLE_SIZE = 1048576.
Proof. reflexivity. Qed.

Lemma byte_eqb_false (x y : byte) : Byte.eqb x y = false -> x <> y.
Proof. intros H E. apply Byte.byte_dec_lb in E. congruence. Qed.

Lemma strncpy_at_nul (src : list byte) (n : nat) :
  is_nul (deref src) = true -> strncpy src n = repeat NUL n.
Proof.
  intros H. induction n as [|n IH]; simpl; [reflexivity|].
  rewrite H, IH. f_equal. now apply Byte.byte_dec_bl.
Qed.

(** [strncmp] is 0 exactly when [strncpy] would store the same bytes:
    both stop at the first NUL. *)
Lemma strncmp_zero_iff (n : nat) : forall cs ct,
  strncmp cs ct n = 0 <-> strncpy cs n = strncpy ct n.
Proof.
  induction n as [|n IH]; intros cs ct; simpl; [tauto|].
  destruct (Byte.eqb (deref cs) (deref ct)) eqn:E; simpl.
  - apply Byte.byte_dec_bl in E. rewrite <- E.
    destruct (is_nul (deref cs)) eqn:N.
    + rewrite !strncpy_at_nul by (rewrite <- ?E; exact N). tauto.
    + rewrite IH. split; intros H; [now rewrite H | now inversion H].
  - apply byte_eqb_false in E. split.
    + destruct (uchar (deref cs) <? uchar (deref ct)); discriminate.
    + intros H. inversion H. contradiction.
Qed.

Lemma strncmp_strncpy_self (n : nat) : forall finger,
  strncmp (strncpy finger n) finger n = 0.
Proof.
  induction n as [|n IH]; intros finger; simpl; [reflexivity|].
  assert (Byte.eqb (deref finger) (deref finger) = true) as ->
    by now apply Byte.byte_dec_lb.
  simpl. destruct (is_nul (deref finger)); [reflexivity|]. apply IH.
Qed.

Lemma length_strncpy (n : nat) : forall src, length (strncpy src n) = n.
Proof. induction n as [|n IH]; intros src; simpl; [reflexivity|]. now rewrite IH. Qed.

(** Without a NUL among its first [n] bytes a buffer is copied as it is. *)
Lemma strncpy_no_nul (n : nat) : forall src,
  length src = n -> forallb (fun b => negb (is_nul b)) src = true ->
  strncpy src n = src.
Proof.
  induction n as [|n IH]; intros [|c src] Hl Hn; simpl in *; try discriminate;
    [reflexivity|].
  apply andb_prop in Hn as [Hc Hn]. apply negb_true_iff in Hc. rewrite Hc.
  f_equal. apply IH; [lia | exact Hn].
Qed.

(** ** The hash *)

Lemma to_size_t_small (z : Z) : 0 <= z < 2 ^ 64 -> to_size_t z = z.
Proof. intros H. unfold to_size_t, size_t_max. now apply Z.mod_small. Qed.

Lemma hashCrypt_scaled (sgn : bool) (finger : list byte) :
  exists hash, 0 <= hash < 1024 /\ hashCrypt sgn finger = hash * 1024.
Proof.
  unfold hashCrypt.
  set (hash := fold_left _ _ _). exists (hash mod 1024).
  assert (0 <= hash mod 1024 < 1024) by (apply Z.mod_pos_bound; lia).
  split; [assumption|]. apply to_size_t_small. lia.
Qed.

Lemma hashCrypt_range (sgn : bool) (finger : list byte) :
  0 <= hashCrypt sgn finger < DEDUP_TABLE_SIZE.
Proof.
  destruct (hashCrypt_scaled sgn finger) as (hash & Hh & ->).
  rewrite DEDUP_TABLE_SIZE_val. lia.
Qed.

Lemma uchar_range (b : byte) : 0 <= uchar b <= 255.
Proof. unfold uchar. pose proof (Byte.to_N_bounded b). lia. Qed.

(** With an unsigned [char] the sum is the plain sum of the bytes; the
    reduction keeps its low ten bits and shifts them up by ten. *)
Lemma hashCrypt_unsigned (finger : list byte) :
  length finger = 16%nat ->
  hashCrypt false finger = byte_sum finger mod 1024 * 1024.
Proof.
  intros Hl.
  do 16 (destruct finger as [|? finger]; [discriminate Hl|]).
  destruct finger; [|discriminate Hl]. clear Hl.
  unfold hashCrypt, byte_sum, char_val. cbn [seq fold_left nth firstn fold_right andb].
  repeat match goal with
         | b : byte |- _ => pose proof (uchar_range b); generalize dependent (uchar b); clear b; intros
         end.
  repeat match goal with
         | |- context [to_size_t ?x] => rewrite (to_size_t_small x) by lia
         end.
  match goal with |- to_size_t (?x mod 1024 * 1024) = ?y mod 1024 * 1024 =>
    replace y with x by lia; pose proof (Z.mod_pos_bound x 1024 ltac:(lia))
  end.
  apply to_size_t_small. lia.
Qed.

(** The string functions and the hash are reasoned about through the
    lemmas above, never by unfolding them at sixteen. *)
Arguments strncmp : simpl never.
Arguments strncpy : simpl never.
Arguments hashCrypt : simpl never.
Arguments crypt_search : simpl never.
Arguments crypttable_insert : simpl never.

(** ** The probe path *)

Lemma probe_slot_range (h k : Z) : 0 <= probe_slot h k < DEDUP_TABLE_SIZE.
Proof. unfold probe_slot. apply Z.mod_pos_bound. rewrite DEDUP_TABLE_SIZE_val. lia. Qed.

Lemma probe_slot_0 (h : Z) : 0 <= h < DEDUP_TABLE_SIZE -> probe_slot h 0 = h.
Proof. intros H. unfold probe_slot. rewrite Z.add_0_r. now apply Z.mod_small. Qed.

Lemma probe_slot_wrap (h : Z) :
  0 <= h < DEDUP_TABLE_SIZE -> probe_slot h DEDUP_TABLE_SIZE = h.
Proof.
  intros H. unfold probe_slot.
  rewrite <- (Z.mul_1_l DEDUP_TABLE_SIZE) at 1.
  rewrite Z.mod_add by (rewrite DEDUP_TABLE_SIZE_val; lia). now apply Z.mod_small.
Qed.

Lemma probe_slot_next (h k : Z) :
  probe_slot ((h + 1) mod DEDUP_TABLE_SIZE) k = probe_slot h (k + 1).
Proof.
  unfold probe_slot. rewrite Z.add_mod_idemp_l by (rewrite DEDUP_TABLE_SIZE_val; lia).
  f_equal. lia.
Qed.

(** Every slot lies on the probe path of every start, less than a full
    turn away. *)
Lemma probe_slot_reaches (h i : Z) :
  0 <= h < DEDUP_TABLE_SIZE -> 0 <= i < DEDUP_TABLE_SIZE ->
  exists k, 0 <= k < DEDUP_TABLE_SIZE /\ probe_slot h k = i.
Proof.
  intros Hh Hi. exists ((i - h) mod DEDUP_TABLE_SIZE). split.
  - apply Z.mod_pos_bound. lia.
  - unfold probe_slot. rewrite Z.add_mod_idemp_r by lia.
    replace (h + (i - h)) with i by lia. now apply Z.mod_small.
Qed.

(** Two steps of less than a full turn that land on the same slot are
    the same step. *)
Lemma probe_slot_inj (h j k : Z) :
  0 <= j < DEDUP_TABLE_SIZE -> 0 <= k < DEDUP_TABLE_SIZE ->
  probe_slot h j = probe_slot h k -> j = k.
Proof.
  unfold probe_slot. intros Hj Hk E.
  assert (D : DEDUP_TABLE_SIZE <> 0) by lia.
  pose proof (Z.div_mod (h + j) _ D) as E1. pose proof (Z.div_mod (h + k) _ D) as E2.
  rewrite E in E1.
  assert ((h + j) / DEDUP_TABLE_SIZE = (h + k) / DEDUP_TABLE_SIZE \/
          (h + j) / DEDUP_TABLE_SIZE <> (h + k) / DEDUP_TABLE_SIZE) as [Q|Q] by lia.
  - rewrite Q in E1. lia.
  - nia.
Qed.

(** ** The search loop *)

(** The probe ends at slot [i] with result [r]: a match is returned, or
    the slot is NULL and NULL is returned. *)
Definition stops (a : gmap Z Cryptitem) (finger : list byte) (i : Z)
    (r : option Cryptitem) : Prop :=
  match r with
  | Some item => a !! i = Some item /\ strncmp (fingerprint_crypt item) finger 16 = 0
  | None => a !! i = None
  end.

Lemma passes_not_stops a finger i r : passes a finger i -> stops a finger i r -> False.
Proof.
  intros (item & Hi & Hn) Hs. destruct r as [item'|]; simpl in Hs.
  - destruct Hs as [Hs Hz]. congruence.
  - congruence.
Qed.

Lemma crypt_search_loop_spec a finger (fuel : nat) : forall h loop r,
  0 <= h < DEDUP_TABLE_SIZE -> 0 <= loop <= DEDUP_TABLE_SIZE ->
  crypt_search_loop fuel a finger h loop = Some r ->
  (exists k, 0 <= k <= DEDUP_TABLE_SIZE - loop /\
             (forall j, 0 <= j < k -> passes a finger (probe_slot h j)) /\
             stops a finger (probe_slot h k) r)
  \/ (r = None /\
      forall j, 0 <= j <= DEDUP_TABLE_SIZE - loop -> passes a finger (probe_slot h j)).
Proof.
  induction fuel as [|fuel IH]; intros h loop r Hh Hl; simpl; [discriminate|].
  destruct (a !! h) as [item|] eqn:Ha.
  - destruct (strncmp (fingerprint_crypt item) finger 16 =? 0) eqn:Hc.
    + intros [= <-]. left. exists 0. rewrite probe_slot_0 by assumption.
      split; [lia|]. split; [intros; lia|]. simpl. split; [assumption|]. lia.
    + assert (Hp : passes a finger (probe_slot h 0)).
      { rewrite probe_slot_0 by assumption. exists item. split; [assumption|]. lia. }
      destruct (loop + 1 >? DEDUP_TABLE_SIZE) eqn:Hg.
      * intros [= <-]. right. split; [reflexivity|]. intros j Hj.
        replace j with 0 by lia. assumption.
      * intros Hr. apply IH in Hr; [| apply Z.mod_pos_bound; lia | lia].
        destruct Hr as [(k & Hk & Hpass & Hstop)|(-> & Hpass)].
        -- left. exists (k + 1). split; [lia|]. split.
           ++ intros j Hj. destruct (Z.eq_dec j 0) as [->|Hj0]; [assumption|].
              replace j with ((j - 1) + 1) by lia. rewrite <- probe_slot_next.
              apply Hpass. lia.
           ++ now rewrite <- probe_slot_next.
        -- right. split; [reflexivity|]. intros j Hj.
           destruct (Z.eq_dec j 0) as [->|Hj0]; [assumption|].
           replace j with ((j - 1) + 1) by lia. rewrite <- probe_slot_next.
           apply Hpass. lia.
  - intros [= <-]. left. exists 0. rewrite probe_slot_0 by assumption.
    split; [lia|]. split; [intros; lia|]. exact Ha.
Qed.

(** The loop returns within [DEDUP_TABLE_SIZE + 1 - loop] iterations. *)
Lemma crypt_search_loop_total a finger (fuel : nat) : forall h loop,
  0 <= loop <= DEDUP_TABLE_SIZE -> DEDUP_TABLE_SIZE + 1 - loop <= Z.of_nat fuel ->
  exists r, crypt_search_loop fuel a finger h loop = Some r.
Proof.
  induction fuel as [|fuel IH]; intros h loop Hl Hf; [lia|]. simpl.
  destruct (a !! h) as [item|]; [|eauto].
  destruct (_ =? 0); [eauto|].
  destruct (loop + 1 >? DEDUP_TABLE_SIZE) eqn:Hg; [eauto|].
  apply IH; lia.
Qed.

Lemma crypt_search_loop_more a finger (fuel : nat) : forall h loop r extra,
  crypt_search_loop fuel a finger h loop = Some r ->
  crypt_search_loop (fuel + extra) a finger h loop = Some r.
Proof.
  induction fuel as [|fuel IH]; intros h loop r extra; simpl; [discriminate|].
  destruct (a !! h) as [item|]; [|trivial].
  destruct (_ =? 0); [trivial|].
  destruct (loop + 1 >? DEDUP_TABLE_SIZE); [trivial|]. apply IH.
Qed.

Lemma probe_fuel_val : Z.of_nat probe_fuel = DEDUP_TABLE_SIZE + 1.
Proof. unfold probe_fuel. rewrite Nat2Z.inj_succ, Z2Nat.id; rewrite ?DEDUP_TABLE_SIZE_val; lia. Qed.

(** [probe_fuel] iterations are enough: the fuel never runs out in
    [crypt_search]. *)
Lemma crypt_search_loop_probe_fuel sgn a finger :
  crypt_search_loop probe_fuel a finger (hashCrypt sgn finger) 0
  = Some (crypt_search sgn a finger).
Proof.
  unfold crypt_search.
  destruct (crypt_search_loop_total a finger probe_fuel (hashCrypt sgn finger) 0) as [r Hr].
  - rewrite DEDUP_TABLE_SIZE_val. lia.
  - rewrite probe_fuel_val. lia.
  - now rewrite Hr.
Qed.

(** What [crypt_search] returns, read off the probe path. *)
Lemma crypt_search_spec sgn a finger :
  let h := hashCrypt sgn finger in
  (exists k, 0 <= k < DEDUP_TABLE_SIZE /\
             (forall j, 0 <= j < k -> passes a finger (probe_slot h j)) /\
             stops a finger (probe_slot h k) (crypt_search sgn a finger))
  \/ (crypt_search sgn a finger = None /\
      forall i, 0 <= i < DEDUP_TABLE_SIZE -> passes a finger i).
Proof.
  intros h. pose proof (hashCrypt_range sgn finger) as Hh. fold h in Hh.
  pose proof (crypt_search_loop_probe_fuel sgn a finger) as Hr. fold h in Hr.
  apply crypt_search_loop_spec in Hr; [|assumption|rewrite DEDUP_TABLE_SIZE_val; lia].
  destruct Hr as [(k & Hk & Hpass & Hstop)|(Hn & Hpass)].
  - left. destruct (Z.eq_dec k DEDUP_TABLE_SIZE) as [->|Hne].
    + exfalso. rewrite probe_slot_wrap in Hstop by assumption.
      eapply passes_not_stops; [|exact Hstop].
      rewrite <- (probe_slot_0 h) by assumption. apply Hpass. lia.
    + exists k. split; [lia|]. split; assumption.
  - right. split; [assumption|]. intros i Hi.
    destruct (probe_slot_reaches h i Hh Hi) as (k & Hk & <-). apply Hpass. lia.
Qed.

(** The probe ends at the first slot of the path that it does not pass. *)
Lemma crypt_search_at sgn a finger (k : Z) (r : option Cryptitem) :
  0 <= k < DEDUP_TABLE_SIZE ->
  (forall j, 0 <= j < k -> passes a finger (probe_slot (hashCrypt sgn finger) j)) ->
  stops a finger (probe_slot (hashCrypt sgn finger) k) r ->
  crypt_search sgn a finger = r.
Proof.
  intros Hk Hpass Hstop.
  destruct (crypt_search_spec sgn a finger) as [(k' & Hk' & Hpass' & Hstop')|(Hn & Hall)].
  - assert (k' = k) as ->.
    { destruct (Z.lt_trichotomy k' k) as [Hlt|[Heq|Hgt]]; [|assumption|]; exfalso.
      - eapply passes_not_stops; [apply (Hpass k'); lia | exact Hstop'].
      - eapply passes_not_stops; [apply (Hpass' k); lia | exact Hstop]. }
    destruct r as [item|], (crypt_search sgn a finger) as [item'|]; unfold stops in *.
    + destruct Hstop, Hstop'. congruence.
    + destruct Hstop. congruence.
    + destruct Hstop'. congruence.
    + reflexivity.
  - exfalso. eapply passes_not_stops; [|exact Hstop]. apply Hall, probe_slot_range.
Qed.

(** When every slot is passed the search gives up after
    [DEDUP_TABLE_SIZE + 1] steps. *)
Lemma crypt_search_exhausted sgn a finger :
  (forall i, 0 <= i < DEDUP_TABLE_SIZE -> passes a finger i) ->
  crypt_search sgn a finger = None.
Proof.
  intros Hall.
  destruct (crypt_search_spec sgn a finger) as [(k & Hk & Hpass & Hstop)|(Hn & _)];
    [|assumption].
  exfalso. eapply passes_not_stops; [|exact Hstop]. apply Hall, probe_slot_range.
Qed.

(** The search reads only the slots [0 .. DEDUP_TABLE_SIZE - 1]. *)
Lemma crypt_search_ext sgn a b finger :
  (forall i, 0 <= i < DEDUP_TABLE_SIZE -> a !! i = b !! i) ->
  crypt_search sgn a finger = crypt_search sgn b finger.
Proof.
  intros Hab.
  assert (Hp : forall i, 0 <= i < DEDUP_TABLE_SIZE -> passes a finger i -> passes b finger i).
  { intros i Hi (item & Hl & Hn). exists item. rewrite <- Hab by assumption. now split. }
  destruct (crypt_search_spec sgn a finger) as [(k & Hk & Hpass & Hstop)|(Hn & Hall)].
  - symmetry. apply (crypt_search_at sgn b finger k); [assumption| |].
    + intros j Hj. apply Hp; [apply probe_slot_range|]. now apply Hpass.
    + unfold stops in *. rewrite <- Hab by apply probe_slot_range. exact Hstop.
  - rewrite Hn. symmetry. apply crypt_search_exhausted. intros i Hi. apply Hp; auto.
Qed.

(** ** The insert loop *)

Lemma live_not_writable a i : live a i -> writable a i -> False.
Proof. intros (item & Hi & Hp). unfold writable. rewrite Hi. lia. Qed.

Lemma live_or_writable a i : live a i \/ writable a i.
Proof.
  unfold live, writable. destruct (a !! i) as [item|]; [|now right].
  destruct (Z_lt_le_dec 0 (ino item)); [left; eauto | now right].
Qed.

Lemma crypttable_insert_loop_spec a (fuel : nat) : forall h loop r,
  0 <= h < DEDUP_TABLE_SIZE -> 0 <= loop <= DEDUP_TABLE_SIZE ->
  crypttable_insert_loop fuel a h loop = Some r ->
  match r with
  | ProbeSlot i =>
      exists k, 0 <= k <= DEDUP_TABLE_SIZE - loop /\ i = probe_slot h k /\
                writable a i /\ forall j, 0 <= j < k -> live a (probe_slot h j)
  | ProbeFull =>
      forall j, 0 <= j <= DEDUP_TABLE_SIZE - loop -> live a (probe_slot h j)
  end.
Proof.
  induction fuel as [|fuel IH]; intros h loop r Hh Hl; cbn [crypttable_insert_loop];
    [discriminate|].
  assert (Hstop : writable a h -> Some (ProbeSlot h) = Some r ->
                  match r with
                  | ProbeSlot i =>
                      exists k, 0 <= k <= DEDUP_TABLE_SIZE - loop /\ i = probe_slot h k /\
                                writable a i /\ forall j, 0 <= j < k -> live a (probe_slot h j)
                  | ProbeFull =>
                      forall j, 0 <= j <= DEDUP_TABLE_SIZE - loop -> live a (probe_slot h j)
                  end).
  { intros Hw [= <-]. exists 0. rewrite probe_slot_0 by assumption.
    repeat split; [lia | lia | assumption | intros; lia]. }
  destruct (a !! h) as [item|] eqn:Ha.
  - destruct (ino item >? 0) eqn:Hi.
    + assert (Hlive : live a (probe_slot h 0)).
      { rewrite probe_slot_0 by assumption. exists item. split; [assumption|lia]. }
      destruct (loop + 1 >? DEDUP_TABLE_SIZE) eqn:Hg.
      * intros [= <-]. intros j Hj. replace j with 0 by lia. assumption.
      * intros Hr. apply IH in Hr; [| apply Z.mod_pos_bound; lia | lia].
        destruct r as [i|].
        -- destruct Hr as (k & Hk & -> & Hw & Hlv). exists (k + 1).
           split; [lia|]. split; [now rewrite probe_slot_next|]. split; [assumption|].
           intros j Hj. destruct (Z.eq_dec j 0) as [->|Hj0]; [assumption|].
           replace j with ((j - 1) + 1) by lia. rewrite <- probe_slot_next.
           apply Hlv. lia.
        -- intros j Hj. destruct (Z.eq_dec j 0) as [->|Hj0]; [assumption|].
           replace j with ((j - 1) + 1) by lia. rewrite <- probe_slot_next.
           apply Hr. lia.
    + apply Hstop. unfold writable. rewrite Ha. lia.
  - apply Hstop. unfold writable. now rewrite Ha.
Qed.

Lemma crypttable_insert_loop_total a (fuel : nat) : forall h loop,
  0 <= loop <= DEDUP_TABLE_SIZE -> DEDUP_TABLE_SIZE + 1 - loop <= Z.of_nat fuel ->
  exists r, crypttable_insert_loop fuel a h loop = Some r.
Proof.
  induction fuel as [|fuel IH]; intros h loop Hl Hf; [lia|].
  cbn [crypttable_insert_loop].
  destruct (a !! h) as [item|]; [|eauto].
  destruct (ino item >? 0); [|eauto].
  destruct (loop + 1 >? DEDUP_TABLE_SIZE) eqn:Hg; [eauto|].
  apply IH; lia.
Qed.

Lemma crypttable_insert_loop_more a (fuel : nat) : forall h loop r extra,
  crypttable_insert_loop fuel a h loop = Some r ->
  crypttable_insert_loop (fuel + extra) a h loop = Some r.
Proof.
  induction fuel as [|fuel IH]; intros h loop r extra; cbn [crypttable_insert_loop Nat.add];
    [discriminate|].
  destruct (a !! h) as [item|]; [|trivial].
  destruct (ino item >? 0); [|trivial].
  destruct (loop + 1 >? DEDUP_TABLE_SIZE); [trivial|]. apply IH.
Qed.

(** What [crypttable_insert] does, read off the probe path: it stores the
    new item in the first writable slot, less than a full turn from the
    hash, and returns 0; or every slot is live, nothing is stored and it
    returns 1. *)
Lemma crypttable_insert_spec sgn a finger owner :
  let h := hashCrypt sgn finger in
  (exists k, 0 <= k < DEDUP_TABLE_SIZE /\
             writable a (probe_slot h k) /\
             (forall j, 0 <= j < k -> live a (probe_slot h j)) /\
             crypttable_insert sgn a finger owner
             = (0, <[probe_slot h k := mkCryptitem (strncpy finger 16) owner]> a))
  \/ ((forall i, 0 <= i < DEDUP_TABLE_SIZE -> live a i) /\
      crypttable_insert sgn a finger owner = (1, a)).
Proof.
  intros h. pose proof (hashCrypt_range sgn finger) as Hh. fold h in Hh.
  unfold crypttable_insert. fold h.
  destruct (crypttable_insert_loop_total a probe_fuel h 0) as [r Hr].
  { rewrite DEDUP_TABLE_SIZE_val. lia. }
  { rewrite probe_fuel_val. lia. }
  rewrite Hr.
  apply crypttable_insert_loop_spec in Hr; [|assumption|rewrite DEDUP_TABLE_SIZE_val; lia].
  destruct r as [i|].
  - left. destruct Hr as (k & Hk & -> & Hw & Hlv).
    destruct (Z.eq_dec k DEDUP_TABLE_SIZE) as [->|Hne].
    + exfalso. rewrite probe_slot_wrap in Hw by assumption.
      eapply live_not_writable; [|exact Hw].
      rewrite <- (probe_slot_0 h) by assumption. apply Hlv. lia.
    + exists k. repeat split; [lia | lia | assumption | assumption].
  - right. split; [|reflexivity]. intros i Hi.
    destruct (probe_slot_reaches h i Hh Hi) as (k & Hk & <-). apply Hr. lia.
Qed.

(** The first writable slot of the path is where the item goes. *)
Lemma crypttable_insert_at sgn a finger owner (k : Z) :
  0 <= k < DEDUP_TABLE_SIZE ->
  writable a (probe_slot (hashCrypt sgn finger) k) ->
  (forall j, 0 <= j < k -> live a (probe_slot (hashCrypt sgn finger) j)) ->
  crypttable_insert sgn a finger owner
  = (0, <[probe_slot (hashCrypt sgn finger) k := mkCryptitem (strncpy finger 16) owner]> a).
Proof.
  intros Hk Hw Hlv.
  destruct (crypttable_insert_spec sgn a finger owner)
    as [(k' & Hk' & Hw' & Hlv' & E)|(Hall & _)].
  - assert (k' = k) as ->; [|exact E].
    destruct (Z.lt_trichotomy k' k) as [Hlt|[Heq|Hgt]]; [|assumption|]; exfalso.
    + eapply live_not_writable; [apply (Hlv k'); lia | exact Hw'].
    + eapply live_not_writable; [apply (Hlv' k); lia | exact Hw].
  - exfalso. eapply live_not_writable; [|exact Hw]. apply Hall, probe_slot_range.
Qed.

(** ** The three loops over the table *)

Arguments materialize : simpl never.
Arguments load_table : simpl never.
Arguments store_table : simpl never.

(** The slots [0 .. DEDUP_TABLE_SIZE - 1] all point to an item. *)
Definition materialized (a : gmap Z Cryptitem) : Prop :=
  forall i, 0 <= i < DEDUP_TABLE_SIZE -> is_Some (a !! i).

Lemma fold_materialize_lookup K (l : list Z) : forall (a : gmap Z Cryptitem) (i : Z),
  fold_left (materialize_slot K) l a !! i
  = match a !! i with
    | Some item => Some item
    | None => if decide (i ∈ l) then Some (mkCryptitem (kmalloc_junk K i) 0) else None
    end.
Proof.
  induction l as [|x l IH]; intros a i; cbn [fold_left].
  - destruct (a !! i); [reflexivity|]. now rewrite decide_False by apply not_elem_of_nil.
  - rewrite IH. unfold materialize_slot.
    destruct (a !! x) as [item|] eqn:Hx.
    + destruct (a !! i) as [item'|] eqn:Hi; [reflexivity|].
      assert (i <> x) by congruence.
      destruct (decide (i ∈ l)) as [Hin|Hin].
      * rewrite decide_True; [reflexivity | rewrite elem_of_cons; tauto].
      * rewrite decide_False; [reflexivity|]. rewrite elem_of_cons. tauto.
    + destruct (decide (i = x)) as [->|Hne].
      * rewrite lookup_insert_eq, Hx. rewrite decide_True; [reflexivity|].
        rewrite elem_of_cons. tauto.
      * rewrite lookup_insert_ne by congruence.
        destruct (a !! i) as [item'|] eqn:Hi; [reflexivity|].
        destruct (decide (i ∈ l)) as [Hin|Hin].
        -- rewrite decide_True; [reflexivity | rewrite elem_of_cons; tauto].
        -- rewrite decide_False; [reflexivity|]. rewrite elem_of_cons. tauto.
Qed.

(** After the first loop a slot that pointed to an item still points to
    it, and a NULL slot of the table points to a fresh item with [ino]
    0. *)
Lemma materialize_lookup K st (i : Z) :
  cryptArray (materialize K st) !! i
  = match cryptArray st !! i with
    | Some item => Some item
    | None => if decide (0 <= i < DEDUP_TABLE_SIZE)
              then Some (mkCryptitem (kmalloc_junk K i) 0) else None
    end.
Proof.
  unfold materialize. cbn [cryptArray set_cryptArray]. rewrite fold_materialize_lookup.
  destruct (cryptArray st !! i); [reflexivity|].
  destruct (decide (0 <= i < DEDUP_TABLE_SIZE)) as [H|H].
  - rewrite decide_True; [reflexivity|]. apply elem_of_seqZ. lia.
  - rewrite decide_False; [reflexivity|]. rewrite elem_of_seqZ. lia.
Qed.

Lemma materialize_frame K st :
  citable (materialize K st) = citable st /\ pages (materialize K st) = pages st /\
  trace (materialize K st) = trace st.
Proof. unfold materialize, set_cryptArray. cbn [citable pages trace]. auto. Qed.

Lemma materialize_materialized K st : materialized (cryptArray (materialize K st)).
Proof.
  intros i Hi. rewrite materialize_lookup. destruct (cryptArray st !! i); [eauto|].
  rewrite decide_True by assumption. eauto.
Qed.

Lemma materialize_id K st :
  materialized (cryptArray st) -> cryptArray (materialize K st) = cryptArray st.
Proof.
  intros Hm. apply map_eq. intros i. rewrite materialize_lookup.
  destruct (cryptArray st !! i) eqn:Hi; [reflexivity|].
  destruct (decide (0 <= i < DEDUP_TABLE_SIZE)) as [H|H]; [|reflexivity].
  destruct (Hm i H) as [item Hitem]. congruence.
Qed.

(** Reading never changes the file or the pages, and makes one
    [kernel_read] per slot. *)
Lemma fold_kernel_read_frame (l : list Z) : forall acc,
  let acc' := fold_left kernel_read_slot l acc in
  citable (fst acc') = citable (fst acc) /\ pages (fst acc') = pages (fst acc) /\
  trace (fst acc') = trace (fst acc) ++ map EvKernelRead l.
Proof.
  induction l as [|x l IH]; intros [st pos]; cbn [fold_left map].
  - cbn. now rewrite app_nil_r.
  - specialize (IH (kernel_read_slot (st, pos) x)). cbn zeta in IH.
    destruct IH as (Hc & Hp & Ht). cbn zeta. rewrite Hc, Hp, Ht.
    unfold kernel_read_slot.
    destruct (cryptArray (log (EvKernelRead x) st) !! x);
      [destruct (citable (log (EvKernelRead x) st) !! pos)|];
      cbn; rewrite <- ?app_assoc; auto.
Qed.

Lemma load_table_frame st :
  citable (load_table st) = citable st /\ pages (load_table st) = pages st /\
  trace (load_table st) = trace st ++ map EvKernelRead (seqZ 0 DEDUP_TABLE_SIZE).
Proof.
  pose proof (fold_kernel_read_frame (seqZ 0 DEDUP_TABLE_SIZE) (st, O)) as H.
  cbn zeta in H. cbn [fst] in H. exact H.
Qed.

(** The first [n] reads, on a table whose first [n] slots point to items:
    slot [i] receives record [i] of the file when the file has one, and
    the position has followed the slots up to the end of the file. *)
Lemma fold_kernel_read_prefix st (n : nat) :
  (forall i, 0 <= i < Z.of_nat n -> is_Some (cryptArray st !! i)) ->
  let acc := fold_left kernel_read_slot (seqZ 0 (Z.of_nat n)) (st, O) in
  snd acc = Nat.min n (length (citable st)) /\
  forall i, cryptArray (fst acc) !! i
            = if decide (0 <= i < Z.of_nat n)
              then match citable st !! Z.to_nat i with
                   | Some record => Some record
                   | None => cryptArray st !! i
                   end
              else cryptArray st !! i.
Proof.
  induction n as [|n IH]; intros Hpres.
  - cbn. split; [reflexivity|]. intros i. rewrite decide_False by lia. reflexivity.
  - rewrite seqZ_S, fold_left_app. cbn [fold_left]. cbn zeta.
    destruct IH as [Hpos Hlook]; [intros i Hi; apply Hpres; lia|].
    pose proof (fold_kernel_read_frame (seqZ 0 (Z.of_nat n)) (st, O)) as (Hc & _).
    cbn zeta in Hc. cbn [fst] in Hc.
    destruct (fold_left kernel_read_slot (seqZ 0 (Z.of_nat n)) (st, O)) as [st' pos].
    cbn [fst snd] in *. subst pos. rewrite Z.add_0_l.
    unfold kernel_read_slot. cbn [cryptArray citable log].
    assert (Hn : is_Some (cryptArray st' !! Z.of_nat n)).
    { rewrite Hlook, decide_False by lia. apply Hpres. lia. }
    destruct Hn as [item Hitem]. rewrite Hitem, Hc.
    destruct (citable st !! Nat.min n (length (citable st))) as [record|] eqn:Hrec.
    + assert (n < length (citable st))%nat.
      { apply lookup_lt_Some in Hrec. lia. }
      rewrite Nat.min_l in Hrec by lia.
      cbn [fst snd cryptArray set_cryptArray]. split; [lia|]. intros i.
      destruct (decide (i = Z.of_nat n)) as [->|Hne].
      * rewrite lookup_insert_eq, decide_True by lia. now rewrite Nat2Z.id, Hrec.
      * rewrite lookup_insert_ne by congruence. rewrite Hlook.
        destruct (decide (0 <= i < Z.of_nat n)).
        -- now rewrite decide_True by lia.
        -- now rewrite decide_False by lia.
    + apply lookup_ge_None in Hrec.
      cbn [fst snd cryptArray log]. split; [lia|]. intros i. rewrite Hlook.
      destruct (decide (i = Z.of_nat n)) as [->|Hne].
      * rewrite decide_False, decide_True by lia. rewrite Nat2Z.id.
        rewrite (proj2 (lookup_ge_None (citable st) n)) by lia. reflexivity.
      * destruct (decide (0 <= i < Z.of_nat n)).
        -- now rewrite decide_True by lia.
        -- now rewrite decide_False by lia.
Qed.

(** After the second loop, on a materialized table: slot [i] holds record
    [i] of the file if the file is that long, and what it held before
    otherwise. *)
Lemma load_table_lookup st (i : Z) :
  materialized (cryptArray st) ->
  cryptArray (load_table st) !! i
  = if decide (0 <= i < DEDUP_TABLE_SIZE)
    then match citable st !! Z.to_nat i with
         | Some record => Some record
         | None => cryptArray st !! i
         end
    else cryptArray st !! i.
Proof.
  intros Hm. unfold load_table.
  assert (E : DEDUP_TABLE_SIZE = Z.of_nat (Z.to_nat DEDUP_TABLE_SIZE)).
  { rewrite Z2Nat.id; [reflexivity | rewrite DEDUP_TABLE_SIZE_val; lia]. }
  revert Hm. unfold materialized. rewrite E. generalize (Z.to_nat DEDUP_TABLE_SIZE).
  intros n Hm. apply (fold_kernel_read_prefix st n Hm).
Qed.

(** Writing never changes the table or the pages, and makes one
    [kernel_write] per slot. *)
Lemma fold_kernel_write_frame (l : list Z) : forall acc,
  let acc' := fold_left kernel_write_slot l acc in
  cryptArray (fst acc') = cryptArray (fst acc) /\ pages (fst acc') = pages (fst acc) /\
  trace (fst acc') = trace (fst acc) ++ map EvKernelWrite l.
Proof.
  induction l as [|x l IH]; intros [st pos]; cbn [fold_left map].
  - cbn. now rewrite app_nil_r.
  - specialize (IH (kernel_write_slot (st, pos) x)). cbn zeta in IH.
    destruct IH as (Hc & Hp & Ht). cbn zeta. rewrite Hc, Hp, Ht.
    unfold kernel_write_slot.
    destruct (cryptArray (log (EvKernelWrite x) st) !! x);
      cbn; rewrite <- ?app_assoc; auto.
Qed.

Lemma store_table_frame st :
  cryptArray (store_table st) = cryptArray st /\ pages (store_table st) = pages st /\
  trace (store_table st) = trace st ++ map EvKernelWrite (seqZ 0 DEDUP_TABLE_SIZE).
Proof.
  pose proof (fold_kernel_write_frame (seqZ 0 DEDUP_TABLE_SIZE) (st, O)) as H.
  cbn zeta in H. cbn [fst] in H. exact H.
Qed.

(** A record written at position [pos], within or at the end of the
    file. *)
Lemma lookup_record_written (file : list Cryptitem) (pos : nat) item (j : nat) :
  (pos <= length file)%nat ->
  (take pos file ++ item :: drop (S pos) file) !! j
  = if decide (j = pos) then Some item else file !! j.
Proof.
  intros Hpos.
  assert (Hlen : length (take pos file) = pos) by (rewrite length_take; lia).
  destruct (decide (j = pos)) as [->|Hne].
  - rewrite lookup_app_r by lia. now rewrite Hlen, Nat.sub_diag.
  - destruct (Nat.lt_ge_cases j pos) as [Hlt|Hge].
    + rewrite lookup_app_l by lia. now apply lookup_take_lt.
    + rewrite lookup_app_r by lia. rewrite Hlen.
      rewrite lookup_cons_ne_0 by lia. rewrite lookup_drop. f_equal. lia.
Qed.

Lemma length_record_written (file : list Cryptitem) (pos : nat) item :
  (pos <= length file)%nat ->
  length (take pos file ++ item :: drop (S pos) file) = Nat.max (length file) (S pos).
Proof.
  intros Hpos. rewrite length_app, length_take. cbn [length]. rewrite length_drop. lia.
Qed.

(** The first [n] writes, on a table whose first [n] slots point to
    items: records [0 .. n - 1] of the file are those items, the other
    records are as before. *)
Lemma fold_kernel_write_prefix st (n : nat) :
  (forall i, 0 <= i < Z.of_nat n -> is_Some (cryptArray st !! i)) ->
  let acc := fold_left kernel_write_slot (seqZ 0 (Z.of_nat n)) (st, O) in
  snd acc = n /\
  length (citable (fst acc)) = Nat.max (length (citable st)) n /\
  forall j : nat, citable (fst acc) !! j
                  = if decide (j < n)%nat then cryptArray st !! Z.of_nat j
                    else citable st !! j.
Proof.
  induction n as [|n IH]; intros Hpres.
  - replace (seqZ 0 (Z.of_nat 0)) with (@nil Z) by reflexivity.
    cbn [fold_left fst snd]. split; [reflexivity|].
    split; [now rewrite Nat.max_0_r|]. intros j.
    rewrite decide_False by lia. reflexivity.
  - rewrite seqZ_S, fold_left_app. cbn [fold_left]. cbn zeta.
    destruct IH as (Hpos & Hlen & Hlook); [intros i Hi; apply Hpres; lia|].
    pose proof (fold_kernel_write_frame (seqZ 0 (Z.of_nat n)) (st, O)) as (Hc & _).
    cbn zeta in Hc. cbn [fst] in Hc.
    destruct (fold_left kernel_write_slot (seqZ 0 (Z.of_nat n)) (st, O)) as [st' pos].
    cbn [fst snd] in *. subst pos. rewrite Z.add_0_l.
    unfold kernel_write_slot. cbn [cryptArray citable log]. rewrite Hc.
    destruct (Hpres (Z.of_nat n)) as [item Hitem]; [lia|]. rewrite Hitem.
    cbn [fst snd citable set_citable log].
    split; [reflexivity|]. split.
    + rewrite length_record_written by lia. lia.
    + intros j. rewrite lookup_record_written by lia.
      destruct (decide (j = n)) as [->|Hne].
      * rewrite decide_True by lia. now rewrite Hitem.
      * rewrite Hlook. destruct (decide (j < n)%nat).
        -- now rewrite decide_True by lia.
        -- now rewrite decide_False by lia.
Qed.

(** After the third loop, on a materialized table: record [i] of the file
    is the item of slot [i], for every slot, and the file is no
    shorter. *)
Lemma store_table_lookup st (j : nat) :
  materialized (cryptArray st) ->
  citable (store_table st) !! j
  = if decide (Z.of_nat j < DEDUP_TABLE_SIZE) then cryptArray st !! Z.of_nat j
    else citable st !! j.
Proof.
  intros Hm. unfold store_table.
  assert (E : DEDUP_TABLE_SIZE = Z.of_nat (Z.to_nat DEDUP_TABLE_SIZE)).
  { rewrite Z2Nat.id; [reflexivity | rewrite DEDUP_TABLE_SIZE_val; lia]. }
  revert Hm. unfold materialized. rewrite E. generalize (Z.to_nat DEDUP_TABLE_SIZE).
  intros n Hm. destruct (fold_kernel_write_prefix st n Hm) as (_ & _ & Hlook).
  rewrite Hlook. destruct (decide (j < n)%nat).
  - now rewrite decide_True by lia.
  - now rewrite decide_False by lia.
Qed.

(** Loading what was just stored gives the table that was stored. *)
Lemma load_after_store st st' :
  materialized (cryptArray st) -> materialized (cryptArray st') ->
  citable st' = citable (store_table st) ->
  (forall i, ~ 0 <= i < DEDUP_TABLE_SIZE -> cryptArray st' !! i = cryptArray st !! i) ->
  cryptArray (load_table st') = cryptArray st.
Proof.
  intros Hm Hm' Hfile Hout. apply map_eq. intros i.
  rewrite load_table_lookup by assumption.
  destruct (decide (0 <= i < DEDUP_TABLE_SIZE)) as [Hi|Hi]; [|now apply Hout].
  rewrite Hfile, store_table_lookup by assumption.
  rewrite decide_True by lia. rewrite Z2Nat.id by lia.
  destruct (Hm i Hi) as [item ->]. reflexivity.
Qed.

(** ** Reloading the table *)

Arguments reload : simpl never.
Arguments record_owner : simpl never.
Arguments encrypt_post_step : simpl never.

(** The table after the first two loops: record [i] of the file where the
    file has one; otherwise the item slot [i] pointed to, or the fresh
    item if it was NULL. *)
Lemma reload_lookup K st (i : Z) :
  cryptArray (reload K st) !! i
  = if decide (0 <= i < DEDUP_TABLE_SIZE)
    then match citable st !! Z.to_nat i with
         | Some record => Some record
         | None => match cryptArray st !! i with
                   | Some item => Some item
                   | None => Some (mkCryptitem (kmalloc_junk K i) 0)
                   end
         end
    else cryptArray st !! i.
Proof.
  unfold reload. rewrite load_table_lookup by apply materialize_materialized.
  destruct (materialize_frame K st) as (-> & _ & _).
  rewrite materialize_lookup.
  destruct (decide (0 <= i < DEDUP_TABLE_SIZE)); [reflexivity|].
  now destruct (cryptArray st !! i).
Qed.

Lemma reload_materialized K st : materialized (cryptArray (reload K st)).
Proof.
  intros i Hi. rewrite reload_lookup, decide_True by assumption.
  destruct (citable st !! Z.to_nat i); [eauto|].
  destruct (cryptArray st !! i); eauto.
Qed.

Lemma reload_frame K st :
  citable (reload K st) = citable st /\
  pages (reload K st) = pages st /\
  trace (reload K st) = trace st ++ map EvKernelRead (seqZ 0 DEDUP_TABLE_SIZE).
Proof.
  unfold reload.
  destruct (load_table_frame (materialize K st)) as (-> & -> & ->).
  destruct (materialize_frame K st) as (-> & -> & ->). auto.
Qed.

Lemma page_data_ext st st' p : pages st = pages st' -> page_data st p = page_data st' p.
Proof. unfold page_data. now intros ->. Qed.

(** ** Search, then insert *)

Lemma crypttable_insert_materialized sgn a finger owner :
  materialized a -> materialized (snd (crypttable_insert sgn a finger owner)).
Proof.
  intros Hm.
  destruct (crypttable_insert_spec sgn a finger owner)
    as [(k & _ & _ & _ & ->)|(_ & ->)]; [|exact Hm].
  intros i Hi. cbn [snd]. destruct (decide (i = probe_slot (hashCrypt sgn finger) k)) as [->|Hne].
  - rewrite lookup_insert_eq. eauto.
  - rewrite lookup_insert_ne by congruence. now apply Hm.
Qed.

Lemma crypttable_insert_outside sgn a finger owner (i : Z) :
  ~ 0 <= i < DEDUP_TABLE_SIZE ->
  snd (crypttable_insert sgn a finger owner) !! i = a !! i.
Proof.
  intros Hi.
  destruct (crypttable_insert_spec sgn a finger owner)
    as [(k & _ & _ & _ & ->)|(_ & ->)]; [|reflexivity].
  cbn [snd]. apply lookup_insert_ne. intros E. apply Hi. rewrite <- E.
  apply probe_slot_range.
Qed.

(** On a table without NULL slots, a search that returns NULL has passed
    every slot. *)
Lemma crypt_search_none_all_pass sgn a finger :
  materialized a -> crypt_search sgn a finger = None ->
  forall i, 0 <= i < DEDUP_TABLE_SIZE -> passes a finger i.
Proof.
  intros Hm Hn.
  destruct (crypt_search_spec sgn a finger) as [(k & Hk & _ & Hstop)|(_ & Hall)];
    [|exact Hall].
  rewrite Hn in Hstop. unfold stops in Hstop.
  destruct (Hm (probe_slot (hashCrypt sgn finger) k)) as [item Hitem];
    [apply probe_slot_range | congruence].
Qed.

(** A match that the search returns sits in a slot of the table. *)
Lemma crypt_search_some sgn a finger item :
  crypt_search sgn a finger = Some item ->
  exists i, 0 <= i < DEDUP_TABLE_SIZE /\ a !! i = Some item /\
            strncmp (fingerprint_crypt item) finger 16 = 0.
Proof.
  intros Hs.
  destruct (crypt_search_spec sgn a finger) as [(k & Hk & _ & Hstop)|(Hn & _)];
    [|congruence].
  rewrite Hs in Hstop. destruct Hstop as [Hl Hz].
  exists (probe_slot (hashCrypt sgn finger) k). split; [apply probe_slot_range|]. now split.
Qed.

(** After a successful insert that followed an unsuccessful search, the
    search finds the item just stored, and no other slot matches. *)
Lemma crypt_search_after_insert sgn a a' finger owner :
  materialized a -> crypt_search sgn a finger = None ->
  crypttable_insert sgn a finger owner = (0, a') ->
  crypt_search sgn a' finger = Some (mkCryptitem (strncpy finger 16) owner) /\
  exists slot, 0 <= slot < DEDUP_TABLE_SIZE /\
    a' = <[slot := mkCryptitem (strncpy finger 16) owner]> a /\
    forall i item, 0 <= i < DEDUP_TABLE_SIZE -> a' !! i = Some item ->
                   strncmp (fingerprint_crypt item) finger 16 = 0 -> i = slot.
Proof.
  intros Hm Hn Hins.
  pose proof (crypt_search_none_all_pass sgn a finger Hm Hn) as Hall.
  destruct (crypttable_insert_spec sgn a finger owner)
    as [(k & Hk & Hw & Hlv & E)|(_ & E)]; rewrite E in Hins; [|discriminate].
  apply (f_equal snd) in Hins. cbn [snd] in Hins. subst a'.
  set (h := hashCrypt sgn finger) in *. split.
  - apply (crypt_search_at sgn _ finger k); [assumption| |].
    + intros j Hj. fold h.
      destruct (Hall (probe_slot h j) (probe_slot_range h j)) as (item & Hl & Hne).
      exists item. split; [|assumption]. rewrite lookup_insert_ne; [assumption|].
      intros Eq. apply probe_slot_inj in Eq; lia.
    + fold h. unfold stops. rewrite lookup_insert_eq. split; [reflexivity|].
      apply strncmp_strncpy_self.
  - exists (probe_slot h k). split; [apply probe_slot_range|]. split; [reflexivity|].
    intros i item Hi Hl Hz. destruct (decide (i = probe_slot h k)) as [->|Hne]; [reflexivity|].
    exfalso. rewrite lookup_insert_ne in Hl by congruence.
    destruct (Hall i Hi) as (item' & Hl' & Hnz). congruence.
Qed.

Lemma record_owner_frame K digest owner st :
  citable (record_owner K digest owner st) = citable st /\
  pages (record_owner K digest owner st) = pages st.
Proof.
  unfold record_owner. cbn zeta. cbn [cryptArray log].
  destruct (crypt_search _ _ _); cbn; auto.
Qed.

Lemma record_owner_cryptArray K digest owner st :
  cryptArray (record_owner K digest owner st)
  = match crypt_search (char_is_signed K) (cryptArray st) digest with
    | Some _ => cryptArray st
    | None => snd (crypttable_insert (char_is_signed K) (cryptArray st) digest owner)
    end.
Proof.
  unfold record_owner. cbn zeta. cbn [cryptArray log].
  destruct (crypt_search _ _ _); reflexivity.
Qed.

Lemma record_owner_trace K digest owner st :
  trace (record_owner K digest owner st)
  = trace st ++ EvCryptSearch digest ::
      match crypt_search (char_is_signed K) (cryptArray st) digest with
      | Some _ => []
      | None => [EvCrypttableInsert digest owner]
      end.
Proof.
  unfold record_owner. cbn zeta. cbn [cryptArray log].
  destruct (crypt_search _ _ _); cbn; [reflexivity|]. now rewrite <- app_assoc.
Qed.

Lemma record_owner_materialized K digest owner st :
  materialized (cryptArray st) -> materialized (cryptArray (record_owner K digest owner st)).
Proof.
  intros Hm. rewrite record_owner_cryptArray.
  destruct (crypt_search _ _ _); [assumption|]. now apply crypttable_insert_materialized.
Qed.

(** Searching and inserting a second time changes nothing: either the
    first search or the first insert put a match in the table, or the
    table is full and the second insert fails like the first. *)
Lemma record_owner_again K digest owner st st' :
  materialized (cryptArray st) ->
  cryptArray st' = cryptArray (record_owner K digest owner st) ->
  cryptArray (record_owner K digest owner st') = cryptArray st'.
Proof.
  intros Hm E. rewrite record_owner_cryptArray, E, record_owner_cryptArray.
  set (sgn := char_is_signed K). set (a := cryptArray st) in *.
  destruct (crypt_search sgn a digest) as [item|] eqn:Hs.
  - now rewrite Hs.
  - destruct (crypttable_insert_spec sgn a digest owner)
      as [(k & _ & _ & _ & Hi)|(_ & Hi)]; rewrite Hi; cbn [snd].
    + destruct (crypt_search_after_insert sgn a _ digest owner Hm Hs Hi) as [-> _].
      reflexivity.
    + now rewrite Hs, Hi.
Qed.

(** ** Projections of a logged state *)

Lemma cryptArray_log e st : cryptArray (log e st) = cryptArray st.
Proof. reflexivity. Qed.
Lemma citable_log e st : citable (log e st) = citable st.
Proof. reflexivity. Qed.
Lemma pages_log e st : pages (log e st) = pages st.
Proof. reflexivity. Qed.
Lemma trace_log e st : trace (log e st) = trace st ++ [e].
Proof. reflexivity. Qed.
Lemma page_data_log e st p : page_data (log e st) p = page_data st p.
Proof. reflexivity. Qed.

(** A choice on what a search returned: [hit] when it returned an item,
    [miss] when it returned NULL. *)
Definition if_found {A : Type} (r : option Cryptitem) (hit miss : A) : A :=
  match r with
  | Some _ => hit
  | None => miss
  end.

(** ** The encrypt branch *)

Lemma reload_open_frame K st :
  citable (reload K (log EvFilpOpen st)) = citable st /\
  pages (reload K (log EvFilpOpen st)) = pages st /\
  trace (reload K (log EvFilpOpen st))
  = trace st ++ EvFilpOpen :: map EvKernelRead (seqZ 0 DEDUP_TABLE_SIZE).
Proof.
  destruct (reload_frame K (log EvFilpOpen st)) as (-> & -> & ->).
  rewrite citable_log, pages_log, trace_log, <- app_assoc. auto.
Qed.

Lemma page_data_reload_open K st p :
  page_data (reload K (log EvFilpOpen st)) p = page_data st p.
Proof. apply page_data_ext. now destruct (reload_open_frame K st) as (_ & -> & _). Qed.

(** The encrypt branch, step by step. *)
Lemma encrypt_post_step_eq K inode dest_page st :
  encrypt_post_step K inode dest_page st
  = log EvFilpClose
      (store_table
         (record_owner K (hash_page_data K (page_data st dest_page)) (i_ino inode)
            (log (EvHashPage dest_page (hash_page_data K (page_data st dest_page)))
               (reload K (log EvFilpOpen st))))).
Proof.
  unfold encrypt_post_step. cbv zeta. rewrite page_data_reload_open. reflexivity.
Qed.

(** The state after the search, and the insert if there was one, of the
    encrypt branch. *)
Definition owner_recorded (K : kernel) (inode : inode) (dest_page : Z) (st : state) : state :=
  record_owner K (hash_page_data K (page_data st dest_page)) (i_ino inode)
    (log (EvHashPage dest_page (hash_page_data K (page_data st dest_page)))
       (reload K (log EvFilpOpen st))).

Arguments owner_recorded : simpl never.

Lemma encrypt_post_step_stored K inode dest_page st :
  encrypt_post_step K inode dest_page st
  = log EvFilpClose (store_table (owner_recorded K inode dest_page st)).
Proof. unfold owner_recorded. exact (encrypt_post_step_eq K inode dest_page st). Qed.

Lemma owner_recorded_cryptArray K inode dest_page st :
  cryptArray (owner_recorded K inode dest_page st)
  = if_found
      (crypt_search (char_is_signed K) (cryptArray (reload K (log EvFilpOpen st)))
         (hash_page_data K (page_data st dest_page)))
      (cryptArray (reload K (log EvFilpOpen st)))
      (snd (crypttable_insert (char_is_signed K) (cryptArray (reload K (log EvFilpOpen st)))
              (hash_page_data K (page_data st dest_page)) (i_ino inode))).
Proof.
  unfold owner_recorded. rewrite record_owner_cryptArray, cryptArray_log.
  unfold if_found. reflexivity.
Qed.

Lemma owner_recorded_materialized K inode dest_page st :
  materialized (cryptArray (owner_recorded K inode dest_page st)).
Proof.
  unfold owner_recorded. apply record_owner_materialized.
  rewrite cryptArray_log. apply reload_materialized.
Qed.

Lemma owner_recorded_frame K inode dest_page st :
  citable (owner_recorded K inode dest_page st) = citable st /\
  pages (owner_recorded K inode dest_page st) = pages st.
Proof.
  unfold owner_recorded.
  match goal with |- citable (record_owner ?k ?d ?o ?x) = _ /\ _ =>
    destruct (record_owner_frame k d o x) as (-> & ->) end.
  rewrite citable_log, pages_log.
  destruct (reload_open_frame K st) as (-> & -> & _). auto.
Qed.

Lemma owner_recorded_trace K inode dest_page st :
  trace (owner_recorded K inode dest_page st)
  = trace st
    ++ EvFilpOpen :: map EvKernelRead (seqZ 0 DEDUP_TABLE_SIZE)
    ++ EvHashPage dest_page (hash_page_data K (page_data st dest_page))
       :: EvCryptSearch (hash_page_data K (page_data st dest_page))
       :: if_found
            (crypt_search (char_is_signed K) (cryptArray (reload K (log EvFilpOpen st)))
               (hash_page_data K (page_data st dest_page)))
            []
            [EvCrypttableInsert (hash_page_data K (page_data st dest_page)) (i_ino inode)].
Proof.
  unfold owner_recorded. rewrite record_owner_trace, trace_log, cryptArray_log.
  destruct (reload_open_frame K st) as (_ & _ & ->).
  rewrite <- !app_assoc. rewrite <- !app_comm_cons. unfold if_found.
  change ([EvHashPage dest_page (hash_page_data K (page_data st dest_page))] ++ ?[l])
    with (EvHashPage dest_page (hash_page_data K (page_data st dest_page)) :: ?l).
  reflexivity.
Qed.

Lemma owner_recorded_outside K inode dest_page st (i : Z) :
  ~ 0 <= i < DEDUP_TABLE_SIZE ->
  cryptArray (owner_recorded K inode dest_page st) !! i = cryptArray st !! i.
Proof.
  intros Hi. rewrite owner_recorded_cryptArray. unfold if_found.
  destruct (crypt_search _ _ _).
  - rewrite reload_lookup, decide_False by assumption. now rewrite cryptArray_log.
  - rewrite crypttable_insert_outside by assumption.
    rewrite reload_lookup, decide_False by assumption. now rewrite cryptArray_log.
Qed.

Lemma encrypt_post_step_cryptArray K inode dest_page st :
  cryptArray (encrypt_post_step K inode dest_page st)
  = cryptArray (owner_recorded K inode dest_page st).
Proof.
  rewrite encrypt_post_step_stored, cryptArray_log.
  now destruct (store_table_frame (owner_recorded K inode dest_page st)) as (-> & _ & _).
Qed.

Lemma encrypt_post_step_pages K inode dest_page st :
  pages (encrypt_post_step K inode dest_page st) = pages st.
Proof.
  rewrite encrypt_post_step_stored, pages_log.
  destruct (store_table_frame (owner_recorded K inode dest_page st)) as (_ & -> & _).
  now destruct (owner_recorded_frame K inode dest_page st) as (_ & ->).
Qed.

(** The file the encrypt branch leaves: one record per slot, equal to the
    slot's item; records after those are as before. *)
Lemma encrypt_post_step_citable K inode dest_page st (j : nat) :
  citable (encrypt_post_step K inode dest_page st) !! j
  = if decide (Z.of_nat j < DEDUP_TABLE_SIZE)
    then cryptArray (encrypt_post_step K inode dest_page st) !! Z.of_nat j
    else citable st !! j.
Proof.
  rewrite encrypt_post_step_cryptArray.
  rewrite encrypt_post_step_stored, citable_log.
  rewrite store_table_lookup by apply owner_recorded_materialized.
  destruct (decide (Z.of_nat j < DEDUP_TABLE_SIZE)); [reflexivity|].
  now destruct (owner_recorded_frame K inode dest_page st) as (-> & _).
Qed.

Lemma encrypt_post_step_trace K inode dest_page st :
  trace (encrypt_post_step K inode dest_page st)
  = trace (owner_recorded K inode dest_page st)
    ++ map EvKernelWrite (seqZ 0 DEDUP_TABLE_SIZE) ++ [EvFilpClose].
Proof.
  rewrite encrypt_post_step_stored, trace_log.
  destruct (store_table_frame (owner_recorded K inode dest_page st)) as (_ & _ & ->).
  now rewrite <- app_assoc.
Qed.

(** The next reload finds the table the encrypt branch left. *)
Lemma reload_after_encrypt K inode dest_page st :
  cryptArray (reload K (log EvFilpOpen (encrypt_post_step K inode dest_page st)))
  = cryptArray (encrypt_post_step K inode dest_page st).
Proof.
  apply map_eq. intros i. rewrite reload_lookup, citable_log, cryptArray_log.
  destruct (decide (0 <= i < DEDUP_TABLE_SIZE)) as [Hi|Hi]; [|reflexivity].
  rewrite encrypt_post_step_citable, decide_True by lia.
  rewrite Z2Nat.id by lia. rewrite encrypt_post_step_cryptArray.
  destruct (owner_recorded_materialized K inode dest_page st i Hi) as [item ->].
  reflexivity.
Qed.

(** * The claims *)

(** ** The hash (C4) *)

(** The fingerprint 01 00 00 ... 00. *)
Definition finger_one : list byte :=
  [x01; x00; x00; x00; x00; x00; x00; x00; x00; x00; x00; x00; x00; x00; x00; x00].

(** C4.  The claim: for every 16-byte fingerprint, [hashCrypt] is the sum
    of the sixteen bytes, read as unsigned integers, modulo 1,048,576.
    The code, at the fingerprint 01 00 ... 00 and whatever the signedness
    of [char]: the sum of the bytes is 1, and so is 1 modulo 1,048,576,
    but [hashCrypt] returns 1024, because [hash % DEDUP_TABLE_SIZE]
    expands to [hash % 1024*1024], that is [(hash % 1024) * 1024]. *)
Theorem hashCrypt_is_not_the_sum_mod_capacity (sgn : bool) :
  length finger_one = 16%nat /\
  byte_sum finger_one mod DEDUP_TABLE_SIZE = 1 /\
  hashCrypt sgn finger_one = 1024.
Proof. destruct sgn; vm_compute; auto. Qed.

(** ** Insert (C2) *)

(** The fingerprint 01 00 05 00 ... 00: a NUL byte, then a byte that is
    not NUL. *)
Definition finger_inner_nul : list byte :=
  [x01; x00; x05; x00; x00; x00; x00; x00; x00; x00; x00; x00; x00; x00; x00; x00].

(** What [strncpy] stores for it: 01 00 00 ... 00. *)
Definition finger_inner_nul_stored : list byte :=
  [x01; x00; x00; x00; x00; x00; x00; x00; x00; x00; x00; x00; x00; x00; x00; x00].

(** C2.  The claim: the slot that [crypttable_insert(f, ino)] overwrites
    gets an item whose stored fingerprint equals [f] in all 16 bytes.
    The code, on the empty table with [f] = 01 00 05 00 ... 00 and
    [ino] = 7: it returns 0 and slot 6144, the hash of [f], holds the
    fingerprint 01 00 00 00 ... 00, which is not [f]: [strncpy] stops
    copying at the NUL and pads with NUL. *)
Theorem crypttable_insert_stores_up_to_nul (sgn : bool) :
  crypttable_insert sgn ∅ finger_inner_nul 7
  = (0, {[ 6144 := mkCryptitem finger_inner_nul_stored 7 ]}) /\
  finger_inner_nul_stored <> finger_inner_nul.
Proof.
  split.
  - destruct sgn; vm_compute; reflexivity.
  - discriminate.
Qed.

(** ** Search terminates (C3) *)

(** C3.  For every table and every query, the loop of [crypt_search]
    returns within [DEDUP_TABLE_SIZE + 1] iterations (the fuel
    [probe_fuel], and any larger amount, gives the result of
    [crypt_search]); the result is NULL when the probe reaches a NULL slot
    after passing the slots before it, and it is NULL when the probe has
    passed a slot at each of the steps 0 to [DEDUP_TABLE_SIZE], that is
    when it has advanced more than [DEDUP_TABLE_SIZE] times. *)
Theorem crypt_search_terminates (sgn : bool) (a : gmap Z Cryptitem) (finger : list byte) :
  (forall extra : nat,
     crypt_search_loop (probe_fuel + extra) a finger (hashCrypt sgn finger) 0
     = Some (crypt_search sgn a finger)) /\
  (forall k, 0 <= k < DEDUP_TABLE_SIZE ->
     (forall j, 0 <= j < k -> passes a finger (probe_slot (hashCrypt sgn finger) j)) ->
     a !! probe_slot (hashCrypt sgn finger) k = None ->
     crypt_search sgn a finger = None) /\
  ((forall j, 0 <= j <= DEDUP_TABLE_SIZE ->
      passes a finger (probe_slot (hashCrypt sgn finger) j)) ->
   crypt_search sgn a finger = None).
Proof.
  split; [|split].
  - intros extra. apply crypt_search_loop_more, crypt_search_loop_probe_fuel.
  - intros k Hk Hpass Hnull. now apply (crypt_search_at sgn a finger k None).
  - intros Hpass. apply crypt_search_exhausted. intros i Hi.
    destruct (probe_slot_reaches (hashCrypt sgn finger) i (hashCrypt_range sgn finger) Hi)
      as (k & Hk & <-).
    apply Hpass. lia.
Qed.

(** The first case of C3 on the empty table: the probe stops on its first
    slot. *)
Lemma crypt_search_terminates_witness :
  crypt_search true ∅ finger_one = None.
Proof.
  apply (proj1 (proj2 (crypt_search_terminates true ∅ finger_one)) 0).
  - rewrite DEDUP_TABLE_SIZE_val. lia.
  - intros j Hj. lia.
  - apply lookup_empty.
Defined.

(** ** What a match is (C10) *)

(** A kernel for the examples: the digest of a page is its first sixteen
    bytes, the recovery index is empty, allocation succeeds, the cipher
    copies the source and succeeds, every page is locked and belongs to
    inode 2 of a file system with 4096-byte blocks. *)
Definition example_kernel (sgn : bool) (junk : Z -> list byte) : kernel :=
  {| char_is_signed := sgn;
     FSCRYPT_CONTENTS_ALIGNMENT := 16;
     FSCRYPT_POLICY_FLAG_DIRECT_KEY := 4;
     FSCRYPT_POLICY_FLAG_IV_INO_LBLK_64 := 8;
     FSCRYPT_POLICY_FLAG_IV_INO_LBLK_32 := 16;
     FSCRYPT_FILE_NONCE_SIZE := 16;
     FSCRYPT_MAX_IV_SIZE := 32;
     PAGE_SHIFT := 12;
     GFP_NOFS := 0;
     hash_page_data := firstn 16;
     finger_crypt_search := fun _ => None;
     skcipher_request_alloc := fun _ _ => true;
     crypto_skcipher := fun _ _ _ src _ _ _ => (0, src);
     f2fs_iget := fun sb ino => mkInode ino sb 12 (mkInfo 0 ino 0 [] ino 16);
     PageLocked := fun _ => true;
     page_host := fun _ => mkInode 2 0 12 (mkInfo 0 2 0 [] 2 16);
     page_index := fun _ => 0;
     kmalloc_junk := junk;
     uninitialized_iv := fun _ => mkIv 0 (repeat xff 16) (repeat xff 8) |}.

(** The state of a fresh system: the array is all NULL, "/citable" holds
    no record, the pages are [pg], nothing has been called. *)
Definition fresh_state (pg : gmap Z (list byte)) : state := mkState ∅ [] pg [].

Lemma example_kernel_digest sgn junk data :
  hash_page_data (example_kernel sgn junk) data = firstn 16 data.
Proof. reflexivity. Qed.

Lemma example_kernel_signed sgn junk : char_is_signed (example_kernel sgn junk) = sgn.
Proof. reflexivity. Qed.

(** The reloaded table of a fresh system: every slot is a materialized
    item, junk fingerprint and owner 0. *)
Lemma fresh_reload_lookup sgn junk pg (i : Z) :
  0 <= i < DEDUP_TABLE_SIZE ->
  cryptArray (reload (example_kernel sgn junk) (log EvFilpOpen (fresh_state pg))) !! i
  = Some (mkCryptitem (junk i) 0).
Proof.
  intros Hi. rewrite reload_lookup, decide_True by assumption.
  rewrite citable_log, cryptArray_log.
  change (citable (fresh_state pg)) with (@nil Cryptitem).
  change (cryptArray (fresh_state pg)) with (∅ : gmap Z Cryptitem).
  rewrite lookup_nil, lookup_empty. reflexivity.
Qed.

Lemma passes_fingerprints a b finger i :
  fingerprint_crypt <$> (a !! i) = fingerprint_crypt <$> (b !! i) ->
  passes a finger i -> passes b finger i.
Proof.
  intros E (item & Ha & Hn). rewrite Ha in E. symmetry in E.
  apply fmap_Some in E as (item' & Hb & Hf). exists item'. split; [assumption|].
  now rewrite <- Hf.
Qed.

Lemma stops_fingerprints a b finger i r :
  fingerprint_crypt <$> (a !! i) = fingerprint_crypt <$> (b !! i) ->
  stops a finger i r ->
  exists r', stops b finger i r' /\ fingerprint_crypt <$> r = fingerprint_crypt <$> r'.
Proof.
  intros E Hs. destruct r as [item|]; unfold stops in Hs.
  - destruct Hs as [Ha Hz]. rewrite Ha in E. symmetry in E.
    apply fmap_Some in E as (item' & Hb & Hf). exists (Some item'). split.
    + unfold stops. split; [assumption|]. now rewrite <- Hf.
    + cbn. now rewrite Hf.
  - rewrite Hs in E. symmetry in E. apply fmap_None in E. exists None. now split.
Qed.

(** The result of a search is decided by the fingerprints in the slots:
    two tables that differ only in the owners give matches with the same
    fingerprint, or both give NULL. *)
Lemma crypt_search_fingerprints_only sgn (a b : gmap Z Cryptitem) finger :
  (forall i, fingerprint_crypt <$> (a !! i) = fingerprint_crypt <$> (b !! i)) ->
  fingerprint_crypt <$> crypt_search sgn a finger
  = fingerprint_crypt <$> crypt_search sgn b finger.
Proof.
  intros E.
  destruct (crypt_search_spec sgn a finger) as [(k & Hk & Hpass & Hstop)|(Hn & Hall)].
  - destruct (stops_fingerprints a b finger _ _ (E _) Hstop) as (r' & Hstop' & ->).
    f_equal. symmetry. apply (crypt_search_at sgn b finger k); [assumption| |assumption].
    intros j Hj. apply (passes_fingerprints a b); [apply E | now apply Hpass].
  - rewrite Hn. symmetry.
    rewrite (crypt_search_exhausted sgn b finger); [reflexivity|].
    intros i Hi. apply (passes_fingerprints a b); [apply E | now apply Hall].
Qed.

(** On a fresh system whose heap junk happens to be the query, the
    reloaded table answers the query with a materialized item: owner
    0. *)
Lemma crypt_search_fresh_junk sgn pg (finger : list byte) :
  strncmp finger finger 16 = 0 ->
  crypt_search sgn
    (cryptArray (reload (example_kernel sgn (fun _ => finger))
                   (log EvFilpOpen (fresh_state pg))))
    finger
  = Some (mkCryptitem finger 0).
Proof.
  intros Hz.
  apply (crypt_search_at sgn _ finger 0 (Some (mkCryptitem finger 0))).
  - rewrite DEDUP_TABLE_SIZE_val. lia.
  - intros j Hj. lia.
  - unfold stops. rewrite probe_slot_0 by apply hashCrypt_range.
    rewrite fresh_reload_lookup by apply hashCrypt_range.
    split; [reflexivity | exact Hz].
Qed.

Lemma strncmp_same (finger : list byte) (n : nat) : strncmp finger finger n = 0.
Proof. now apply strncmp_zero_iff. Qed.

(** When the search finds an item, the table after lines 269-271 is the
    table before, and the search finds the same item in it. *)
Lemma crypt_search_found_no_insert sgn (a : gmap Z Cryptitem) digest owner item :
  crypt_search sgn a digest = Some item ->
  crypt_search sgn
    (if_found (crypt_search sgn a digest) a (snd (crypttable_insert sgn a digest owner)))
    digest
  = Some item.
Proof. intros H. rewrite H. unfold if_found. exact H. Qed.

(** C10.  The match of [crypt_search] is decided by the stored
    fingerprint bytes alone: tables with the same fingerprints in the
    same slots, whatever the owners, give matches with the same
    fingerprint.  Some search returns an item whose owner is 0: on a
    fresh system where the heap junk of a materialized slot equals the
    query.  And the existence check before the insert is that search:
    when it returns an item, whatever its owner, [crypttable_insert] is
    not called and the table is unchanged; on that fresh system the
    encrypt branch for inode 7 leaves the fingerprint with owner 0. *)
Theorem crypt_search_matches_fingerprint_not_owner (sgn : bool) :
  (forall (a b : gmap Z Cryptitem) finger,
     (forall i, fingerprint_crypt <$> (a !! i) = fingerprint_crypt <$> (b !! i)) ->
     fingerprint_crypt <$> crypt_search sgn a finger
     = fingerprint_crypt <$> crypt_search sgn b finger) /\
  (exists K st finger item,
     char_is_signed K = sgn /\
     crypt_search sgn (cryptArray (reload K (log EvFilpOpen st))) finger = Some item /\
     ino item = 0) /\
  (forall K digest owner st item,
     crypt_search (char_is_signed K) (cryptArray st) digest = Some item ->
     cryptArray (record_owner K digest owner st) = cryptArray st /\
     trace (record_owner K digest owner st) = trace st ++ [EvCryptSearch digest]) /\
  (exists K st item,
     char_is_signed K = sgn /\
     crypt_search sgn
       (cryptArray (encrypt_post_step K (mkInode 7 0 12 (mkInfo 0 7 0 [] 7 16)) 1 st))
       (hash_page_data K (page_data st 1))
     = Some item /\
     ino item = 0).
Proof.
  split; [|split; [|split]].
  - intros a b finger. apply crypt_search_fingerprints_only.
  - exists (example_kernel sgn (fun _ => finger_one)), (fresh_state {[ 1 := finger_one ]}),
      finger_one, (mkCryptitem finger_one 0).
    split; [reflexivity|]. split; [|reflexivity].
    exact (crypt_search_fresh_junk sgn {[ 1 := finger_one ]} finger_one (strncmp_same _ _)).
  - intros K digest owner st item Hs.
    rewrite record_owner_cryptArray, record_owner_trace, Hs. now split.
  - exists (example_kernel sgn (fun _ => finger_one)), (fresh_state {[ 1 := finger_one ]}),
      (mkCryptitem finger_one 0).
    split; [reflexivity|]. split; [|reflexivity].
    rewrite encrypt_post_step_cryptArray, owner_recorded_cryptArray.
    exact (crypt_search_found_no_insert sgn _ finger_one 7 _
             (crypt_search_fresh_junk sgn {[ 1 := finger_one ]} finger_one
                (strncmp_same _ _))).
Qed.

(** ** Idempotence of the encrypt branch (C9) *)

(** Lines 269-271 on the table alone: the table after the search and the
    insert that follows a search returning NULL. *)
Definition search_insert (sgn : bool) (a : gmap Z Cryptitem) (digest : list byte)
    (owner : Z) : gmap Z Cryptitem :=
  if_found (crypt_search sgn a digest) a (snd (crypttable_insert sgn a digest owner)).

Arguments search_insert : simpl never.

Lemma owner_recorded_search_insert K inode dest_page st :
  cryptArray (owner_recorded K inode dest_page st)
  = search_insert (char_is_signed K) (cryptArray (reload K (log EvFilpOpen st)))
      (hash_page_data K (page_data st dest_page)) (i_ino inode).
Proof. unfold search_insert. exact (owner_recorded_cryptArray K inode dest_page st). Qed.

(** Doing it again changes nothing: either the first search or the first
    insert put a match in the table, or the table is full and the second
    insert fails like the first. *)
Lemma search_insert_idem sgn a digest owner :
  materialized a ->
  search_insert sgn (search_insert sgn a digest owner) digest owner
  = search_insert sgn a digest owner.
Proof.
  intros Hm. unfold search_insert at 2 3.
  destruct (crypt_search sgn a digest) as [item|] eqn:Hs; unfold if_found.
  - unfold search_insert. rewrite Hs. reflexivity.
  - destruct (crypttable_insert_spec sgn a digest owner)
      as [(k & _ & _ & _ & Hi)|(_ & Hi)]; rewrite Hi; unfold snd.
    + destruct (crypt_search_after_insert sgn a _ digest owner Hm Hs Hi) as [Hf _].
      unfold search_insert. rewrite Hf. reflexivity.
    + unfold search_insert. rewrite Hs, Hi. reflexivity.
Qed.

(** After a first insert the search finds the item it stored, in the one
    slot that matches. *)
Lemma search_insert_inserted sgn a digest owner :
  materialized a -> crypt_search sgn a digest = None ->
  fst (crypttable_insert sgn a digest owner) = 0 ->
  crypt_search sgn (search_insert sgn a digest owner) digest
  = Some (mkCryptitem (strncpy digest 16) owner) /\
  exists slot, 0 <= slot < DEDUP_TABLE_SIZE /\
    forall i item, 0 <= i < DEDUP_TABLE_SIZE ->
                   search_insert sgn a digest owner !! i = Some item ->
                   strncmp (fingerprint_crypt item) digest 16 = 0 -> i = slot.
Proof.
  intros Hm Hs Hz. unfold search_insert. rewrite Hs. unfold if_found.
  destruct (crypttable_insert_spec sgn a digest owner)
    as [(k & _ & _ & _ & Hi)|(_ & Hi)]; rewrite Hi in Hz |- *; unfold fst in Hz;
    [|discriminate]. unfold snd.
  destruct (crypt_search_after_insert sgn a _ digest owner Hm Hs Hi)
    as (Hf & slot & Hslot & _ & Huniq).
  split; [exact Hf|]. exists slot. split; assumption.
Qed.

Lemma page_data_encrypt_post_step K inode dest_page st p :
  page_data (encrypt_post_step K inode dest_page st) p = page_data st p.
Proof. unfold page_data. rewrite encrypt_post_step_pages. reflexivity. Qed.

(** C9.  The encrypt branch run twice on the same page for the same inode
    (so with the same ciphertext fingerprint and the same owner): the
    second run computes the same fingerprint, leaves the table exactly as
    the first run left it, and the search for the fingerprint has the
    same result after both runs.  Whenever the search finds the
    fingerprint after the first run, the second run makes no call of
    [crypttable_insert]: its calls are the open, the reads, the digest,
    the search, the writes and the close.  After a first run that
    inserted (its search returned NULL and [crypttable_insert] returned
    0) the search does find the fingerprint: it returns the item the
    first run stored, and one slot only of the table matches the
    fingerprint. *)
Theorem encrypt_post_step_idempotent (K : kernel) (inode : inode) (dest_page : Z)
    (st : state) :
  hash_page_data K (page_data (encrypt_post_step K inode dest_page st) dest_page)
  = hash_page_data K (page_data st dest_page) /\
  cryptArray (encrypt_post_step K inode dest_page (encrypt_post_step K inode dest_page st))
  = cryptArray (encrypt_post_step K inode dest_page st) /\
  crypt_search (char_is_signed K)
    (cryptArray (encrypt_post_step K inode dest_page
                   (encrypt_post_step K inode dest_page st)))
    (hash_page_data K (page_data st dest_page))
  = crypt_search (char_is_signed K)
      (cryptArray (encrypt_post_step K inode dest_page st))
      (hash_page_data K (page_data st dest_page)) /\
  (is_Some (crypt_search (char_is_signed K)
              (cryptArray (encrypt_post_step K inode dest_page st))
              (hash_page_data K (page_data st dest_page))) ->
   trace (encrypt_post_step K inode dest_page (encrypt_post_step K inode dest_page st))
   = (trace (encrypt_post_step K inode dest_page st)
      ++ EvFilpOpen :: map EvKernelRead (seqZ 0 DEDUP_TABLE_SIZE)
      ++ [EvHashPage dest_page (hash_page_data K (page_data st dest_page));
          EvCryptSearch (hash_page_data K (page_data st dest_page))])
     ++ map EvKernelWrite (seqZ 0 DEDUP_TABLE_SIZE) ++ [EvFilpClose]) /\
  (crypt_search (char_is_signed K) (cryptArray (reload K (log EvFilpOpen st)))
     (hash_page_data K (page_data st dest_page)) = None ->
   fst (crypttable_insert (char_is_signed K) (cryptArray (reload K (log EvFilpOpen st)))
          (hash_page_data K (page_data st dest_page)) (i_ino inode)) = 0 ->
   crypt_search (char_is_signed K)
     (cryptArray (encrypt_post_step K inode dest_page st))
     (hash_page_data K (page_data st dest_page))
   = Some (mkCryptitem (strncpy (hash_page_data K (page_data st dest_page)) 16)
             (i_ino inode)) /\
   exists slot, 0 <= slot < DEDUP_TABLE_SIZE /\
     forall i item, 0 <= i < DEDUP_TABLE_SIZE ->
       cryptArray (encrypt_post_step K inode dest_page st) !! i = Some item ->
       strncmp (fingerprint_crypt item) (hash_page_data K (page_data st dest_page)) 16 = 0 ->
       i = slot).
Proof.
  assert (Hd : hash_page_data K (page_data (encrypt_post_step K inode dest_page st) dest_page)
               = hash_page_data K (page_data st dest_page)).
  { rewrite page_data_encrypt_post_step. reflexivity. }
  assert (Ht : cryptArray (encrypt_post_step K inode dest_page
                             (encrypt_post_step K inode dest_page st))
               = cryptArray (encrypt_post_step K inode dest_page st)).
  { rewrite (encrypt_post_step_cryptArray K inode dest_page
               (encrypt_post_step K inode dest_page st)).
    rewrite owner_recorded_search_insert, reload_after_encrypt, Hd.
    rewrite encrypt_post_step_cryptArray, owner_recorded_search_insert.
    exact (search_insert_idem _ _ _ _ (reload_materialized K (log EvFilpOpen st))). }
  split; [exact Hd|]. split; [exact Ht|]. split; [rewrite Ht; reflexivity|]. split.
  - intros [item Hfound].
    rewrite (encrypt_post_step_trace K inode dest_page
               (encrypt_post_step K inode dest_page st)).
    rewrite owner_recorded_trace, reload_after_encrypt, Hd, Hfound.
    unfold if_found. reflexivity.
  - intros Hs Hz.
    rewrite encrypt_post_step_cryptArray, owner_recorded_search_insert.
    exact (search_insert_inserted _ _ _ _ (reload_materialized K (log EvFilpOpen st)) Hs Hz).
Qed.

(** The table after one run of the encrypt branch, and after a second
    run on another page for another inode. *)
Lemma encrypt_post_step_table K inode dest_page st :
  cryptArray (encrypt_post_step K inode dest_page st)
  = search_insert (char_is_signed K) (cryptArray (reload K (log EvFilpOpen st)))
      (hash_page_data K (page_data st dest_page)) (i_ino inode).
Proof. rewrite encrypt_post_step_cryptArray. apply owner_recorded_search_insert. Qed.

Lemma encrypt_post_step_table_next K inode inode' dest_page dest_page' st :
  cryptArray (encrypt_post_step K inode' dest_page' (encrypt_post_step K inode dest_page st))
  = search_insert (char_is_signed K) (cryptArray (encrypt_post_step K inode dest_page st))
      (hash_page_data K (page_data st dest_page')) (i_ino inode').
Proof.
  rewrite (encrypt_post_step_table K inode' dest_page'
             (encrypt_post_step K inode dest_page st)).
  rewrite reload_after_encrypt, page_data_encrypt_post_step. reflexivity.
Qed.

(** ** Two fingerprints that agree up to a NUL (C1) *)

(** When the slot at the hash is writable the item goes there. *)
Lemma search_insert_at_hash sgn (a : gmap Z Cryptitem) finger owner :
  crypt_search sgn a finger = None ->
  writable a (hashCrypt sgn finger) ->
  search_insert sgn a finger owner
  = <[hashCrypt sgn finger := mkCryptitem (strncpy finger 16) owner]> a.
Proof.
  intros Hs Hw. unfold search_insert. rewrite Hs. unfold if_found.
  rewrite (crypttable_insert_at sgn a finger owner 0).
  - unfold snd. rewrite probe_slot_0 by apply hashCrypt_range. reflexivity.
  - rewrite DEDUP_TABLE_SIZE_val. lia.
  - rewrite probe_slot_0 by apply hashCrypt_range. exact Hw.
  - intros j Hj. lia.
Qed.

(** A match in the slot at the hash is what the search returns. *)
Lemma crypt_search_at_hash sgn (a : gmap Z Cryptitem) finger item :
  a !! hashCrypt sgn finger = Some item ->
  strncmp (fingerprint_crypt item) finger 16 = 0 ->
  crypt_search sgn a finger = Some item.
Proof.
  intros Hl Hz. apply (crypt_search_at sgn a finger 0 (Some item)).
  - rewrite DEDUP_TABLE_SIZE_val. lia.
  - intros j Hj. lia.
  - unfold stops. rewrite probe_slot_0 by apply hashCrypt_range. now split.
Qed.

(** Search-then-insert of [f1] for [o1], then of [f2] for [o2], when the
    two have the same hash, [f1] was not in the table, its slot was
    writable, and [f2] agrees with [f1] up to a NUL: the second search
    takes the item of [f1] for a match, nothing is inserted for [f2], and
    both searches return the item of [f1], with the fingerprint cut at the
    NUL and the owner [o1]. *)
Lemma search_insert_conflates sgn (a : gmap Z Cryptitem) f1 f2 o1 o2 :
  crypt_search sgn a f1 = None ->
  writable a (hashCrypt sgn f1) ->
  hashCrypt sgn f2 = hashCrypt sgn f1 ->
  strncmp (strncpy f1 16) f2 16 = 0 ->
  crypt_search sgn (search_insert sgn (search_insert sgn a f1 o1) f2 o2) f2
  = Some (mkCryptitem (strncpy f1 16) o1) /\
  crypt_search sgn (search_insert sgn (search_insert sgn a f1 o1) f2 o2) f1
  = Some (mkCryptitem (strncpy f1 16) o1).
Proof.
  intros Hs Hw Hh Hz.
  rewrite (search_insert_at_hash sgn a f1 o1 Hs Hw).
  set (a1 := <[hashCrypt sgn f1 := mkCryptitem (strncpy f1 16) o1]> a).
  assert (H2 : crypt_search sgn a1 f2 = Some (mkCryptitem (strncpy f1 16) o1)).
  { apply crypt_search_at_hash; [|exact Hz]. rewrite Hh. apply lookup_insert_eq. }
  assert (E : search_insert sgn a1 f2 o2 = a1).
  { unfold search_insert. rewrite H2. reflexivity. }
  rewrite E. split; [exact H2|].
  apply crypt_search_at_hash; [apply lookup_insert_eq | apply strncmp_strncpy_self].
Qed.

(** Heap junk that matches nothing below: sixteen bytes ff. *)
Definition finger_ff : list byte :=
  [xff; xff; xff; xff; xff; xff; xff; xff; xff; xff; xff; xff; xff; xff; xff; xff].

(** Two distinct fingerprints with the same first two bytes, 01 00, and
    the same hash. *)
Definition finger_a : list byte :=
  [x01; x00; x02; x01; x00; x00; x00; x00; x00; x00; x00; x00; x00; x00; x00; x00].
Definition finger_b : list byte :=
  [x01; x00; x01; x02; x00; x00; x00; x00; x00; x00; x00; x00; x00; x00; x00; x00].

(** What [strncpy] stores for either. *)
Definition finger_ab_stored : list byte :=
  [x01; x00; x00; x00; x00; x00; x00; x00; x00; x00; x00; x00; x00; x00; x00; x00].

Definition inode_7 : inode := mkInode 7 0 12 (mkInfo 0 7 0 [] 7 16).
Definition inode_9 : inode := mkInode 9 0 12 (mkInfo 0 9 0 [] 9 16).

(** On a fresh system with junk that matches nothing, the first search
    returns NULL and every slot is writable. *)
Lemma fresh_search_none sgn junk pg finger :
  (forall i, strncmp (junk i) finger 16 <> 0) ->
  crypt_search sgn
    (cryptArray (reload (example_kernel sgn junk) (log EvFilpOpen (fresh_state pg))))
    finger
  = None.
Proof.
  intros Hj. refine (crypt_search_exhausted sgn _ finger _). intros i Hi.
  exists (mkCryptitem (junk i) 0). split; [exact (fresh_reload_lookup sgn junk pg i Hi)|].
  apply Hj.
Qed.

Lemma fresh_writable sgn junk pg (i : Z) :
  0 <= i < DEDUP_TABLE_SIZE ->
  writable (cryptArray (reload (example_kernel sgn junk) (log EvFilpOpen (fresh_state pg))))
    i.
Proof.
  intros Hi. unfold writable. rewrite (fresh_reload_lookup sgn junk pg i Hi).
  unfold ino. lia.
Qed.

(** The same through two runs of the encrypt branch, for any kernel and
    any state. *)
Lemma encrypt_post_step_conflates K inode1 inode2 p1 p2 st f1 f2 :
  hash_page_data K (page_data st p1) = f1 ->
  hash_page_data K (page_data st p2) = f2 ->
  crypt_search (char_is_signed K) (cryptArray (reload K (log EvFilpOpen st))) f1 = None ->
  writable (cryptArray (reload K (log EvFilpOpen st))) (hashCrypt (char_is_signed K) f1) ->
  hashCrypt (char_is_signed K) f2 = hashCrypt (char_is_signed K) f1 ->
  strncmp (strncpy f1 16) f2 16 = 0 ->
  crypt_search (char_is_signed K)
    (cryptArray (encrypt_post_step K inode2 p2 (encrypt_post_step K inode1 p1 st))) f2
  = Some (mkCryptitem (strncpy f1 16) (i_ino inode1)) /\
  crypt_search (char_is_signed K)
    (cryptArray (encrypt_post_step K inode2 p2 (encrypt_post_step K inode1 p1 st))) f1
  = Some (mkCryptitem (strncpy f1 16) (i_ino inode1)).
Proof.
  intros H1 H2 Hs Hw Hh Hz.
  rewrite encrypt_post_step_table_next, encrypt_post_step_table, H1, H2.
  exact (search_insert_conflates _ _ f1 f2 _ _ Hs Hw Hh Hz).
Qed.

(** C1.  The claim: two distinct fingerprints inserted with their owners
    through the encrypt branch are each found with their own fingerprint
    and owner, also when their hashes are equal, the comparison being
    byte-for-byte over all 16 bytes.  The code, on a fresh system (junk
    ff .. ff in the materialized slots), with page 1 hashing to
    01 00 02 01 00 .. 00 encrypted for inode 7 and then page 2 hashing to
    01 00 01 02 00 .. 00 encrypted for inode 9: the fingerprints are
    distinct and have the same hash, and after the two operations the
    search for either returns the item (01 00 00 .. 00, 7): [strncpy]
    stored the first fingerprint up to its NUL, and [strncmp] compares up
    to the NUL, so the second fingerprint was taken for the first and not
    inserted. *)
Theorem crypt_search_conflates_at_nul (sgn : bool) :
  finger_a <> finger_b /\
  hashCrypt sgn finger_a = hashCrypt sgn finger_b /\
  crypt_search sgn
    (cryptArray
       (encrypt_post_step (example_kernel sgn (fun _ => finger_ff)) inode_9 2
          (encrypt_post_step (example_kernel sgn (fun _ => finger_ff)) inode_7 1
             (fresh_state {[ 1 := finger_a; 2 := finger_b ]}))))
    finger_b
  = Some (mkCryptitem finger_ab_stored 7) /\
  crypt_search sgn
    (cryptArray
       (encrypt_post_step (example_kernel sgn (fun _ => finger_ff)) inode_9 2
          (encrypt_post_step (example_kernel sgn (fun _ => finger_ff)) inode_7 1
             (fresh_state {[ 1 := finger_a; 2 := finger_b ]}))))
    finger_a
  = Some (mkCryptitem finger_ab_stored 7).
Proof.
  split; [discriminate|]. split; [destruct sgn; vm_compute; reflexivity|].
  assert (Hh : hashCrypt sgn finger_b = hashCrypt sgn finger_a)
    by (destruct sgn; vm_compute; reflexivity).
  assert (Hz : strncmp (strncpy finger_a 16) finger_b 16 = 0)
    by (vm_compute; reflexivity).
  assert (Hj : forall i : Z, strncmp ((fun _ : Z => finger_ff) i) finger_a 16 <> 0)
    by (intros i; vm_compute; discriminate).
  exact (encrypt_post_step_conflates (example_kernel sgn (fun _ => finger_ff))
           inode_7 inode_9 1 2 (fresh_state {[ 1 := finger_a; 2 := finger_b ]})
           finger_a finger_b eq_refl eq_refl
           (fresh_search_none sgn (fun _ => finger_ff)
              {[ 1 := finger_a; 2 := finger_b ]} finger_a Hj)
           (fresh_writable sgn (fun _ => finger_ff)
              {[ 1 := finger_a; 2 := finger_b ]} (hashCrypt sgn finger_a)
              (hashCrypt_range sgn finger_a))
           Hh Hz).
Qed.

(** An insert whose first slot is writable returns 0. *)
Lemma crypttable_insert_first_writable sgn a finger owner :
  writable a (hashCrypt sgn finger) ->
  fst (crypttable_insert sgn a finger owner) = 0.
Proof.
  intros Hw. rewrite (crypttable_insert_at sgn a finger owner 0).
  - reflexivity.
  - rewrite DEDUP_TABLE_SIZE_val. lia.
  - rewrite (probe_slot_0 _ (hashCrypt_range sgn finger)). exact Hw.
  - intros j Hj. lia.
Qed.

(** C9 on a fresh system (junk ff .. ff in the materialized slots): the
    first run for inode 7 on a page hashing to 01 00 .. 00 finds nothing
    and inserts, and the search then returns the item it stored. *)
Lemma encrypt_post_step_idempotent_witness :
  crypt_search (char_is_signed (example_kernel true (fun _ => finger_ff)))
    (cryptArray
       (encrypt_post_step (example_kernel true (fun _ => finger_ff)) inode_7 1
          (fresh_state {[ 1 := finger_one ]})))
    (hash_page_data (example_kernel true (fun _ => finger_ff))
       (page_data (fresh_state {[ 1 := finger_one ]}) 1))
  = Some (mkCryptitem
            (strncpy (hash_page_data (example_kernel true (fun _ => finger_ff))
                        (page_data (fresh_state {[ 1 := finger_one ]}) 1)) 16)
            (i_ino inode_7)).
Proof.
  assert (Hj : forall i : Z, strncmp ((fun _ : Z => finger_ff) i) finger_one 16 <> 0)
    by (intros i; vm_compute; discriminate).
  refine (proj1 (proj2 (proj2 (proj2 (proj2
           (encrypt_post_step_idempotent (example_kernel true (fun _ => finger_ff))
              inode_7 1 (fresh_state {[ 1 := finger_one ]})))))
           _ _)).
  - exact (fresh_search_none true (fun _ => finger_ff) {[ 1 := finger_one ]}
             finger_one Hj).
  - exact (crypttable_insert_first_writable true _ finger_one 7
             (fresh_writable true (fun _ => finger_ff) {[ 1 := finger_one ]}
                (hashCrypt true finger_one) (hashCrypt_range true finger_one))).
Defined.

(** ** One block, decrypt direction (C5) *)

Arguments fscrypt_crypt_block : simpl never.
Arguments decrypt_owned_blocks : simpl never.
Arguments fscrypt_decrypt_pagecache_blocks : simpl never.

(** The block number the decrypt branch hands to the IV derivation: the
    one the recovery index holds for the fingerprint of the source page,
    or else the caller's. *)
Definition recovered_lblk (K : kernel) (st : state) (src_page lblk_num : Z) : Z :=
  match finger_crypt_search K (hash_page_data K (page_data st src_page)) with
  | Some finger_crypt_item => lblk_num_of finger_crypt_item
  | None => lblk_num
  end.

(** The calls of the decrypt branch at the head of [fscrypt_crypt_block]. *)
Definition decrypt_pre_events (K : kernel) (st : state) (src_page : Z) : list event :=
  [EvReadFingerBlkTable;
   EvHashPage src_page (hash_page_data K (page_data st src_page));
   EvFingerCryptSearch (hash_page_data K (page_data st src_page))].

(** The calls that follow them, with the value returned: none when the
    length is refused; otherwise the IV derivation from [lblk], then, if
    the request is allocated, the cipher with that IV, then the message
    if the cipher failed.  [uninit] is what the local [iv] held. *)
Definition decrypt_tail (K : kernel) (inode : inode) (uninit : fscrypt_iv)
    (lblk len offs : Z) (rest : list event) (ret : Z) : Prop :=
  let ci := i_crypt_info inode in
  let iv := fscrypt_generate_iv K uninit lblk ci in
  (rest = [] /\ ret = - EINVAL /\
   (len <= 0 \/ len mod FSCRYPT_CONTENTS_ALIGNMENT K <> 0))
  \/ (0 < len /\ len mod FSCRYPT_CONTENTS_ALIGNMENT K = 0 /\
      ((rest = [EvGenerateIv lblk (ci_inode_ino ci)] /\ ret = - ENOMEM)
       \/ (rest = [EvGenerateIv lblk (ci_inode_ino ci);
                   EvCipher FS_DECRYPT (ci_tfm ci) iv len offs] /\ ret = 0)
       \/ (rest = [EvGenerateIv lblk (ci_inode_ino ci);
                   EvCipher FS_DECRYPT (ci_tfm ci) iv len offs;
                   EvFscryptErr FS_DECRYPT lblk ret] /\ ret <> 0))).

Lemma decrypt_pre_step_eq K lblk_num src_page st :
  decrypt_pre_step K lblk_num src_page st
  = (recovered_lblk K st src_page lblk_num,
     log (EvFingerCryptSearch (hash_page_data K (page_data st src_page)))
       (log (EvHashPage src_page (hash_page_data K (page_data st src_page)))
          (log EvReadFingerBlkTable st))).
Proof.
  unfold decrypt_pre_step, recovered_lblk. cbv zeta. rewrite page_data_log.
  destruct (finger_crypt_search K _); reflexivity.
Qed.

(** One block in the decrypt direction: the table, the file and the
    calls. *)
Lemma fscrypt_crypt_block_decrypt K inode lblk_num src_page dest_page len offs gfp st :
  cryptArray (snd (fscrypt_crypt_block K inode FS_DECRYPT lblk_num src_page dest_page
                     len offs gfp st)) = cryptArray st /\
  citable (snd (fscrypt_crypt_block K inode FS_DECRYPT lblk_num src_page dest_page
                  len offs gfp st)) = citable st /\
  exists rest,
    trace (snd (fscrypt_crypt_block K inode FS_DECRYPT lblk_num src_page dest_page
                  len offs gfp st))
    = trace st ++ decrypt_pre_events K st src_page ++ rest /\
    decrypt_tail K inode
      (uninitialized_iv K (trace st ++ decrypt_pre_events K st src_page))
      (recovered_lblk K st src_page lblk_num) len offs rest
      (fst (fscrypt_crypt_block K inode FS_DECRYPT lblk_num src_page dest_page
              len offs gfp st)).
Proof.
  unfold fscrypt_crypt_block. rewrite decrypt_pre_step_eq. cbv zeta.
  set (l := recovered_lblk K st src_page lblk_num).
  unfold decrypt_tail, decrypt_pre_events. cbv zeta.
  destruct (len <=? 0) eqn:Hlen.
  { cbn. repeat split. exists []. rewrite <- !app_assoc. cbn. split; [reflexivity|].
    left. repeat split. left. lia. }
  destruct (len mod FSCRYPT_CONTENTS_ALIGNMENT K =? 0) eqn:Hal; cbn [negb].
  2:{ cbn. repeat split. exists []. rewrite <- !app_assoc. cbn. split; [reflexivity|].
      left. repeat split. right. lia. }
  destruct (skcipher_request_alloc K (ci_tfm (i_crypt_info inode)) gfp); cbn [negb].
  2:{ cbn. repeat split. eexists. rewrite <- !app_assoc. cbn. split; [reflexivity|].
      right. repeat split; [lia | lia |]. left. split; reflexivity. }
  destruct (crypto_skcipher K FS_DECRYPT _ _ _ _ _ _) as [res dest] eqn:Hc.
  destruct (res =? 0) eqn:Hres; cbn [negb].
  - cbn. repeat split. eexists. rewrite <- !app_assoc. cbn. split; [reflexivity|].
    right. repeat split; [lia | lia |]. right. left. split; [reflexivity | lia].
  - cbn. repeat split. eexists. rewrite <- !app_assoc. cbn. split; [reflexivity|].
    right. repeat split; [lia | lia |]. right. right. split; [reflexivity | lia].
Qed.

(** C5.  Every decrypt of a single block starts with the digest of the
    source page and the query of the recovery index with that digest
    (after the reload of that index); the calls that follow are the ones
    of [decrypt_tail] for the block number [recovered_lblk]: the IV is
    derived from it, and the cipher gets that IV.  [recovered_lblk] is
    the block number of the entry when the query finds one, and the
    caller's block number when it finds none. *)
Theorem fscrypt_crypt_block_decrypt_lblk (K : kernel) (inode : inode)
    (lblk_num src_page dest_page len offs gfp : Z) (st : state) :
  (exists rest,
     trace (snd (fscrypt_crypt_block K inode FS_DECRYPT lblk_num src_page dest_page
                   len offs gfp st))
     = trace st
       ++ [EvReadFingerBlkTable;
           EvHashPage src_page (hash_page_data K (page_data st src_page));
           EvFingerCryptSearch (hash_page_data K (page_data st src_page))]
       ++ rest /\
     decrypt_tail K inode
       (uninitialized_iv K
          (trace st
           ++ [EvReadFingerBlkTable;
               EvHashPage src_page (hash_page_data K (page_data st src_page));
               EvFingerCryptSearch (hash_page_data K (page_data st src_page))]))
       (recovered_lblk K st src_page lblk_num) len offs rest
       (fst (fscrypt_crypt_block K inode FS_DECRYPT lblk_num src_page dest_page
               len offs gfp st))) /\
  (forall finger_crypt_item,
     finger_crypt_search K (hash_page_data K (page_data st src_page))
     = Some finger_crypt_item ->
     recovered_lblk K st src_page lblk_num = lblk_num_of finger_crypt_item) /\
  (finger_crypt_search K (hash_page_data K (page_data st src_page)) = None ->
   recovered_lblk K st src_page lblk_num = lblk_num).
Proof.
  split; [|split].
  - destruct (fscrypt_crypt_block_decrypt K inode lblk_num src_page dest_page len offs
                gfp st) as (_ & _ & rest & Ht & Htail).
    exists rest. split; assumption.
  - intros item H. unfold recovered_lblk. now rewrite H.
  - intros H. unfold recovered_lblk. now rewrite H.
Qed.

(** C5 on a page whose fingerprint the recovery index maps to block 5:
    the caller says block 9, the length is valid and the cipher
    succeeds; the IV is derived from block 5 and given to the cipher. *)
Definition recovery_kernel : kernel :=
  {| char_is_signed := true;
     FSCRYPT_CONTENTS_ALIGNMENT := 16;
     FSCRYPT_POLICY_FLAG_DIRECT_KEY := 4;
     FSCRYPT_POLICY_FLAG_IV_INO_LBLK_64 := 8;
     FSCRYPT_POLICY_FLAG_IV_INO_LBLK_32 := 16;
     FSCRYPT_FILE_NONCE_SIZE := 16;
     FSCRYPT_MAX_IV_SIZE := 32;
     PAGE_SHIFT := 12;
     GFP_NOFS := 0;
     hash_page_data := firstn 16;
     finger_crypt_search := fun digest => Some (mkFingercryptitem digest 5);
     skcipher_request_alloc := fun _ _ => true;
     crypto_skcipher := fun _ _ _ src _ _ _ => (0, src);
     f2fs_iget := fun sb ino => mkInode ino sb 12 (mkInfo 0 ino 0 [] ino 16);
     PageLocked := fun _ => true;
     page_host := fun _ => mkInode 2 0 12 (mkInfo 0 2 0 [] 2 16);
     page_index := fun _ => 0;
     kmalloc_junk := fun _ => finger_ff;
     uninitialized_iv := fun _ => mkIv 0 (repeat xff 16) (repeat xff 8) |}.

Example fscrypt_crypt_block_decrypt_override :
  trace (snd (fscrypt_crypt_block recovery_kernel inode_7 FS_DECRYPT 9 1 1 4096 0 0
                (fresh_state {[ 1 := finger_one ]})))
  = [EvReadFingerBlkTable; EvHashPage 1 finger_one; EvFingerCryptSearch finger_one;
     EvGenerateIv 5 7;
     EvCipher FS_DECRYPT 7 (mkIv 5 (repeat NUL 8 ++ repeat xff 8) (repeat xff 8)) 4096 0].
Proof. vm_compute. reflexivity. Qed.

Lemma fscrypt_crypt_block_decrypt_lblk_witness :
  recovered_lblk recovery_kernel (fresh_state {[ 1 := finger_one ]}) 1 9 = 5.
Proof.
  apply (proj1 (proj2 (fscrypt_crypt_block_decrypt_lblk recovery_kernel inode_7 9 1 1
                         4096 0 0 (fresh_state {[ 1 := finger_one ]})))
           (mkFingercryptitem finger_one 5)).
  reflexivity.
Defined.

(** ** The page-level decrypt (C6, C7) *)

(** A call of a per-block decrypt made with the key context [ci]: the
    calls of the decrypt branch, an IV derivation for [ci], the decrypt
    transform under [ci]'s key, the error message; and nothing else, so
    neither an access to "/citable" nor a change of the table. *)
Definition decrypts_with (ci : fscrypt_info) (e : event) : Prop :=
  match e with
  | EvReadFingerBlkTable | EvHashPage _ _ | EvFingerCryptSearch _ => True
  | EvGenerateIv _ owner => owner = ci_inode_ino ci
  | EvCipher rw tfm _ _ _ => rw = FS_DECRYPT /\ tfm = ci_tfm ci
  | EvFscryptErr _ _ _ => True
  | _ => False
  end.

(** A call that does not write "/citable". *)
Definition not_a_write (e : event) : Prop :=
  match e with
  | EvKernelWrite _ => False
  | _ => True
  end.

Lemma decrypts_with_not_a_write ci e : decrypts_with ci e -> not_a_write e.
Proof. destruct e; cbn; tauto. Qed.

Lemma decrypt_tail_decrypts_with K inode uninit lblk len offs rest ret st src_page :
  decrypt_tail K inode uninit lblk len offs rest ret ->
  Forall (decrypts_with (i_crypt_info inode)) (decrypt_pre_events K st src_page ++ rest).
Proof.
  unfold decrypt_tail, decrypt_pre_events. cbv zeta.
  intros [(-> & _)|(_ & _ & [(-> & _)|[(-> & _)|(-> & _)]])];
    repeat constructor.
Qed.

(** The loop over the blocks of a page: every call is a per-block decrypt
    with the key context of [owner]; the table and the file are
    untouched. *)
Lemma decrypt_blocks_calls K owner page blocksize (fuel : nat) :
  forall bound i lblk_num st r st',
  decrypt_blocks
    (fun lblk_num i =>
       fscrypt_crypt_block K owner FS_DECRYPT lblk_num page page blocksize i (GFP_NOFS K))
    fuel blocksize bound i lblk_num st = Some (r, st') ->
  cryptArray st' = cryptArray st /\ citable st' = citable st /\
  exists calls, trace st' = trace st ++ calls /\
                Forall (decrypts_with (i_crypt_info owner)) calls.
Proof.
  induction fuel as [|fuel IH]; intros bound i lblk_num st r st' H;
    cbn [decrypt_blocks] in H; [discriminate|].
  destruct (i <? bound).
  - pose proof (fscrypt_crypt_block_decrypt K owner lblk_num page page blocksize i
                  (GFP_NOFS K) st) as (Ha & Hc & rest & Ht & Htail).
    apply (decrypt_tail_decrypts_with _ _ _ _ _ _ _ _ st page) in Htail.
    destruct (fscrypt_crypt_block K owner FS_DECRYPT lblk_num page page blocksize i
                (GFP_NOFS K) st) as [err st1].
    cbn [fst snd] in *.
    destruct (negb (err =? 0)).
    + injection H as <- <-. split; [assumption|]. split; [assumption|]. eauto.
    + apply IH in H as (Ha' & Hc' & calls & Ht' & Hcalls).
      split; [congruence|]. split; [congruence|].
      exists ((decrypt_pre_events K st page ++ rest) ++ calls). split.
      * rewrite Ht', Ht. now rewrite <- !app_assoc.
      * apply Forall_app. now split.
  - injection H as <- <-. split; [reflexivity|]. split; [reflexivity|].
    exists []. split; [now rewrite app_nil_r | constructor].
Qed.

(** Enough fuel for a page of one block. *)
Lemma decrypt_blocks_one_block crypt_block (fuel : nat) blocksize bound i lblk_num st :
  (i <? bound) = true -> (to_uint (i + blocksize) <? bound) = false ->
  exists res, decrypt_blocks crypt_block (S (S fuel)) blocksize bound i lblk_num st
              = Some res.
Proof.
  intros Hi Hn. cbn [decrypt_blocks]. rewrite Hi.
  destruct (crypt_block lblk_num i st) as [err st1].
  destruct (negb (err =? 0)); [eauto|]. rewrite Hn. eauto.
Qed.

(** The inode whose key context the blocks are decrypted with: the one
    [f2fs_iget] resolves from the owner of the item found, or the
    page's own inode [host] when the search finds nothing. *)
Definition key_owner (K : kernel) (host : inode) (found : option Cryptitem) : inode :=
  match found with
  | Some crypt_item => f2fs_iget K (i_sb host) (ino crypt_item)
  | None => host
  end.

(** The calls of the switch: none when the search finds nothing. *)
Definition switch_events (K : kernel) (inode : inode) (found : option Cryptitem)
    : list event :=
  match found with
  | Some crypt_item =>
      [EvIget (i_sb inode) (ino crypt_item);
       EvRequireKey (i_ino (f2fs_iget K (i_sb inode) (ino crypt_item)))]
  | None => []
  end.

(** The ownership step and the loop, on any table. *)
Lemma decrypt_owned_blocks_calls K fuel inode blocksize lblk_num page len offs st r st' :
  decrypt_owned_blocks K fuel inode blocksize lblk_num page len offs st = Some (r, st') ->
  cryptArray st' = cryptArray st /\ citable st' = citable st /\
  exists calls,
    trace st'
    = trace st
      ++ [EvHashPage page (hash_page_data K (page_data st page));
          EvCryptSearch (hash_page_data K (page_data st page))]
      ++ switch_events K inode
           (crypt_search (char_is_signed K) (cryptArray st)
              (hash_page_data K (page_data st page)))
      ++ calls /\
    Forall (decrypts_with
              (i_crypt_info
                 (key_owner K inode
                    (crypt_search (char_is_signed K) (cryptArray st)
                       (hash_page_data K (page_data st page))))))
      calls.
Proof.
  unfold decrypt_owned_blocks. cbv zeta. rewrite !cryptArray_log.
  generalize (crypt_search (char_is_signed K) (cryptArray st)
                (hash_page_data K (page_data st page))).
  intros found H. apply decrypt_blocks_calls in H as (Ha & Hc & calls & Ht & Hcalls).
  destruct found as [crypt_item|]; unfold key_owner, switch_events.
  - rewrite !cryptArray_log in Ha. rewrite !citable_log in Hc.
    rewrite !trace_log in Ht.
    split; [assumption|]. split; [assumption|]. exists calls. split; [|assumption].
    rewrite Ht. rewrite <- !app_assoc. reflexivity.
  - rewrite !cryptArray_log in Ha. rewrite !citable_log in Hc.
    rewrite !trace_log in Ht.
    split; [assumption|]. split; [assumption|]. exists calls. split; [|assumption].
    rewrite Ht. rewrite <- !app_assoc. reflexivity.
Qed.

(** The locals at the head of [fscrypt_decrypt_pagecache_blocks]. *)
Definition page_blocksize (K : kernel) (page : Z) : Z :=
  to_uint (Z.shiftl 1 (i_blkbits (page_host K page))).

Definition page_lblk_num (K : kernel) (page offs : Z) : Z :=
  to_u64 (to_u64 (Z.shiftl (page_index K page)
                    (PAGE_SHIFT K - i_blkbits (page_host K page)))
          + Z.shiftr offs (i_blkbits (page_host K page))).

(** Its two checks both pass. *)
Definition page_checks (K : kernel) (page len offs : Z) : bool :=
  PageLocked K page
  && negb ((len <=? 0) || negb (IS_ALIGNED (Z.lor len offs) (page_blocksize K page))).

Lemma pagecache_refused K fuel page len offs st :
  page_checks K page len offs = false ->
  fscrypt_decrypt_pagecache_blocks K fuel page len offs st
  = Some (- EINVAL, log EvFilpOpen st).
Proof.
  unfold page_checks, fscrypt_decrypt_pagecache_blocks, page_blocksize. cbv zeta.
  destruct (PageLocked K page); cbn [negb andb]; [|reflexivity].
  destruct (_ || _); cbn [negb]; [reflexivity | discriminate].
Qed.

Lemma pagecache_accepted K fuel page len offs st :
  page_checks K page len offs = true ->
  fscrypt_decrypt_pagecache_blocks K fuel page len offs st
  = decrypt_owned_blocks K fuel (page_host K page) (page_blocksize K page)
      (page_lblk_num K page offs) page len offs (reload K (log EvFilpOpen st)).
Proof.
  unfold page_checks, fscrypt_decrypt_pagecache_blocks, page_blocksize, page_lblk_num.
  cbv zeta.
  destruct (PageLocked K page); cbn [negb andb]; [|discriminate].
  destruct (_ || _); cbn [negb]; [discriminate | reflexivity].
Qed.

Lemma reads_not_a_write (l : list Z) : Forall not_a_write (map EvKernelRead l).
Proof. induction l; constructor; [exact I | assumption]. Qed.

Lemma switch_not_a_write K host found : Forall not_a_write (switch_events K host found).
Proof. destruct found; repeat constructor. Qed.

Lemma decrypts_not_a_write ci calls :
  Forall (decrypts_with ci) calls -> Forall not_a_write calls.
Proof.
  intros H. induction H; constructor; [|assumption].
  eapply decrypts_with_not_a_write; eassumption.
Qed.

(** The page-level decrypt when its checks pass: the calls, in order, and
    the file. *)
Lemma pagecache_calls K fuel page len offs st r st' :
  page_checks K page len offs = true ->
  fscrypt_decrypt_pagecache_blocks K fuel page len offs st = Some (r, st') ->
  citable st' = citable st /\
  exists calls,
    trace st'
    = trace st
      ++ EvFilpOpen :: map EvKernelRead (seqZ 0 DEDUP_TABLE_SIZE)
      ++ [EvHashPage page (hash_page_data K (page_data st page));
          EvCryptSearch (hash_page_data K (page_data st page))]
      ++ switch_events K (page_host K page)
           (crypt_search (char_is_signed K) (cryptArray (reload K (log EvFilpOpen st)))
              (hash_page_data K (page_data st page)))
      ++ calls /\
    Forall (decrypts_with
              (i_crypt_info
                 (key_owner K (page_host K page)
                    (crypt_search (char_is_signed K)
                       (cryptArray (reload K (log EvFilpOpen st)))
                       (hash_page_data K (page_data st page))))))
      calls.
Proof.
  intros Hchk H. rewrite (pagecache_accepted K fuel page len offs st Hchk) in H.
  pose proof (decrypt_owned_blocks_calls K fuel _ _ _ page len offs _ r st' H)
    as (_ & Hc & calls & Ht & Hcalls).
  rewrite page_data_reload_open in Ht, Hcalls.
  destruct (reload_open_frame K st) as (Hc0 & _ & Ht0).
  split; [rewrite Hc; exact Hc0|].
  exists calls. split; [|exact Hcalls].
  rewrite Ht, Ht0. rewrite <- !app_assoc, <- !app_comm_cons. reflexivity.
Qed.

(** A page of one block: two units of fuel are enough. *)
Lemma pagecache_one_block_runs K (fuel : nat) page len offs st :
  page_checks K page len offs = true ->
  (offs <? to_uint (offs + len)) = true ->
  (to_uint (offs + page_blocksize K page) <? to_uint (offs + len)) = false ->
  exists res, fscrypt_decrypt_pagecache_blocks K (S (S fuel)) page len offs st = Some res.
Proof.
  intros Hchk Hi Hn. rewrite (pagecache_accepted K _ page len offs st Hchk).
  unfold decrypt_owned_blocks. cbv zeta.
  apply decrypt_blocks_one_block; assumption.
Qed.

(** The loop of the page-level decrypt terminates: when the start and
    the bound are multiples of the block size, every iteration moves [i]
    one block closer to the bound without wrapping, so [bound - i]
    units of fuel, and one more, are enough. *)
Lemma decrypt_blocks_total crypt_block blocksize bound :
  0 < blocksize -> bound mod blocksize = 0 -> 0 <= bound < 2 ^ 32 ->
  forall (fuel : nat) i lblk_num st,
    0 <= i -> i mod blocksize = 0 -> (Z.to_nat (bound - i) < fuel)%nat ->
    exists res, decrypt_blocks crypt_block fuel blocksize bound i lblk_num st = Some res.
Proof.
  intros Hbs Hbound Hrange fuel.
  induction fuel as [|fuel IH]; intros i lblk_num st Hi Hmod Hfuel; [lia|].
  cbn [decrypt_blocks]. destruct (i <? bound) eqn:Hlt; [|eauto].
  destruct (crypt_block lblk_num i st) as [err st1].
  destruct (negb (err =? 0)); [eauto|].
  apply Z.ltb_lt in Hlt.
  apply Z.mod_divide in Hbound; [|lia]. destruct Hbound as [q2 ->].
  apply Z.mod_divide in Hmod; [|lia]. destruct Hmod as [q1 ->].
  assert (q1 + 1 <= q2) by nia.
  assert (Hnext : to_uint (q1 * blocksize + blocksize) = (q1 + 1) * blocksize).
  { unfold to_uint. rewrite Z.mod_small; nia. }
  rewrite Hnext. apply IH; [nia | apply Z.mod_mul; lia | nia].
Qed.

(** [IS_ALIGNED(len | offs, 1 << blockbits)] says that [len] and [offs]
    are multiples of the block size. *)
Lemma IS_ALIGNED_lor len offs blockbits :
  0 <= blockbits < 32 ->
  IS_ALIGNED (Z.lor len offs) (to_uint (Z.shiftl 1 blockbits)) = true ->
  to_uint (Z.shiftl 1 blockbits) = 2 ^ blockbits /\
  len mod 2 ^ blockbits = 0 /\ offs mod 2 ^ blockbits = 0.
Proof.
  intros Hbits. unfold IS_ALIGNED.
  assert (Hpow : 0 < 2 ^ blockbits < 2 ^ 32).
  { split; [apply Z.pow_pos_nonneg; lia | apply Z.pow_lt_mono_r; lia]. }
  assert (Hbs : to_uint (Z.shiftl 1 blockbits) = 2 ^ blockbits).
  { unfold to_uint. rewrite Z.shiftl_1_l. apply Z.mod_small. lia. }
  rewrite Hbs. intros H. apply Z.eqb_eq in H.
  replace (to_uint (2 ^ blockbits - 1)) with (Z.ones blockbits) in H.
  2:{ unfold to_uint. rewrite Z.mod_small by lia. rewrite Z.ones_equiv. lia. }
  rewrite Z.land_lor_distr_l in H. apply Z.lor_eq_0_iff in H.
  rewrite !Z.land_ones in H by lia. split; [reflexivity | exact H].
Qed.

(** The page-level decrypt returns: on lengths and offsets of the type
    [unsigned int] and a block size that the type holds, [len] units of
    fuel, and one more, are enough. *)
Lemma fscrypt_decrypt_pagecache_blocks_total K page len offs st :
  0 <= len < 2 ^ 32 -> 0 <= offs < 2 ^ 32 ->
  0 <= i_blkbits (page_host K page) < 32 ->
  exists res,
    fscrypt_decrypt_pagecache_blocks K (S (Z.to_nat len)) page len offs st = Some res.
Proof.
  intros Hlen Hoffs Hbits.
  destruct (page_checks K page len offs) eqn:Hchk.
  2:{ rewrite (pagecache_refused K _ page len offs st Hchk). eauto. }
  rewrite (pagecache_accepted K _ page len offs st Hchk).
  unfold page_checks, page_blocksize in Hchk.
  apply andb_true_iff in Hchk. destruct Hchk as [_ Hchk].
  apply negb_true_iff, orb_false_iff in Hchk. destruct Hchk as [Hpos Hal].
  apply negb_false_iff in Hal. apply Z.leb_gt in Hpos.
  destruct (IS_ALIGNED_lor len offs _ Hbits Hal) as (Hbs & Hl & Ho).
  assert (Hpow : 0 < 2 ^ i_blkbits (page_host K page))
    by (apply Z.pow_pos_nonneg; lia).
  unfold decrypt_owned_blocks, page_blocksize. cbv zeta. rewrite Hbs.
  destruct (Z.lt_ge_cases (offs + len) (2 ^ 32)) as [Hfit|Hwrap].
  - apply decrypt_blocks_total.
    + exact Hpow.
    + unfold to_uint. rewrite (Z.mod_small (offs + len) (2 ^ 32)) by lia.
      rewrite Z.add_mod, Hl, Ho by lia. reflexivity.
    + unfold to_uint. apply Z.mod_pos_bound. lia.
    + lia.
    + exact Ho.
    + unfold to_uint. rewrite (Z.mod_small (offs + len) (2 ^ 32)) by lia. lia.
  - cbn [decrypt_blocks].
    replace (offs <? to_uint (offs + len)) with false; [eauto|].
    symmetry. apply Z.ltb_ge. unfold to_uint.
    replace (offs + len) with (offs + len - 2 ^ 32 + 1 * 2 ^ 32) by lia.
    rewrite Z.mod_add by lia. rewrite Z.mod_small; lia.
Qed.

(** What "the per-block decrypt is invoked" for the blocks of a request
    denotes: [n] blocks in order, from the byte offset [i] and the block
    number [lblk_num] on, each handed to [crypt_block] with its block
    number and offset, the next one [blocksize] bytes further and with
    the next block number; a block that does not return 0 ends the
    request with what it returned. *)
Fixpoint each_block (crypt_block : Z -> Z -> state -> Z * state) (n : nat)
    (blocksize i lblk_num : Z) (st : state) : Z * state :=
  match n with
  | O => (0, st)
  | S n' =>
      let '(err, st1) := crypt_block lblk_num i st in
      if err =? 0 then
        each_block crypt_block n' blocksize (i + blocksize) (to_u64 (lblk_num + 1)) st1
      else (err, st1)
  end.

(** The state in which the loop over the blocks starts: on the reloaded
    table [st], the digest of the page, the search, and the calls of the
    switch have been made. *)
Definition switched (K : kernel) (inode : inode) (page : Z) (st : state) : state :=
  fold_left (fun st e => log e st)
    ([EvHashPage page (hash_page_data K (page_data st page));
      EvCryptSearch (hash_page_data K (page_data st page))]
     ++ switch_events K inode
          (crypt_search (char_is_signed K) (cryptArray st)
             (hash_page_data K (page_data st page))))
    st.

(** The loop of the page-level decrypt, when it returns on a start and a
    bound that are multiples of the block size: it has handed every
    block between them to [crypt_block], in order, up to the first that
    did not return 0. *)
Lemma decrypt_blocks_each_block crypt_block blocksize bound :
  0 < blocksize -> bound mod blocksize = 0 -> 0 <= bound < 2 ^ 32 ->
  forall (fuel : nat) i lblk_num st res,
    0 <= i <= bound -> i mod blocksize = 0 ->
    decrypt_blocks crypt_block fuel blocksize bound i lblk_num st = Some res ->
    res = each_block crypt_block (Z.to_nat ((bound - i) / blocksize)) blocksize
            i lblk_num st.
Proof.
  intros Hbs Hbound Hrange fuel.
  induction fuel as [|fuel IH]; intros i lblk_num st res Hi Hmod H;
    cbn [decrypt_blocks] in H; [discriminate|].
  apply Z.mod_divide in Hbound; [|lia]. destruct Hbound as [q2 ->].
  apply Z.mod_divide in Hmod; [|lia]. destruct Hmod as [q1 ->].
  replace (q2 * blocksize - q1 * blocksize) with ((q2 - q1) * blocksize) by lia.
  rewrite Z.div_mul by lia.
  destruct (q1 * blocksize <? q2 * blocksize) eqn:Hlt.
  - apply Z.ltb_lt in Hlt. assert (Hq : q1 + 1 <= q2) by nia.
    replace (Z.to_nat (q2 - q1)) with (S (Z.to_nat (q2 - (q1 + 1)))) by lia.
    cbn [each_block].
    destruct (crypt_block lblk_num (q1 * blocksize) st) as [err st1].
    destruct (err =? 0); cbn [negb] in H.
    + assert (Hnext : to_uint (q1 * blocksize + blocksize) = (q1 + 1) * blocksize).
      { unfold to_uint. rewrite Z.mod_small; nia. }
      rewrite Hnext in H.
      apply IH in H; [|nia | apply Z.mod_mul; lia].
      replace (q2 * blocksize - (q1 + 1) * blocksize)
        with ((q2 - (q1 + 1)) * blocksize) in H by lia.
      rewrite Z.div_mul in H by lia.
      replace (q1 * blocksize + blocksize) with ((q1 + 1) * blocksize) by lia.
      exact H.
    + injection H as <-. reflexivity.
  - apply Z.ltb_ge in Hlt. assert (Hq : q1 = q2) by nia.
    replace (Z.to_nat (q2 - q1)) with O by lia.
    injection H as <-. reflexivity.
Qed.

(** The ownership step and the loop: every block of the request goes to
    [fscrypt_crypt_block] in the decrypt direction with the inode
    [key_owner]. *)
Lemma decrypt_owned_blocks_each_block K fuel inode blocksize lblk_num page len offs st
    res :
  0 < blocksize -> offs mod blocksize = 0 -> len mod blocksize = 0 ->
  0 <= offs -> 0 <= len -> offs + len < 2 ^ 32 ->
  decrypt_owned_blocks K fuel inode blocksize lblk_num page len offs st = Some res ->
  res = each_block
          (fun lblk_num i =>
             fscrypt_crypt_block K
               (key_owner K inode
                  (crypt_search (char_is_signed K) (cryptArray st)
                     (hash_page_data K (page_data st page))))
               FS_DECRYPT lblk_num page page blocksize i (GFP_NOFS K))
          (Z.to_nat (len / blocksize)) blocksize offs lblk_num
          (switched K inode page st).
Proof.
  intros Hbs Ho Hl Hoffs Hlen Hfit.
  unfold decrypt_owned_blocks, switched. cbv zeta. rewrite !cryptArray_log.
  generalize (crypt_search (char_is_signed K) (cryptArray st)
                (hash_page_data K (page_data st page))).
  intros found H.
  assert (Hbound : to_uint (offs + len) = offs + len).
  { unfold to_uint. apply Z.mod_small. lia. }
  rewrite Hbound in H.
  apply decrypt_blocks_each_block in H.
  - replace (offs + len - offs) with len in H by lia.
    destruct found as [crypt_item|]; exact H.
  - exact Hbs.
  - rewrite Z.add_mod, Hl, Ho by lia. reflexivity.
  - lia.
  - lia.
  - exact Ho.
Qed.

(** The page-level decrypt when its checks pass, on an offset and a
    length whose sum the type [unsigned int] holds: the request has at
    least one block, and every block goes to the per-block decrypt with
    the inode [key_owner]. *)
Lemma pagecache_each_block K fuel page len offs st res :
  page_checks K page len offs = true ->
  0 <= offs -> offs + len < 2 ^ 32 -> 0 <= i_blkbits (page_host K page) < 32 ->
  fscrypt_decrypt_pagecache_blocks K fuel page len offs st = Some res ->
  (0 < Z.to_nat (len / page_blocksize K page))%nat /\
  res = each_block
          (fun lblk_num i =>
             fscrypt_crypt_block K
               (key_owner K (page_host K page)
                  (crypt_search (char_is_signed K)
                     (cryptArray (reload K (log EvFilpOpen st)))
                     (hash_page_data K (page_data st page))))
               FS_DECRYPT lblk_num page page (page_blocksize K page) i (GFP_NOFS K))
          (Z.to_nat (len / page_blocksize K page)) (page_blocksize K page) offs
          (page_lblk_num K page offs)
          (switched K (page_host K page) page (reload K (log EvFilpOpen st))).
Proof.
  intros Hchk Hoffs Hfit Hbits H.
  rewrite (pagecache_accepted K fuel page len offs st Hchk) in H.
  unfold page_checks in Hchk.
  apply andb_true_iff in Hchk. destruct Hchk as [_ Hchk].
  apply negb_true_iff, orb_false_iff in Hchk. destruct Hchk as [Hpos Hal].
  apply negb_false_iff in Hal. apply Z.leb_gt in Hpos.
  assert (Hbs : page_blocksize K page = 2 ^ i_blkbits (page_host K page)
                /\ len mod page_blocksize K page = 0
                /\ offs mod page_blocksize K page = 0).
  { unfold page_blocksize in Hal |- *.
    destruct (IS_ALIGNED_lor len offs _ Hbits Hal) as (-> & Hl & Ho). auto. }
  destruct Hbs as (Hbs & Hl & Ho).
  assert (Hpow : 0 < page_blocksize K page)
    by (rewrite Hbs; apply Z.pow_pos_nonneg; lia).
  split.
  - apply Z.mod_divide in Hl; [|lia]. destruct Hl as [q Hq].
    rewrite Hq, Z.div_mul by lia. nia.
  - pose proof (decrypt_owned_blocks_each_block K fuel _ _ _ page len offs _ res
                  Hpow Ho Hl Hoffs (Z.lt_le_incl _ _ Hpos) Hfit H) as Hblocks.
    rewrite page_data_reload_open in Hblocks. exact Hblocks.
Qed.

(** C6.  When the page-level decrypt returns, either its checks refused
    the request before the table was touched, or the table was reloaded
    and searched with the fingerprint of the page, and then: the calls
    are the open, the reads, the digest, the search, the switch to the
    owner when the search found an item ([f2fs_iget] with the owner of
    that item, then [fscrypt_require_key]), and after those the per-block
    decrypts, every one of them with the key context of [key_owner]: the
    inode resolved from the item's owner when an item was found, the
    page's own inode when none was.  And the blocks are decrypted: where
    the type [unsigned int] holds the sum of the offset and the length,
    the request has at least one block, and what the operation returns
    and leaves is what [fscrypt_crypt_block] in the decrypt direction,
    for the inode [key_owner], gives on every block of the request in
    order, from the state in which the switch was made, up to the first
    block that does not return 0. *)
Theorem fscrypt_decrypt_pagecache_blocks_owner (K : kernel) (fuel : nat)
    (page len offs : Z) (st : state) (r : Z) (st' : state) :
  fscrypt_decrypt_pagecache_blocks K fuel page len offs st = Some (r, st') ->
  (page_checks K page len offs = false /\ r = - EINVAL /\ st' = log EvFilpOpen st)
  \/ (page_checks K page len offs = true /\
      (exists calls,
         trace st'
         = trace st
           ++ EvFilpOpen :: map EvKernelRead (seqZ 0 DEDUP_TABLE_SIZE)
           ++ [EvHashPage page (hash_page_data K (page_data st page));
               EvCryptSearch (hash_page_data K (page_data st page))]
           ++ switch_events K (page_host K page)
                (crypt_search (char_is_signed K)
                   (cryptArray (reload K (log EvFilpOpen st)))
                   (hash_page_data K (page_data st page)))
           ++ calls /\
         Forall (decrypts_with
                   (i_crypt_info
                      (key_owner K (page_host K page)
                         (crypt_search (char_is_signed K)
                            (cryptArray (reload K (log EvFilpOpen st)))
                            (hash_page_data K (page_data st page))))))
           calls) /\
      (forall crypt_item,
         crypt_search (char_is_signed K) (cryptArray (reload K (log EvFilpOpen st)))
           (hash_page_data K (page_data st page)) = Some crypt_item ->
         key_owner K (page_host K page)
           (crypt_search (char_is_signed K) (cryptArray (reload K (log EvFilpOpen st)))
              (hash_page_data K (page_data st page)))
         = f2fs_iget K (i_sb (page_host K page)) (ino crypt_item)) /\
      (crypt_search (char_is_signed K) (cryptArray (reload K (log EvFilpOpen st)))
         (hash_page_data K (page_data st page)) = None ->
       key_owner K (page_host K page)
         (crypt_search (char_is_signed K) (cryptArray (reload K (log EvFilpOpen st)))
            (hash_page_data K (page_data st page)))
       = page_host K page) /\
      (0 <= offs -> offs + len < 2 ^ 32 -> 0 <= i_blkbits (page_host K page) < 32 ->
       (0 < Z.to_nat (len / page_blocksize K page))%nat /\
       (r, st')
       = each_block
           (fun lblk_num i =>
              fscrypt_crypt_block K
                (key_owner K (page_host K page)
                   (crypt_search (char_is_signed K)
                      (cryptArray (reload K (log EvFilpOpen st)))
                      (hash_page_data K (page_data st page))))
                FS_DECRYPT lblk_num page page (page_blocksize K page) i (GFP_NOFS K))
           (Z.to_nat (len / page_blocksize K page)) (page_blocksize K page) offs
           (page_lblk_num K page offs)
           (switched K (page_host K page) page (reload K (log EvFilpOpen st))))).
Proof.
  intros H. destruct (page_checks K page len offs) eqn:Hchk.
  - right. split; [reflexivity|].
    destruct (pagecache_calls K fuel page len offs st r st' Hchk H) as (_ & Hcalls).
    split; [exact Hcalls|]. split; [|split].
    + intros crypt_item Hf. rewrite Hf. reflexivity.
    + intros Hf. rewrite Hf. reflexivity.
    + intros Hoffs Hfit Hbits.
      exact (pagecache_each_block K fuel page len offs st (r, st') Hchk Hoffs Hfit Hbits H).
  - left. split; [reflexivity|].
    rewrite (pagecache_refused K fuel page len offs st Hchk) in H.
    injection H as <- <-. split; reflexivity.
Qed.

(** After the encrypt branch for [inode] on a page whose fingerprint the
    table did not hold and took in, the search of the next reload finds
    the item of [inode]. *)
Lemma found_after_encrypt K inode dest_page st :
  crypt_search (char_is_signed K) (cryptArray (reload K (log EvFilpOpen st)))
    (hash_page_data K (page_data st dest_page)) = None ->
  fst (crypttable_insert (char_is_signed K) (cryptArray (reload K (log EvFilpOpen st)))
         (hash_page_data K (page_data st dest_page)) (i_ino inode)) = 0 ->
  crypt_search (char_is_signed K)
    (cryptArray (reload K (log EvFilpOpen (encrypt_post_step K inode dest_page st))))
    (hash_page_data K (page_data (encrypt_post_step K inode dest_page st) dest_page))
  = Some (mkCryptitem (strncpy (hash_page_data K (page_data st dest_page)) 16)
            (i_ino inode)).
Proof.
  intros Hs Hi.
  rewrite (reload_after_encrypt K inode dest_page st).
  rewrite (page_data_encrypt_post_step K inode dest_page st dest_page).
  rewrite (encrypt_post_step_table K inode dest_page st).
  exact (proj1 (search_insert_inserted (char_is_signed K)
                  (cryptArray (reload K (log EvFilpOpen st)))
                  (hash_page_data K (page_data st dest_page)) (i_ino inode)
                  (reload_materialized K (log EvFilpOpen st)) Hs Hi)).
Qed.

(** C6 after an encrypt: on a fresh system inode 7 has encrypted page 1,
    whose fingerprint the table took in.  The page-level decrypt of
    page 1, a page of inode 2, returns; the search finds the item of
    inode 7, the inode of the key is the one [f2fs_iget] resolves from
    7, and the one block of the request is decrypted with it. *)
Lemma fscrypt_decrypt_pagecache_blocks_owner_witness :
  exists r st',
    fscrypt_decrypt_pagecache_blocks (example_kernel true (fun _ => finger_ff)) 2
      1 4096 0
      (encrypt_post_step (example_kernel true (fun _ => finger_ff)) inode_7 1
         (fresh_state {[ 1 := finger_one ]}))
    = Some (r, st') /\
    key_owner (example_kernel true (fun _ => finger_ff))
      (page_host (example_kernel true (fun _ => finger_ff)) 1)
      (crypt_search (char_is_signed (example_kernel true (fun _ => finger_ff)))
         (cryptArray
            (reload (example_kernel true (fun _ => finger_ff))
               (log EvFilpOpen
                  (encrypt_post_step (example_kernel true (fun _ => finger_ff)) inode_7 1
                     (fresh_state {[ 1 := finger_one ]})))))
         (hash_page_data (example_kernel true (fun _ => finger_ff))
            (page_data
               (encrypt_post_step (example_kernel true (fun _ => finger_ff)) inode_7 1
                  (fresh_state {[ 1 := finger_one ]})) 1)))
    = f2fs_iget (example_kernel true (fun _ => finger_ff))
        (i_sb (page_host (example_kernel true (fun _ => finger_ff)) 1))
        (ino (mkCryptitem
                (strncpy
                   (hash_page_data (example_kernel true (fun _ => finger_ff))
                      (page_data (fresh_state {[ 1 := finger_one ]}) 1)) 16)
                (i_ino inode_7))) /\
    (0 < Z.to_nat (4096 / page_blocksize (example_kernel true (fun _ => finger_ff)) 1))%nat
    /\
    (r, st')
    = each_block
        (fun lblk_num i =>
           fscrypt_crypt_block (example_kernel true (fun _ => finger_ff))
             (key_owner (example_kernel true (fun _ => finger_ff))
                (page_host (example_kernel true (fun _ => finger_ff)) 1)
                (crypt_search (char_is_signed (example_kernel true (fun _ => finger_ff)))
                   (cryptArray
                      (reload (example_kernel true (fun _ => finger_ff))
                         (log EvFilpOpen
                            (encrypt_post_step (example_kernel true (fun _ => finger_ff))
                               inode_7 1 (fresh_state {[ 1 := finger_one ]})))))
                   (hash_page_data (example_kernel true (fun _ => finger_ff))
                      (page_data
                         (encrypt_post_step (example_kernel true (fun _ => finger_ff))
                            inode_7 1 (fresh_state {[ 1 := finger_one ]})) 1))))
             FS_DECRYPT lblk_num 1 1
             (page_blocksize (example_kernel true (fun _ => finger_ff)) 1) i
             (GFP_NOFS (example_kernel true (fun _ => finger_ff))))
        (Z.to_nat (4096 / page_blocksize (example_kernel true (fun _ => finger_ff)) 1))
        (page_blocksize (example_kernel true (fun _ => finger_ff)) 1) 0
        (page_lblk_num (example_kernel true (fun _ => finger_ff)) 1 0)
        (switched (example_kernel true (fun _ => finger_ff))
           (page_host (example_kernel true (fun _ => finger_ff)) 1) 1
           (reload (example_kernel true (fun _ => finger_ff))
              (log EvFilpOpen
                 (encrypt_post_step (example_kernel true (fun _ => finger_ff)) inode_7 1
                    (fresh_state {[ 1 := finger_one ]}))))).
Proof.
  destruct (pagecache_one_block_runs (example_kernel true (fun _ => finger_ff)) 0
              1 4096 0
              (encrypt_post_step (example_kernel true (fun _ => finger_ff)) inode_7 1
                 (fresh_state {[ 1 := finger_one ]}))
              eq_refl eq_refl eq_refl)
    as [[r st'] H].
  exists r, st'. split; [exact H|].
  assert (Hj : forall i : Z, strncmp ((fun _ : Z => finger_ff) i) finger_one 16 <> 0)
    by (intros i; vm_compute; discriminate).
  assert (Hoffs : 0 <= 0) by lia.
  assert (Hfit : 0 + 4096 < 2 ^ 32) by lia.
  assert (Hbits : 0 <= i_blkbits (page_host (example_kernel true (fun _ => finger_ff)) 1)
                  < 32) by (change (0 <= 12 < 32); lia).
  destruct (fscrypt_decrypt_pagecache_blocks_owner
              (example_kernel true (fun _ => finger_ff)) 2 1 4096 0
              (encrypt_post_step (example_kernel true (fun _ => finger_ff)) inode_7 1
                 (fresh_state {[ 1 := finger_one ]})) r st' H)
    as [(Hc & _)|(_ & _ & Hsome & _ & Hblocks)].
  - discriminate Hc.
  - split; [|exact (Hblocks Hoffs Hfit Hbits)].
    refine (Hsome _ (found_after_encrypt (example_kernel true (fun _ => finger_ff))
                       inode_7 1 (fresh_state {[ 1 := finger_one ]}) _ _)).
    + exact (fresh_search_none true (fun _ => finger_ff) {[ 1 := finger_one ]}
               finger_one Hj).
    + exact (crypttable_insert_first_writable true _ finger_one 7
               (fresh_writable true (fun _ => finger_ff) {[ 1 := finger_one ]}
                  (hashCrypt true finger_one) (hashCrypt_range true finger_one))).
Defined.

(** ** What is written to "/citable" (C7) *)

(** The state in which the encrypt branch starts: the IV was derived and
    the transform has written the destination page. *)
Definition ciphered (K : kernel) (inode : inode) (rw : fscrypt_direction_t)
    (lblk_num src_page dest_page len offs : Z) (st : state) : state :=
  log (EvCipher rw (ci_tfm (i_crypt_info inode))
         (fscrypt_generate_iv K (uninitialized_iv K (trace st)) lblk_num
            (i_crypt_info inode)) len offs)
    (set_page dest_page
       (snd (crypto_skcipher K rw (ci_tfm (i_crypt_info inode))
               (fscrypt_generate_iv K (uninitialized_iv K (trace st)) lblk_num
                  (i_crypt_info inode))
               (page_data st src_page) (page_data st dest_page) len offs))
       (log (EvGenerateIv lblk_num (ci_inode_ino (i_crypt_info inode))) st)).

(** An encrypt that returns 0 has run the encrypt branch. *)
Lemma fscrypt_crypt_block_encrypt_ok K inode lblk_num src_page dest_page len offs gfp st :
  fst (fscrypt_crypt_block K inode FS_ENCRYPT lblk_num src_page dest_page len offs gfp st)
  = 0 ->
  snd (fscrypt_crypt_block K inode FS_ENCRYPT lblk_num src_page dest_page len offs gfp st)
  = encrypt_post_step K inode dest_page
      (ciphered K inode FS_ENCRYPT lblk_num src_page dest_page len offs st).
Proof.
  unfold fscrypt_crypt_block, ciphered. cbv zeta.
  destruct (len <=? 0); [unfold fst; discriminate|].
  destruct (len mod FSCRYPT_CONTENTS_ALIGNMENT K =? 0); cbn [negb];
    [|unfold fst; discriminate].
  destruct (skcipher_request_alloc K (ci_tfm (i_crypt_info inode)) gfp); cbn [negb];
    [|unfold fst; discriminate].
  rewrite !page_data_log.
  destruct (crypto_skcipher K FS_ENCRYPT _ _ _ _ _ _) as [res dest].
  destruct (res =? 0) eqn:Hres; cbn [negb].
  - intros _. unfold snd. reflexivity.
  - unfold fst. intros ->. discriminate Hres.
Qed.

(** An encrypt refused for its length has done nothing. *)
Lemma fscrypt_crypt_block_encrypt_refused K inode lblk_num src_page dest_page len offs
    gfp st :
  len <= 0 \/ len mod FSCRYPT_CONTENTS_ALIGNMENT K <> 0 ->
  fscrypt_crypt_block K inode FS_ENCRYPT lblk_num src_page dest_page len offs gfp st
  = (- EINVAL, st).
Proof.
  intros Hbad. unfold fscrypt_crypt_block. cbv zeta.
  destruct (len <=? 0) eqn:Hlen; [reflexivity|].
  destruct (len mod FSCRYPT_CONTENTS_ALIGNMENT K =? 0) eqn:Hal; cbn [negb];
    [|reflexivity].
  exfalso. lia.
Qed.

Lemma writes_end K inode dest_page st :
  exists before,
    trace (encrypt_post_step K inode dest_page st)
    = before ++ map EvKernelWrite (seqZ 0 DEDUP_TABLE_SIZE) ++ [EvFilpClose].
Proof. eexists. exact (encrypt_post_step_trace K inode dest_page st). Qed.

(** C7.  A decrypt never writes "/citable": the page-level decrypt, when
    it returns, and the per-block decrypt leave the records of the file
    as they were, and none of their calls is a [kernel_write].  An
    encrypt that returns 0 has written the whole table: afterwards every
    slot of the table points to an item, record [i] of the file is the
    item of slot [i] for every slot, and its last calls are the
    [kernel_write]s of the slots 0 to [DEDUP_TABLE_SIZE - 1], in order,
    and the close; this for every encrypt that returns 0, so whether or
    not it inserted. *)
Theorem citable_written_by_encrypt_only (K : kernel) :
  (forall fuel page len offs st r st',
     fscrypt_decrypt_pagecache_blocks K fuel page len offs st = Some (r, st') ->
     citable st' = citable st /\
     exists calls, trace st' = trace st ++ calls /\ Forall not_a_write calls) /\
  (forall inode lblk_num src_page dest_page len offs gfp st,
     citable (snd (fscrypt_crypt_block K inode FS_DECRYPT lblk_num src_page dest_page
                     len offs gfp st)) = citable st /\
     exists calls,
       trace (snd (fscrypt_crypt_block K inode FS_DECRYPT lblk_num src_page dest_page
                     len offs gfp st)) = trace st ++ calls /\
       Forall not_a_write calls) /\
  (forall inode lblk_num src_page dest_page len offs gfp st,
     fst (fscrypt_crypt_block K inode FS_ENCRYPT lblk_num src_page dest_page
            len offs gfp st) = 0 ->
     (forall i, 0 <= i < DEDUP_TABLE_SIZE ->
        exists item,
          cryptArray (snd (fscrypt_crypt_block K inode FS_ENCRYPT lblk_num src_page
                             dest_page len offs gfp st)) !! i = Some item /\
          citable (snd (fscrypt_crypt_block K inode FS_ENCRYPT lblk_num src_page
                          dest_page len offs gfp st)) !! Z.to_nat i = Some item) /\
     exists before,
       trace (snd (fscrypt_crypt_block K inode FS_ENCRYPT lblk_num src_page dest_page
                     len offs gfp st))
       = before ++ map EvKernelWrite (seqZ 0 DEDUP_TABLE_SIZE) ++ [EvFilpClose]).
Proof.
  split; [|split].
  - intros fuel page len offs st r st' H.
    destruct (page_checks K page len offs) eqn:Hchk.
    + destruct (pagecache_calls K fuel page len offs st r st' Hchk H)
        as (Hc & calls & Ht & Hcalls).
      split; [exact Hc|]. eexists. split; [exact Ht|].
      constructor; [exact I|]. apply Forall_app. split; [apply reads_not_a_write|].
      constructor; [exact I|]. constructor; [exact I|].
      apply Forall_app. split; [apply switch_not_a_write|].
      exact (decrypts_not_a_write _ _ Hcalls).
    + rewrite (pagecache_refused K fuel page len offs st Hchk) in H.
      injection H as <- <-. split; [apply citable_log|].
      exists [EvFilpOpen]. split; [apply trace_log | repeat constructor].
  - intros inode lblk_num src_page dest_page len offs gfp st.
    destruct (fscrypt_crypt_block_decrypt K inode lblk_num src_page dest_page len offs
                gfp st) as (_ & Hc & rest & Ht & Htail).
    split; [exact Hc|]. eexists. split; [exact Ht|].
    apply (decrypts_not_a_write (i_crypt_info inode)).
    exact (decrypt_tail_decrypts_with _ _ _ _ _ _ _ _ st src_page Htail).
  - intros inode lblk_num src_page dest_page len offs gfp st Hok.
    rewrite (fscrypt_crypt_block_encrypt_ok K inode lblk_num src_page dest_page len offs
               gfp st Hok).
    split; [|apply writes_end].
    intros i Hi.
    rewrite encrypt_post_step_citable, decide_True by lia.
    rewrite Z2Nat.id by lia. rewrite encrypt_post_step_cryptArray.
    destruct (owner_recorded_materialized K inode dest_page
                (ciphered K inode FS_ENCRYPT lblk_num src_page dest_page len offs st)
                i Hi) as [item Hitem].
    exists item. split; exact Hitem.
Qed.

(** C7 on a fresh system: an encrypt of one block for inode 7 returns 0,
    and its last calls are the writes of all the slots and the close. *)
Lemma citable_written_by_encrypt_only_witness :
  fst (fscrypt_crypt_block (example_kernel true (fun _ => finger_ff)) inode_7 FS_ENCRYPT
         0 1 1 4096 0 0 (fresh_state {[ 1 := finger_one ]})) = 0 /\
  exists before,
    trace (snd (fscrypt_crypt_block (example_kernel true (fun _ => finger_ff)) inode_7
                  FS_ENCRYPT 0 1 1 4096 0 0 (fresh_state {[ 1 := finger_one ]})))
    = before ++ map EvKernelWrite (seqZ 0 DEDUP_TABLE_SIZE) ++ [EvFilpClose].
Proof.
  split; [reflexivity|].
  exact (proj2 (proj2 (proj2 (citable_written_by_encrypt_only
                                (example_kernel true (fun _ => finger_ff))))
                  inode_7 0 1 1 4096 0 0 (fresh_state {[ 1 := finger_one ]})
                  eq_refl)).
Defined.

(** ** The length checks (C8) *)

(** C8, as the claim states it, fails in the decrypt direction.  A
    decrypt of zero bytes on a system where nothing was called yet
    returns [-EINVAL], but by then the recovery index has been reloaded,
    the source page fingerprinted and the recovery index searched: the
    state is not the one the operation started in. *)
Lemma decrypt_checks_length_after_index_work :
  fst (fscrypt_crypt_block (example_kernel true (fun _ => finger_ff)) inode_7 FS_DECRYPT
         0 1 1 0 0 0 (fresh_state {[ 1 := finger_one ]})) = - EINVAL /\
  trace (snd (fscrypt_crypt_block (example_kernel true (fun _ => finger_ff)) inode_7
                FS_DECRYPT 0 1 1 0 0 0 (fresh_state {[ 1 := finger_one ]})))
  = [EvReadFingerBlkTable; EvHashPage 1 finger_one; EvFingerCryptSearch finger_one] /\
  snd (fscrypt_crypt_block (example_kernel true (fun _ => finger_ff)) inode_7 FS_DECRYPT
         0 1 1 0 0 0 (fresh_state {[ 1 := finger_one ]}))
  <> fresh_state {[ 1 := finger_one ]}.
Proof.
  split; [vm_compute; reflexivity|]. split; [vm_compute; reflexivity|].
  intros E. apply (f_equal trace) in E. vm_compute in E. discriminate E.
Qed.

(** C8, amended.  In the encrypt direction a length that is not positive
    or not a multiple of [FSCRYPT_CONTENTS_ALIGNMENT] is refused with
    [-EINVAL] before anything is done: the state is the one the operation
    started in.  In the decrypt direction such a length is refused with
    [-EINVAL] too, after the calls of the decrypt branch (the reload of
    the recovery index, the digest of the source page, the search of the
    recovery index) and nothing else: the table [cryptArray], the file
    "/citable" and the pages are as before.  The page-level decrypt
    refuses a page that is not locked, a length that is not positive and
    a length or offset that is not a multiple of the block size with
    [-EINVAL] after opening "/citable" and nothing else. *)
Theorem length_checks_before_ownership_index (K : kernel) :
  (forall inode lblk_num src_page dest_page len offs gfp st,
     len <= 0 \/ len mod FSCRYPT_CONTENTS_ALIGNMENT K <> 0 ->
     fscrypt_crypt_block K inode FS_ENCRYPT lblk_num src_page dest_page len offs gfp st
     = (- EINVAL, st)) /\
  (forall inode lblk_num src_page dest_page len offs gfp st,
     len <= 0 \/ len mod FSCRYPT_CONTENTS_ALIGNMENT K <> 0 ->
     fscrypt_crypt_block K inode FS_DECRYPT lblk_num src_page dest_page len offs gfp st
     = (- EINVAL,
        mkState (cryptArray st) (citable st) (pages st)
          (trace st
           ++ [EvReadFingerBlkTable;
               EvHashPage src_page (hash_page_data K (page_data st src_page));
               EvFingerCryptSearch (hash_page_data K (page_data st src_page))]))) /\
  (forall fuel page len offs st,
     PageLocked K page = false \/ len <= 0
     \/ IS_ALIGNED (Z.lor len offs) (page_blocksize K page) = false ->
     fscrypt_decrypt_pagecache_blocks K fuel page len offs st
     = Some (- EINVAL,
             mkState (cryptArray st) (citable st) (pages st) (trace st ++ [EvFilpOpen]))).
Proof.
  split; [|split].
  - intros inode lblk_num src_page dest_page len offs gfp st Hbad.
    now apply fscrypt_crypt_block_encrypt_refused.
  - intros inode lblk_num src_page dest_page len offs gfp st Hbad.
    unfold fscrypt_crypt_block. rewrite decrypt_pre_step_eq. cbv zeta.
    destruct (len <=? 0) eqn:Hlen.
    { unfold log. cbn. rewrite <- !app_assoc. reflexivity. }
    destruct (len mod FSCRYPT_CONTENTS_ALIGNMENT K =? 0) eqn:Hal; cbn [negb].
    { exfalso. lia. }
    unfold log. cbn. rewrite <- !app_assoc. reflexivity.
  - intros fuel page len offs st Hbad.
    rewrite pagecache_refused; [reflexivity|].
    unfold page_checks.
    destruct Hbad as [Hl | [Hlen | Hal]].
    + rewrite Hl. reflexivity.
    + replace (len <=? 0) with true by lia.
      cbn [orb negb]. apply andb_false_r.
    + rewrite Hal. cbn [negb]. rewrite orb_true_r.
      cbn [negb]. apply andb_false_r.
Qed.

(** C8 amended, in the encrypt direction, at a length of 8 bytes with an
    alignment of 16: refused, and the state is untouched. *)
Lemma length_checks_before_ownership_index_witness :
  fscrypt_crypt_block (example_kernel true (fun _ => finger_ff)) inode_7 FS_ENCRYPT
    0 1 1 8 0 0 (fresh_state {[ 1 := finger_one ]})
  = (- EINVAL, fresh_state {[ 1 := finger_one ]}).
Proof.
  apply (proj1 (length_checks_before_ownership_index
                  (example_kernel true (fun _ => finger_ff)))).
  right. vm_compute. discriminate.
Defined.

(** * Further properties of the code *)

(** ** The hash *)

(** The sum of the bytes of a fingerprint, each read as plain [char]. *)
Definition char_sum (sgn : bool) (finger : list byte) : Z :=
  fold_right (fun b s => char_val sgn b + s) 0 finger.

Lemma map_nth_seq (finger : list byte) :
  map (fun i => nth i finger NUL) (seq 0 (length finger)) = finger.
Proof.
  induction finger as [|b l IH]; [reflexivity|].
  cbn [length seq map nth]. f_equal. rewrite <- seq_shift, map_map. exact IH.
Qed.

Lemma fold_left_map_nth {A : Type} (f : A -> byte -> A) (finger : list byte)
    (l : list nat) : forall acc,
  fold_left (fun x i => f x (nth i finger NUL)) l acc
  = fold_left f (map (fun i => nth i finger NUL) l) acc.
Proof. induction l as [|i l IH]; intros acc; [reflexivity|]. cbn. apply IH. Qed.

(** The loop of [hashCrypt] adds up the [char]s modulo 2^64. *)
Lemma hash_loop_sum sgn (l : list byte) : forall acc,
  0 <= acc < 2 ^ 64 ->
  fold_left (fun hash b => to_size_t (hash + to_size_t (char_val sgn b))) l acc
  = (acc + char_sum sgn l) mod 2 ^ 64.
Proof.
  induction l as [|b l IH]; intros acc Hacc.
  - cbn. rewrite Z.add_0_r. symmetry. now apply Z.mod_small.
  - cbn [fold_left char_sum fold_right]. rewrite IH.
    + unfold to_size_t, size_t_max. fold (char_sum sgn l).
      rewrite Z.add_mod_idemp_r by lia. rewrite Z.add_mod_idemp_l by lia.
      f_equal. lia.
    + unfold to_size_t at 1. unfold size_t_max. apply Z.mod_pos_bound. lia.
Qed.

(** The hash of sixteen bytes from their sum. *)
Lemma hashCrypt_char_sum (sgn : bool) (finger : list byte) :
  length finger = 16%nat ->
  hashCrypt sgn finger = char_sum sgn finger mod 1024 * 1024.
Proof.
  intros Hl. unfold hashCrypt.
  rewrite (fold_left_map_nth
             (fun hash b => to_size_t (hash + to_size_t (char_val sgn b)))
             finger (seq 0 16) 0).
  replace 16%nat with (length finger). rewrite map_nth_seq.
  rewrite hash_loop_sum by lia. rewrite Z.add_0_l.
  rewrite Z.mod_mod_divide by (exists (2 ^ 54); reflexivity).
  apply to_size_t_small.
  pose proof (Z.mod_pos_bound (char_sum sgn finger) 1024 ltac:(lia)). lia.
Qed.

(** X1.  [hashCrypt] of a 16-byte fingerprint in closed form: the sum of
    its bytes, each read as plain [char] (so negative from 0x80 on where
    [char] is signed), reduced modulo 1024 and then multiplied by 1024.
    So the hash is always one of the 1024 multiples of 1024 below
    [DEDUP_TABLE_SIZE]. *)
Theorem hashCrypt_closed_form (sgn : bool) (finger : list byte) :
  length finger = 16%nat ->
  hashCrypt sgn finger = char_sum sgn finger mod 1024 * 1024 /\
  hashCrypt sgn finger mod 1024 = 0 /\
  0 <= hashCrypt sgn finger < DEDUP_TABLE_SIZE.
Proof.
  intros Hl. pose proof (hashCrypt_char_sum sgn finger Hl) as E.
  split; [exact E|]. split; [|apply hashCrypt_range].
  rewrite E. apply Z.mod_mul. lia.
Qed.

Lemma hashCrypt_closed_form_witness :
  hashCrypt true finger_ff = char_sum true finger_ff mod 1024 * 1024 /\
  hashCrypt true finger_ff mod 1024 = 0 /\
  0 <= hashCrypt true finger_ff < DEDUP_TABLE_SIZE.
Proof. apply hashCrypt_closed_form. reflexivity. Defined.

Lemma char_sum_permutation sgn (f g : list byte) :
  Permutation f g -> char_sum sgn f = char_sum sgn g.
Proof.
  induction 1 as [|b f g _ IH|b c f|f g k _ IH1 _ IH2]; cbn [char_sum fold_right].
  - reflexivity.
  - fold (char_sum sgn f) (char_sum sgn g). lia.
  - lia.
  - congruence.
Qed.

(** X2.  The hash does not see the order of the bytes: two 16-byte
    fingerprints that are permutations of each other have the same hash,
    so they start their probes at the same slot. *)
Theorem hashCrypt_permutation (sgn : bool) (f g : list byte) :
  length f = 16%nat -> Permutation f g -> hashCrypt sgn f = hashCrypt sgn g.
Proof.
  intros Hl Hp.
  rewrite (hashCrypt_char_sum sgn f Hl).
  assert (Hg : length g = 16%nat) by (rewrite <- Hl; symmetry; apply Permutation_length, Hp).
  rewrite (hashCrypt_char_sum sgn g Hg).
  rewrite (char_sum_permutation sgn f g Hp). reflexivity.
Qed.

Lemma hashCrypt_permutation_witness :
  hashCrypt true finger_a = hashCrypt true finger_b.
Proof.
  apply hashCrypt_permutation; [reflexivity|].
  unfold finger_a, finger_b. do 2 apply perm_skip.
  apply perm_swap.
Defined.

(** ** Search and insert *)

(** X3.  What [crypt_search] returns is the first match on the probe
    path: it returns an item exactly when, at some step [k] below
    [DEDUP_TABLE_SIZE] from the hash of the query, the slot points to
    that item, [strncmp] of its fingerprint against the query is 0, and
    every slot before it on the path is not NULL and does not match. *)
Theorem crypt_search_returns_first_match (sgn : bool) (a : gmap Z Cryptitem)
    (finger : list byte) (item : Cryptitem) :
  crypt_search sgn a finger = Some item <->
  exists k, 0 <= k < DEDUP_TABLE_SIZE /\
    a !! probe_slot (hashCrypt sgn finger) k = Some item /\
    strncmp (fingerprint_crypt item) finger 16 = 0 /\
    forall j, 0 <= j < k -> passes a finger (probe_slot (hashCrypt sgn finger) j).
Proof.
  split.
  - intros Hs.
    destruct (crypt_search_spec sgn a finger) as [(k & Hk & Hp & Hstop)|(Hn & _)].
    + rewrite Hs in Hstop. destruct Hstop as [Hl Hz]. exists k. auto.
    + rewrite Hn in Hs. discriminate Hs.
  - intros (k & Hk & Hl & Hz & Hp).
    apply (crypt_search_at sgn a finger k (Some item) Hk Hp). split; assumption.
Qed.

(** X4.  Insert, then search.  When the search for a fingerprint returns
    NULL and the insert of it returns 0, the search then returns the item
    just stored: the fingerprint as [strncpy] copied it, with the owner
    given.  For a fingerprint of sixteen bytes none of which is NUL the
    stored fingerprint is the fingerprint itself. *)
Theorem crypt_search_finds_inserted (sgn : bool) (a a' : gmap Z Cryptitem)
    (finger : list byte) (owner : Z) :
  crypt_search sgn a finger = None ->
  crypttable_insert sgn a finger owner = (0, a') ->
  crypt_search sgn a' finger = Some (mkCryptitem (strncpy finger 16) owner) /\
  (length finger = 16%nat -> forallb (fun b => negb (is_nul b)) finger = true ->
   crypt_search sgn a' finger = Some (mkCryptitem finger owner)).
Proof.
  intros Hn Hins.
  assert (Hfound : crypt_search sgn a' finger
                   = Some (mkCryptitem (strncpy finger 16) owner)).
  { destruct (crypttable_insert_spec sgn a finger owner)
      as [(k & Hk & Hw & Hlv & E)|(_ & E)]; rewrite E in Hins; [|discriminate].
    apply (f_equal snd) in Hins. cbn [snd] in Hins. subst a'.
    set (h := hashCrypt sgn finger) in *.
    assert (Hpass : forall j, 0 <= j < k -> passes a finger (probe_slot h j)).
    { destruct (crypt_search_spec sgn a finger) as [(k0 & Hk0 & Hp & Hstop)|(_ & Hall)].
      - fold h in Hp, Hstop. rewrite Hn in Hstop. unfold stops in Hstop.
        intros j Hj. apply Hp.
        destruct (Z.lt_ge_cases k0 k) as [Hlt|Hge]; [|lia].
        destruct (Hlv k0 ltac:(lia)) as (it & Hit & _). congruence.
      - intros j Hj. apply Hall, probe_slot_range. }
    apply (crypt_search_at sgn _ finger k); [assumption| |].
    - intros j Hj. fold h. destruct (Hpass j Hj) as (it & Hl & Hne).
      exists it. split; [|assumption]. rewrite lookup_insert_ne; [assumption|].
      intros Eq. apply probe_slot_inj in Eq; lia.
    - fold h. unfold stops. rewrite lookup_insert_eq. split; [reflexivity|].
      apply strncmp_strncpy_self. }
  split; [exact Hfound|].
  intros Hl Hnn. rewrite Hfound. rewrite (strncpy_no_nul 16 finger Hl Hnn). reflexivity.
Qed.

(** Sixteen bytes, none of them NUL. *)
Definition finger_no_nul : list byte :=
  [x01; x02; x03; x04; x05; x06; x07; x08; x09; x0a; x0b; x0c; x0d; x0e; x0f; x10].

Lemma crypt_search_finds_inserted_witness :
  crypt_search true {[ hashCrypt true finger_no_nul := mkCryptitem (strncpy finger_no_nul 16) 7 ]}
    finger_no_nul
  = Some (mkCryptitem finger_no_nul 7).
Proof.
  refine (proj2 (crypt_search_finds_inserted true ∅ _ finger_no_nul 7 _ _) eq_refl eq_refl).
  - apply (crypt_search_at true ∅ finger_no_nul 0 None).
    + rewrite DEDUP_TABLE_SIZE_val. lia.
    + intros j Hj. lia.
    + apply lookup_empty.
  - rewrite (crypttable_insert_at true ∅ finger_no_nul 7 0).
    + rewrite (probe_slot_0 _ (hashCrypt_range true finger_no_nul)). reflexivity.
    + rewrite DEDUP_TABLE_SIZE_val. lia.
    + unfold writable. rewrite lookup_empty. exact I.
    + intros j Hj. lia.
Defined.

(** X5.  [crypttable_insert] returns 0 or 1.  It never touches an item
    whose [ino] is positive: every such item is in the same slot
    afterwards.  When it returns 0 it has changed one slot into the new
    item: the first slot on the probe path from the hash that was NULL
    or held an [ino] of 0.  It returns 1 only when every slot of the
    table holds an item with a positive [ino], and then the table is
    unchanged. *)
Theorem crypttable_insert_keeps_live_items (sgn : bool) (a : gmap Z Cryptitem)
    (finger : list byte) (owner : Z) :
  ((fst (crypttable_insert sgn a finger owner) = 0 /\
    (exists k, 0 <= k < DEDUP_TABLE_SIZE /\
       writable a (probe_slot (hashCrypt sgn finger) k) /\
       (forall j, 0 <= j < k -> live a (probe_slot (hashCrypt sgn finger) j)) /\
       snd (crypttable_insert sgn a finger owner)
       = <[probe_slot (hashCrypt sgn finger) k
           := mkCryptitem (strncpy finger 16) owner]> a))
   \/
   (fst (crypttable_insert sgn a finger owner) = 1 /\
    snd (crypttable_insert sgn a finger owner) = a /\
    (forall i, 0 <= i < DEDUP_TABLE_SIZE -> live a i))) /\
  forall i item, a !! i = Some item -> 0 < ino item ->
    snd (crypttable_insert sgn a finger owner) !! i = Some item.
Proof.
  destruct (crypttable_insert_spec sgn a finger owner)
    as [(k & Hk & Hw & Hlv & E)|(Hall & E)]; rewrite E; cbn [fst snd].
  - split.
    + left. split; [reflexivity|]. exists k. auto.
    + intros i item Hi Hpos.
      rewrite lookup_insert_ne; [exact Hi|].
      intros <-. unfold writable in Hw. rewrite Hi in Hw. lia.
  - split; [|intros i item Hi _; exact Hi].
    right. split; [reflexivity|]. split; [reflexivity | exact Hall].
Qed.

(** X6.  [crypttable_insert] does not look for the fingerprint: it is
    the caller's search that keeps a fingerprint from being stored twice.
    Inserted twice in a row with a positive owner, where the slot of the
    hash and the next slot are writable, the fingerprint occupies both
    slots. *)
Theorem crypttable_insert_twice_two_slots (sgn : bool) (a : gmap Z Cryptitem)
    (finger : list byte) (owner : Z) :
  0 < owner ->
  writable a (hashCrypt sgn finger) ->
  writable a (probe_slot (hashCrypt sgn finger) 1) ->
  crypttable_insert sgn (snd (crypttable_insert sgn a finger owner)) finger owner
  = (0, <[probe_slot (hashCrypt sgn finger) 1 := mkCryptitem (strncpy finger 16) owner]>
          (<[hashCrypt sgn finger := mkCryptitem (strncpy finger 16) owner]> a)) /\
  probe_slot (hashCrypt sgn finger) 1 <> hashCrypt sgn finger.
Proof.
  intros Hpos Hw0 Hw1.
  pose proof (hashCrypt_range sgn finger) as Hr.
  set (h := hashCrypt sgn finger) in *.
  assert (Hne : probe_slot h 1 <> h).
  { rewrite <- (probe_slot_0 h Hr) at 2. intros Eq.
    apply probe_slot_inj in Eq; rewrite ?DEDUP_TABLE_SIZE_val; lia. }
  split; [|exact Hne].
  rewrite (crypttable_insert_at sgn a finger owner 0).
  - fold h. rewrite (probe_slot_0 h Hr). cbn [snd].
    rewrite (crypttable_insert_at sgn _ finger owner 1).
    + reflexivity.
    + rewrite DEDUP_TABLE_SIZE_val. lia.
    + fold h. unfold writable. rewrite lookup_insert_ne by congruence. exact Hw1.
    + intros j Hj. assert (j = 0) as -> by lia. fold h. rewrite (probe_slot_0 h Hr).
      eexists. rewrite lookup_insert_eq. split; [reflexivity|]. exact Hpos.
  - rewrite DEDUP_TABLE_SIZE_val. lia.
  - fold h. rewrite (probe_slot_0 h Hr). exact Hw0.
  - intros j Hj. lia.
Qed.

Lemma crypttable_insert_twice_two_slots_witness :
  crypttable_insert true (snd (crypttable_insert true ∅ finger_one 7)) finger_one 7
  = (0, <[probe_slot (hashCrypt true finger_one) 1 := mkCryptitem (strncpy finger_one 16) 7]>
          (<[hashCrypt true finger_one := mkCryptitem (strncpy finger_one 16) 7]> ∅)) /\
  probe_slot (hashCrypt true finger_one) 1 <> hashCrypt true finger_one.
Proof.
  apply crypttable_insert_twice_two_slots.
  - lia.
  - unfold writable. rewrite lookup_empty. exact I.
  - unfold writable. rewrite lookup_empty. exact I.
Defined.

(** ** The encrypt branch and the file *)

(** A table full of live items that do not match: the search returns
    NULL, the insert returns 1, and lines 269-271 leave the table as it
    is. *)
Lemma search_insert_full sgn (a : gmap Z Cryptitem) digest owner :
  (forall i, 0 <= i < DEDUP_TABLE_SIZE ->
     exists item, a !! i = Some item /\ 0 < ino item /\
                  strncmp (fingerprint_crypt item) digest 16 <> 0) ->
  crypttable_insert sgn a digest owner = (1, a) /\
  search_insert sgn a digest owner = a /\
  crypt_search sgn a digest = None.
Proof.
  intros Hfull.
  assert (Hs : crypt_search sgn a digest = None).
  { apply crypt_search_exhausted. intros i Hi.
    destruct (Hfull i Hi) as (item & Hl & _ & Hne). exists item. split; assumption. }
  assert (Hi : crypttable_insert sgn a digest owner = (1, a)).
  { destruct (crypttable_insert_spec sgn a digest owner)
      as [(k & Hk & Hw & _)|(_ & E)]; [exfalso|exact E].
    destruct (Hfull _ (probe_slot_range (hashCrypt sgn digest) k))
      as (item & Hl & Hpos & _).
    unfold writable in Hw. rewrite Hl in Hw. lia. }
  split; [exact Hi|]. split; [|exact Hs].
  unfold search_insert. rewrite Hs. unfold if_found. rewrite Hi. reflexivity.
Qed.

(** Conversely: when the search still returns NULL after lines 269-271
    on a table without NULL slots, the table is full of live items that
    do not match. *)
Lemma search_insert_none_full sgn (a : gmap Z Cryptitem) digest owner :
  materialized a ->
  crypt_search sgn (search_insert sgn a digest owner) digest = None ->
  forall i, 0 <= i < DEDUP_TABLE_SIZE ->
    exists item, a !! i = Some item /\ 0 < ino item /\
                 strncmp (fingerprint_crypt item) digest 16 <> 0.
Proof.
  intros Hm. unfold search_insert.
  destruct (crypt_search sgn a digest) as [found|] eqn:Hs; unfold if_found.
  - intros Hn. rewrite Hs in Hn. discriminate Hn.
  - destruct (crypttable_insert_spec sgn a digest owner)
      as [(k & _ & _ & _ & Hi)|(Hall & Hi)]; rewrite Hi; unfold snd.
    + destruct (crypt_search_after_insert sgn a _ digest owner Hm Hs Hi) as [Hf _].
      rewrite Hf. discriminate.
    + intros _ i Hi'.
      destruct (Hall i Hi') as (item & Hl & Hpos).
      destruct (crypt_search_none_all_pass sgn a digest Hm Hs i Hi')
        as (item' & Hl' & Hne).
      exists item. split; [exact Hl|]. split; [exact Hpos|].
      rewrite Hl in Hl'. injection Hl' as ->. exact Hne.
Qed.

(** X7.  An encrypt that returns 0 need not have recorded its owner:
    the encrypt branch drops what [crypttable_insert] returns.  After
    the encrypt branch a search for the digest of the ciphertext returns
    NULL exactly when every slot of the reloaded table holds an item
    with a positive [ino] whose fingerprint does not match the digest;
    and then [crypttable_insert] has returned 1 and the table is as it
    was reloaded. *)
Theorem encrypt_post_step_full_index (K : kernel) (inode : inode) (dest_page : Z)
    (st : state) :
  (crypt_search (char_is_signed K) (cryptArray (encrypt_post_step K inode dest_page st))
     (hash_page_data K (page_data st dest_page)) = None
   <->
   forall i, 0 <= i < DEDUP_TABLE_SIZE ->
     exists item,
       cryptArray (reload K (log EvFilpOpen st)) !! i = Some item /\
       0 < ino item /\
       strncmp (fingerprint_crypt item) (hash_page_data K (page_data st dest_page)) 16
       <> 0) /\
  ((forall i, 0 <= i < DEDUP_TABLE_SIZE ->
      exists item,
        cryptArray (reload K (log EvFilpOpen st)) !! i = Some item /\
        0 < ino item /\
        strncmp (fingerprint_crypt item) (hash_page_data K (page_data st dest_page)) 16
        <> 0) ->
   crypttable_insert (char_is_signed K) (cryptArray (reload K (log EvFilpOpen st)))
     (hash_page_data K (page_data st dest_page)) (i_ino inode)
   = (1, cryptArray (reload K (log EvFilpOpen st))) /\
   cryptArray (encrypt_post_step K inode dest_page st)
   = cryptArray (reload K (log EvFilpOpen st))).
Proof.
  rewrite (encrypt_post_step_table K inode dest_page st).
  split; [split|].
  - exact (search_insert_none_full (char_is_signed K) _ _ (i_ino inode)
             (reload_materialized K (log EvFilpOpen st))).
  - intros Hfull.
    destruct (search_insert_full (char_is_signed K) _ _ (i_ino inode) Hfull)
      as (_ & Ht & Hs).
    rewrite Ht. exact Hs.
  - intros Hfull.
    destruct (search_insert_full (char_is_signed K) _ _ (i_ino inode) Hfull)
      as (Hi & Ht & _).
    split; [exact Hi | exact Ht].
Qed.

(** A system whose file "/citable" is full of items of inode 1 with the
    fingerprint ff .. ff. *)
Definition full_state (pg : gmap Z (list byte)) : state :=
  mkState ∅ (replicate (Z.to_nat DEDUP_TABLE_SIZE) (mkCryptitem finger_ff 1)) pg [].

Lemma full_reload_lookup sgn junk pg (i : Z) :
  0 <= i < DEDUP_TABLE_SIZE ->
  cryptArray (reload (example_kernel sgn junk) (log EvFilpOpen (full_state pg))) !! i
  = Some (mkCryptitem finger_ff 1).
Proof.
  intros Hi. rewrite reload_lookup, decide_True by assumption.
  rewrite citable_log.
  change (citable (full_state pg))
    with (replicate (Z.to_nat DEDUP_TABLE_SIZE) (mkCryptitem finger_ff 1)).
  rewrite lookup_replicate_2; [reflexivity|]. lia.
Qed.

Lemma encrypt_post_step_full_index_witness :
  crypt_search true
    (cryptArray (encrypt_post_step (example_kernel true (fun _ => finger_ff)) inode_7 1
                   (full_state {[ 1 := finger_one ]})))
    (hash_page_data (example_kernel true (fun _ => finger_ff))
       (page_data (full_state {[ 1 := finger_one ]}) 1))
  = None.
Proof.
  refine (proj2 (proj1 (encrypt_post_step_full_index
                          (example_kernel true (fun _ => finger_ff)) inode_7 1
                          (full_state {[ 1 := finger_one ]}))) _).
  intros i Hi. exists (mkCryptitem finger_ff 1).
  split; [exact (full_reload_lookup true (fun _ => finger_ff) _ i Hi)|].
  split; [cbn; lia|]. vm_compute. discriminate.
Defined.

(** A reload from a file that holds the table gives the table. *)
Lemma reload_restores K (st1 st2 : state) :
  materialized (cryptArray st1) ->
  (forall j : nat, Z.of_nat j < DEDUP_TABLE_SIZE ->
     citable st1 !! j = cryptArray st1 !! Z.of_nat j) ->
  citable st2 = citable st1 ->
  forall i, 0 <= i < DEDUP_TABLE_SIZE ->
    cryptArray (reload K st2) !! i = cryptArray st1 !! i.
Proof.
  intros Hm Hfile E i Hi.
  rewrite (reload_lookup K st2 i), decide_True by assumption.
  rewrite E, (Hfile (Z.to_nat i)) by lia. rewrite Z2Nat.id by lia.
  destruct (Hm i Hi) as [item Hitem]. rewrite Hitem. reflexivity.
Qed.

Lemma citable_mkState a f p t : citable (mkState a f p t) = f.
Proof. reflexivity. Qed.

(** X8.  What an encrypt writes to "/citable" restores the table.  After
    an encrypt that returns 0, a reload in any state whose file is the
    file the encrypt left gives, in every slot of the table, the item
    the encrypt left there: whatever the array holds at the reload (all
    NULL after a restart, for one), whatever the pages hold and whatever
    [kmalloc] hands out. *)
Theorem citable_restores_table (K : kernel) (inode : inode)
    (lblk_num src_page dest_page len offs gfp : Z) (st : state) :
  fst (fscrypt_crypt_block K inode FS_ENCRYPT lblk_num src_page dest_page len offs gfp st)
  = 0 ->
  forall (a2 : gmap Z Cryptitem) (pg2 : gmap Z (list byte)) (tr2 : list event) (i : Z),
    0 <= i < DEDUP_TABLE_SIZE ->
    cryptArray
      (reload K
         (mkState a2
            (citable (snd (fscrypt_crypt_block K inode FS_ENCRYPT lblk_num src_page
                             dest_page len offs gfp st)))
            pg2 tr2)) !! i
    = cryptArray (snd (fscrypt_crypt_block K inode FS_ENCRYPT lblk_num src_page dest_page
                         len offs gfp st)) !! i.
Proof.
  intros Hok a2 pg2 tr2.
  rewrite (fscrypt_crypt_block_encrypt_ok K inode lblk_num src_page dest_page len offs
             gfp st Hok).
  refine (reload_restores K
            (encrypt_post_step K inode dest_page
               (ciphered K inode FS_ENCRYPT lblk_num src_page dest_page len offs st))
            _ _ _ (citable_mkState a2 _ pg2 tr2)).
  - rewrite (encrypt_post_step_cryptArray K inode dest_page
               (ciphered K inode FS_ENCRYPT lblk_num src_page dest_page len offs st)).
    exact (owner_recorded_materialized K inode dest_page
             (ciphered K inode FS_ENCRYPT lblk_num src_page dest_page len offs st)).
  - intros j Hj.
    rewrite (encrypt_post_step_citable K inode dest_page
               (ciphered K inode FS_ENCRYPT lblk_num src_page dest_page len offs st) j).
    rewrite decide_True by exact Hj. reflexivity.
Qed.

(** X8 after a restart: the array is all NULL, the file is the one an
    encrypt on a fresh system left; slot 1024. *)
Lemma citable_restores_table_witness :
  cryptArray
    (reload (example_kernel true (fun _ => finger_ff))
       (mkState ∅
          (citable (snd (fscrypt_crypt_block (example_kernel true (fun _ => finger_ff))
                           inode_7 FS_ENCRYPT 0 1 1 4096 0 0
                           (fresh_state {[ 1 := finger_one ]}))))
          ∅ [])) !! 1024
  = cryptArray (snd (fscrypt_crypt_block (example_kernel true (fun _ => finger_ff))
                       inode_7 FS_ENCRYPT 0 1 1 4096 0 0
                       (fresh_state {[ 1 := finger_one ]}))) !! 1024.
Proof.
  refine (citable_restores_table (example_kernel true (fun _ => finger_ff)) inode_7
            0 1 1 4096 0 0 (fresh_state {[ 1 := finger_one ]}) eq_refl ∅ ∅ [] 1024 _).
  rewrite DEDUP_TABLE_SIZE_val. lia.
Defined.

(** ** Encrypt, then decrypt *)

(** X9.  The page-level decrypt of a page that an encrypt has just
    recorded uses the key of the inode that encrypted it.  After the
    encrypt branch for [inode] on [dest_page], where the search had
    returned NULL and [crypttable_insert] 0, a page-level decrypt of
    [dest_page] that passes its checks and returns has called
    [f2fs_iget] with the [ino] of [inode] on the super block of the
    page's own inode, then [fscrypt_require_key], and every per-block
    decrypt that follows is made with the key context of the inode that
    [f2fs_iget] returned. *)
Theorem pagecache_decrypt_after_encrypt (K : kernel) (inode : inode) (dest_page : Z)
    (st : state) (fuel : nat) (len offs r : Z) (st2 : state) :
  crypt_search (char_is_signed K) (cryptArray (reload K (log EvFilpOpen st)))
    (hash_page_data K (page_data st dest_page)) = None ->
  fst (crypttable_insert (char_is_signed K) (cryptArray (reload K (log EvFilpOpen st)))
         (hash_page_data K (page_data st dest_page)) (i_ino inode)) = 0 ->
  page_checks K dest_page len offs = true ->
  fscrypt_decrypt_pagecache_blocks K fuel dest_page len offs
    (encrypt_post_step K inode dest_page st) = Some (r, st2) ->
  exists calls,
    trace st2
    = trace (encrypt_post_step K inode dest_page st)
      ++ EvFilpOpen :: map EvKernelRead (seqZ 0 DEDUP_TABLE_SIZE)
      ++ [EvHashPage dest_page (hash_page_data K (page_data st dest_page));
          EvCryptSearch (hash_page_data K (page_data st dest_page));
          EvIget (i_sb (page_host K dest_page)) (i_ino inode);
          EvRequireKey
            (i_ino (f2fs_iget K (i_sb (page_host K dest_page)) (i_ino inode)))]
      ++ calls /\
    Forall (decrypts_with
              (i_crypt_info (f2fs_iget K (i_sb (page_host K dest_page)) (i_ino inode))))
      calls.
Proof.
  intros Hs Hi Hchk Hrun.
  destruct (pagecache_calls K fuel dest_page len offs
              (encrypt_post_step K inode dest_page st) r st2 Hchk Hrun)
    as (_ & calls & Ht & Hcalls).
  rewrite (reload_after_encrypt K inode dest_page st) in Ht, Hcalls.
  rewrite (page_data_encrypt_post_step K inode dest_page st dest_page) in Ht, Hcalls.
  rewrite (encrypt_post_step_table K inode dest_page st) in Ht, Hcalls.
  destruct (search_insert_inserted (char_is_signed K)
              (cryptArray (reload K (log EvFilpOpen st)))
              (hash_page_data K (page_data st dest_page)) (i_ino inode)
              (reload_materialized K (log EvFilpOpen st)) Hs Hi) as [Hf _].
  rewrite Hf in Ht, Hcalls.
  exists calls. split; [|exact Hcalls].
  rewrite Ht. reflexivity.
Qed.

(** X9 on a fresh system: inode 7 encrypts page 1, whose fingerprint is
    new; the page-level decrypt of page 1 (host inode 2) then runs with
    the key context of inode 7. *)
Lemma pagecache_decrypt_after_encrypt_witness :
  exists r st2,
    fscrypt_decrypt_pagecache_blocks (example_kernel true (fun _ => finger_ff)) 2
      1 4096 0
      (encrypt_post_step (example_kernel true (fun _ => finger_ff)) inode_7 1
         (fresh_state {[ 1 := finger_one ]})) = Some (r, st2) /\
    exists calls,
      trace st2
      = trace (encrypt_post_step (example_kernel true (fun _ => finger_ff)) inode_7 1
                 (fresh_state {[ 1 := finger_one ]}))
        ++ EvFilpOpen :: map EvKernelRead (seqZ 0 DEDUP_TABLE_SIZE)
        ++ [EvHashPage 1
              (hash_page_data (example_kernel true (fun _ => finger_ff))
                 (page_data (fresh_state {[ 1 := finger_one ]}) 1));
            EvCryptSearch
              (hash_page_data (example_kernel true (fun _ => finger_ff))
                 (page_data (fresh_state {[ 1 := finger_one ]}) 1));
            EvIget (i_sb (page_host (example_kernel true (fun _ => finger_ff)) 1))
              (i_ino inode_7);
            EvRequireKey
              (i_ino (f2fs_iget (example_kernel true (fun _ => finger_ff))
                        (i_sb (page_host (example_kernel true (fun _ => finger_ff)) 1))
                        (i_ino inode_7)))]
        ++ calls /\
      Forall (decrypts_with
                (i_crypt_info
                   (f2fs_iget (example_kernel true (fun _ => finger_ff))
                      (i_sb (page_host (example_kernel true (fun _ => finger_ff)) 1))
                      (i_ino inode_7))))
        calls.
Proof.
  destruct (pagecache_one_block_runs (example_kernel true (fun _ => finger_ff)) 0
              1 4096 0
              (encrypt_post_step (example_kernel true (fun _ => finger_ff)) inode_7 1
                 (fresh_state {[ 1 := finger_one ]}))
              eq_refl eq_refl eq_refl)
    as [[r st2] H].
  exists r, st2. split; [exact H|].
  assert (Hj : forall i : Z, strncmp ((fun _ : Z => finger_ff) i) finger_one 16 <> 0)
    by (intros i; vm_compute; discriminate).
  refine (pagecache_decrypt_after_encrypt (example_kernel true (fun _ => finger_ff))
            inode_7 1 (fresh_state {[ 1 := finger_one ]}) 2 4096 0 r st2 _ _ _ H).
  - exact (fresh_search_none true (fun _ => finger_ff) {[ 1 := finger_one ]}
             finger_one Hj).
  - exact (crypttable_insert_first_writable true _ finger_one 7
             (fresh_writable true (fun _ => finger_ff) {[ 1 := finger_one ]}
                (hashCrypt true finger_one) (hashCrypt_range true finger_one))).
  - reflexivity.
Defined.

(** ** The in-place entry points *)

(** [fscrypt_encrypt_block_inplace] *)
Definition fscrypt_encrypt_block_inplace (K : kernel) (inode : inode)
    (page len offs lblk_num gfp_flags : Z) (st : state) : Z * state :=
  fscrypt_crypt_block K inode FS_ENCRYPT lblk_num page page len offs gfp_flags st.

(** [fscrypt_decrypt_block_inplace] *)
Definition fscrypt_decrypt_block_inplace (K : kernel) (inode : inode)
    (page len offs lblk_num : Z) (st : state) : Z * state :=
  fscrypt_crypt_block K inode FS_DECRYPT lblk_num page page len offs (GFP_NOFS K) st.

(** An encrypt that returns 0 has passed the checks, got its request
    and a result of 0 from the transform. *)
Lemma fscrypt_crypt_block_encrypt_ok_inv K inode lblk_num src_page dest_page len offs
    gfp st :
  fst (fscrypt_crypt_block K inode FS_ENCRYPT lblk_num src_page dest_page len offs gfp st)
  = 0 ->
  0 < len /\ len mod FSCRYPT_CONTENTS_ALIGNMENT K = 0 /\
  skcipher_request_alloc K (ci_tfm (i_crypt_info inode)) gfp = true /\
  fst (crypto_skcipher K FS_ENCRYPT (ci_tfm (i_crypt_info inode))
         (fscrypt_generate_iv K (uninitialized_iv K (trace st)) lblk_num
            (i_crypt_info inode))
         (page_data st src_page) (page_data st dest_page) len offs) = 0.
Proof.
  unfold fscrypt_crypt_block. cbv zeta.
  destruct (len <=? 0) eqn:Hlen; [unfold fst; discriminate|].
  destruct (len mod FSCRYPT_CONTENTS_ALIGNMENT K =? 0) eqn:Hal; cbn [negb];
    [|unfold fst; discriminate].
  destruct (skcipher_request_alloc K (ci_tfm (i_crypt_info inode)) gfp); cbn [negb];
    [|unfold fst; discriminate].
  rewrite !page_data_log.
  destruct (crypto_skcipher K FS_ENCRYPT _ _ _ _ _ _) as [res dest].
  destruct (res =? 0) eqn:Hres; cbn [negb].
  - intros _. unfold fst. repeat split; lia.
  - unfold fst at 1. intros ->. discriminate Hres.
Qed.

(** The destination page after the transform. *)
Lemma page_data_ciphered K inode rw lblk_num src_page dest_page len offs st :
  page_data (ciphered K inode rw lblk_num src_page dest_page len offs st) dest_page
  = snd (crypto_skcipher K rw (ci_tfm (i_crypt_info inode))
           (fscrypt_generate_iv K (uninitialized_iv K (trace st)) lblk_num
              (i_crypt_info inode))
           (page_data st src_page) (page_data st dest_page) len offs).
Proof.
  unfold ciphered. rewrite page_data_log. unfold page_data at 1, set_page.
  cbn [pages]. rewrite lookup_insert_eq. reflexivity.
Qed.

(** A decrypt whose fingerprint the recovery index does not hold, with
    a valid length, a request and a result of 0 from the transform,
    whatever the local [iv] held. *)
Lemma fscrypt_crypt_block_decrypt_ok K inode lblk_num src_page dest_page len offs gfp st
    plain :
  0 < len -> len mod FSCRYPT_CONTENTS_ALIGNMENT K = 0 ->
  skcipher_request_alloc K (ci_tfm (i_crypt_info inode)) gfp = true ->
  finger_crypt_search K (hash_page_data K (page_data st src_page)) = None ->
  (forall uninit,
     crypto_skcipher K FS_DECRYPT (ci_tfm (i_crypt_info inode))
       (fscrypt_generate_iv K uninit lblk_num (i_crypt_info inode))
       (page_data st src_page) (page_data st dest_page) len offs = (0, plain)) ->
  fst (fscrypt_crypt_block K inode FS_DECRYPT lblk_num src_page dest_page len offs gfp st)
  = 0 /\
  page_data (snd (fscrypt_crypt_block K inode FS_DECRYPT lblk_num src_page dest_page
                    len offs gfp st)) dest_page = plain.
Proof.
  intros Hlen Hal Halloc Hnone Hc.
  unfold fscrypt_crypt_block. rewrite decrypt_pre_step_eq. cbv zeta.
  unfold recovered_lblk. rewrite Hnone.
  replace (len <=? 0) with false by lia.
  replace (len mod FSCRYPT_CONTENTS_ALIGNMENT K =? 0) with true by lia.
  rewrite Halloc. cbn [negb]. rewrite !page_data_log, Hc. cbn [negb Z.eqb].
  split; [reflexivity|].
  unfold snd. rewrite page_data_log. unfold page_data at 1, set_page.
  cbn [pages]. rewrite lookup_insert_eq. reflexivity.
Qed.

(** A decrypt with a valid length that gets no request returns
    [-ENOMEM]. *)
Lemma fscrypt_crypt_block_decrypt_nomem K inode lblk_num src_page dest_page len offs gfp
    st :
  0 < len -> len mod FSCRYPT_CONTENTS_ALIGNMENT K = 0 ->
  skcipher_request_alloc K (ci_tfm (i_crypt_info inode)) gfp = false ->
  fst (fscrypt_crypt_block K inode FS_DECRYPT lblk_num src_page dest_page len offs gfp st)
  = - ENOMEM.
Proof.
  intros Hlen Hal Halloc.
  unfold fscrypt_crypt_block. rewrite decrypt_pre_step_eq. cbv zeta.
  replace (len <=? 0) with false by lia.
  replace (len mod FSCRYPT_CONTENTS_ALIGNMENT K =? 0) with true by lia.
  rewrite Halloc. reflexivity.
Qed.

(** ** Initialization vectors *)

(** What a transform whose IVs have [ivsize] bytes reads of the union:
    its first [ivsize] bytes, so the low bytes of the little-endian
    [lblk_num], then the bytes of [nonce] below [ivsize], then the bytes
    behind the nonce below [ivsize]. *)
Definition iv_read (K : kernel) (ivsize : nat) (iv : fscrypt_iv)
    : Z * list byte * list byte :=
  (iv_lblk_num iv mod 2 ^ (8 * Z.of_nat (Nat.min ivsize 8)),
   firstn (ivsize - 8) (iv_nonce iv),
   firstn (ivsize - (8 + FSCRYPT_FILE_NONCE_SIZE K)) (iv_tail iv)).

(** After the [memset], a byte below [ivsize] is 0 and a byte from
    [ivsize] on is what the memory held. *)
Lemma nth_memset_iv_bytes (ivsize first n : nat) (bytes : list byte) (j : nat) :
  (j < n)%nat ->
  nth j (memset_iv_bytes ivsize first n bytes) NUL
  = if (first + j <? ivsize)%nat then NUL else nth j bytes NUL.
Proof.
  intros Hj. unfold memset_iv_bytes.
  rewrite (nth_indep _ NUL
             ((fun j => if (first + j <? ivsize)%nat then NUL else nth j bytes NUL) O))
    by (rewrite length_map, length_seq; exact Hj).
  rewrite (map_nth (fun j => if (first + j <? ivsize)%nat then NUL else nth j bytes NUL)).
  rewrite seq_nth by exact Hj. reflexivity.
Qed.

(** The bytes below [ivsize] do not depend on what the memory held. *)
Lemma firstn_memset_iv_bytes (ivsize first n : nat) (bytes bytes' : list byte) :
  firstn (ivsize - first) (memset_iv_bytes ivsize first n bytes)
  = firstn (ivsize - first) (memset_iv_bytes ivsize first n bytes').
Proof.
  unfold memset_iv_bytes. rewrite !firstn_map, take_seq.
  apply map_ext_in. intros j Hj.
  apply in_seq in Hj.
  replace (first + j <? ivsize)%nat with true; [reflexivity|].
  symmetry. apply Nat.ltb_lt. lia.
Qed.

(** Two IVs generated for the same block and key context are the same
    in the bytes a transform reads, whatever the memory held. *)
Lemma fscrypt_generate_iv_read K (iv iv' : fscrypt_iv) (lblk_num : Z) (ci : fscrypt_info) :
  iv_read K (ci_mode_ivsize ci) (fscrypt_generate_iv K iv lblk_num ci)
  = iv_read K (ci_mode_ivsize ci) (fscrypt_generate_iv K iv' lblk_num ci).
Proof.
  unfold fscrypt_generate_iv, iv_read. cbv zeta.
  destruct (negb (Z.land _ (FSCRYPT_POLICY_FLAG_IV_INO_LBLK_64 K) =? 0));
    [|destruct (negb (Z.land _ (FSCRYPT_POLICY_FLAG_IV_INO_LBLK_32 K) =? 0));
      [|destruct (negb (Z.land _ (FSCRYPT_POLICY_FLAG_DIRECT_KEY K) =? 0))]];
    cbn [iv_lblk_num iv_nonce iv_tail];
    rewrite ?(firstn_memset_iv_bytes _ 8 _ (iv_nonce iv) (iv_nonce iv'));
    rewrite (firstn_memset_iv_bytes _ _ _ (iv_tail iv) (iv_tail iv'));
    reflexivity.
Qed.

(** ** The in-place entry points, one after the other *)

(** X10.  Encrypt in place, then decrypt in place, for the same inode
    and block number.  Suppose that the decrypt transform undoes the
    encrypt transform under the inode's key for IVs that are the same in
    the [ivsize] bytes a transform reads; that
    [fscrypt_encrypt_block_inplace] returned 0; and that the recovery
    index holds no entry for the fingerprint of the ciphertext.  Then
    [fscrypt_decrypt_block_inplace] depends on the request it asks for
    with [GFP_NOFS]: if [skcipher_request_alloc] gives one, it returns 0
    and the page holds again what it held before the encrypt; if it
    gives none, it returns [-ENOMEM]. *)
Theorem inplace_encrypt_decrypt_round_trip (K : kernel) (inode : inode)
    (page len offs lblk_num gfp : Z) (st : state) :
  (forall iv iv' plain len offs,
     iv_read K (ci_mode_ivsize (i_crypt_info inode)) iv
     = iv_read K (ci_mode_ivsize (i_crypt_info inode)) iv' ->
     fst (crypto_skcipher K FS_ENCRYPT (ci_tfm (i_crypt_info inode)) iv plain plain
            len offs) = 0 ->
     crypto_skcipher K FS_DECRYPT (ci_tfm (i_crypt_info inode)) iv'
       (snd (crypto_skcipher K FS_ENCRYPT (ci_tfm (i_crypt_info inode)) iv plain plain
               len offs))
       (snd (crypto_skcipher K FS_ENCRYPT (ci_tfm (i_crypt_info inode)) iv plain plain
               len offs)) len offs
     = (0, plain)) ->
  fst (fscrypt_encrypt_block_inplace K inode page len offs lblk_num gfp st) = 0 ->
  finger_crypt_search K
    (hash_page_data K
       (snd (crypto_skcipher K FS_ENCRYPT (ci_tfm (i_crypt_info inode))
               (fscrypt_generate_iv K (uninitialized_iv K (trace st)) lblk_num
                  (i_crypt_info inode))
               (page_data st page) (page_data st page) len offs))) = None ->
  (skcipher_request_alloc K (ci_tfm (i_crypt_info inode)) (GFP_NOFS K) = true ->
   fst (fscrypt_decrypt_block_inplace K inode page len offs lblk_num
          (snd (fscrypt_encrypt_block_inplace K inode page len offs lblk_num gfp st)))
   = 0 /\
   page_data
     (snd (fscrypt_decrypt_block_inplace K inode page len offs lblk_num
             (snd (fscrypt_encrypt_block_inplace K inode page len offs lblk_num gfp st))))
     page
   = page_data st page) /\
  (skcipher_request_alloc K (ci_tfm (i_crypt_info inode)) (GFP_NOFS K) = false ->
   fst (fscrypt_decrypt_block_inplace K inode page len offs lblk_num
          (snd (fscrypt_encrypt_block_inplace K inode page len offs lblk_num gfp st)))
   = - ENOMEM).
Proof.
  unfold fscrypt_encrypt_block_inplace, fscrypt_decrypt_block_inplace.
  intros Hinv Hok Hnone.
  destruct (fscrypt_crypt_block_encrypt_ok_inv K inode lblk_num page page len offs gfp st
              Hok) as (Hlen & Hal & _ & Hres).
  split; [|intros Halloc; apply fscrypt_crypt_block_decrypt_nomem; assumption].
  intros Halloc.
  rewrite (fscrypt_crypt_block_encrypt_ok K inode lblk_num page page len offs gfp st Hok).
  refine (fscrypt_crypt_block_decrypt_ok K inode lblk_num page page len offs (GFP_NOFS K)
            (encrypt_post_step K inode page
               (ciphered K inode FS_ENCRYPT lblk_num page page len offs st))
            (page_data st page) Hlen Hal Halloc _ _).
  - rewrite (page_data_encrypt_post_step K inode page
               (ciphered K inode FS_ENCRYPT lblk_num page page len offs st) page).
    rewrite (page_data_ciphered K inode FS_ENCRYPT lblk_num page page len offs st).
    exact Hnone.
  - intros uninit.
    rewrite (page_data_encrypt_post_step K inode page
               (ciphered K inode FS_ENCRYPT lblk_num page page len offs st) page).
    rewrite (page_data_ciphered K inode FS_ENCRYPT lblk_num page page len offs st).
    exact (Hinv _ _ _ _ _
             (fscrypt_generate_iv_read K (uninitialized_iv K (trace st)) uninit lblk_num
                (i_crypt_info inode))
             Hres).
Qed.

(** A kernel whose transform mirrors the bytes, in both directions. *)
Definition mirror_kernel : kernel :=
  {| char_is_signed := true;
     FSCRYPT_CONTENTS_ALIGNMENT := 16;
     FSCRYPT_POLICY_FLAG_DIRECT_KEY := 4;
     FSCRYPT_POLICY_FLAG_IV_INO_LBLK_64 := 8;
     FSCRYPT_POLICY_FLAG_IV_INO_LBLK_32 := 16;
     FSCRYPT_FILE_NONCE_SIZE := 16;
     FSCRYPT_MAX_IV_SIZE := 32;
     PAGE_SHIFT := 12;
     GFP_NOFS := 0;
     hash_page_data := firstn 16;
     finger_crypt_search := fun _ => None;
     skcipher_request_alloc := fun _ _ => true;
     crypto_skcipher := fun _ _ _ src _ _ _ => (0, rev src);
     f2fs_iget := fun sb ino => mkInode ino sb 12 (mkInfo 0 ino 0 [] ino 16);
     PageLocked := fun _ => true;
     page_host := fun _ => mkInode 2 0 12 (mkInfo 0 2 0 [] 2 16);
     page_index := fun _ => 0;
     kmalloc_junk := fun _ => finger_ff;
     uninitialized_iv := fun calls =>
       match calls with
       | [] => mkIv 0 (repeat xff 16) (repeat xff 8)
       | _ :: _ => mkIv 1 (repeat x01 16) (repeat x01 8)
       end |}.

Lemma inplace_encrypt_decrypt_round_trip_witness :
  fst (fscrypt_decrypt_block_inplace mirror_kernel inode_7 1 4096 0 0
         (snd (fscrypt_encrypt_block_inplace mirror_kernel inode_7 1 4096 0 0 0
                 (fresh_state {[ 1 := finger_no_nul ]}))))
  = 0 /\
  page_data
    (snd (fscrypt_decrypt_block_inplace mirror_kernel inode_7 1 4096 0 0
            (snd (fscrypt_encrypt_block_inplace mirror_kernel inode_7 1 4096 0 0 0
                    (fresh_state {[ 1 := finger_no_nul ]})))))
    1
  = page_data (fresh_state {[ 1 := finger_no_nul ]}) 1.
Proof.
  refine (proj1 (inplace_encrypt_decrypt_round_trip mirror_kernel inode_7 1 4096 0 0 0
                   (fresh_state {[ 1 := finger_no_nul ]}) _ eq_refl eq_refl) eq_refl).
  intros iv iv' plain len offs _ _. cbn. rewrite rev_involutive. reflexivity.
Defined.

Lemma land_low_high (l h : Z) : 0 <= l < 2 ^ 32 -> Z.land l (h * 2 ^ 32) = 0.
Proof.
  intros Hl. apply Z.bits_inj'. intros n Hn.
  rewrite Z.land_spec, Z.bits_0.
  destruct (Z.lt_ge_cases n 32) as [Hlow|Hhigh].
  - rewrite Z.mul_pow2_bits_low by lia. apply andb_false_r.
  - destruct (Z.eq_dec l 0) as [->|Hnz]; [now rewrite Z.bits_0|].
    rewrite (Z.bits_above_log2 l n); [reflexivity | lia |].
    assert (Z.log2 l < 32) by (apply Z.log2_lt_pow2; lia). lia.
Qed.

(** The block number field under [IV_INO_LBLK_64]. *)
Lemma iv_ino_lblk_64_field (lblk_num ino_num : Z) :
  0 <= lblk_num < 2 ^ 32 -> 0 <= ino_num < 2 ^ 32 ->
  Z.lor lblk_num (to_u64 (Z.shiftl ino_num 32)) = lblk_num + ino_num * 2 ^ 32.
Proof.
  intros Hl Hi. rewrite Z.shiftl_mul_pow2 by lia.
  unfold to_u64. rewrite Z.mod_small by lia.
  symmetry. apply Z.add_nocarry_lor. now apply land_low_high.
Qed.

(** Without [DIRECT_KEY] taking effect, the nonce bytes are what the
    [memset] left. *)
Lemma fscrypt_generate_iv_nonce_memset K (iv : fscrypt_iv) (lblk_num : Z)
    (ci : fscrypt_info) :
  Z.land (ci_policy_flags ci) (FSCRYPT_POLICY_FLAG_IV_INO_LBLK_64 K) <> 0
  \/ Z.land (ci_policy_flags ci) (FSCRYPT_POLICY_FLAG_IV_INO_LBLK_32 K) <> 0 ->
  iv_nonce (fscrypt_generate_iv K iv lblk_num ci)
  = memset_iv_bytes (ci_mode_ivsize ci) 8 (FSCRYPT_FILE_NONCE_SIZE K) (iv_nonce iv).
Proof.
  intros H. unfold fscrypt_generate_iv. cbv zeta.
  destruct (Z.land _ (FSCRYPT_POLICY_FLAG_IV_INO_LBLK_64 K) =? 0) eqn:H64; cbn [negb];
    [|reflexivity].
  destruct (Z.land _ (FSCRYPT_POLICY_FLAG_IV_INO_LBLK_32 K) =? 0) eqn:H32; cbn [negb];
    [|reflexivity].
  exfalso. destruct H as [H|H]; apply H; lia.
Qed.

(** X11.  Under [FSCRYPT_POLICY_FLAG_IV_INO_LBLK_64], for a block number
    and an inode number that fit in 32 bits (what the two [WARN_ON_ONCE]
    ask for), whatever the other flags and whatever the memory of the IV
    held before: the field [lblk_num] of the IV holds the block number
    in its low 32 bits and the inode number in the next 32; a nonce byte
    whose offset in the union, 8 more than its index, is below
    [ci->ci_mode->ivsize] is 0, and each other nonce byte is what the
    memory held; the fields [lblk_num] of two such IVs are equal exactly
    for the same block of the same inode, so two equal IVs are of the
    same block of the same inode. *)
Theorem fscrypt_generate_iv_ino_lblk_64 (K : kernel) (iv iv' : fscrypt_iv)
    (lblk_num lblk_num' : Z) (ci ci' : fscrypt_info) :
  Z.land (ci_policy_flags ci) (FSCRYPT_POLICY_FLAG_IV_INO_LBLK_64 K) <> 0 ->
  Z.land (ci_policy_flags ci') (FSCRYPT_POLICY_FLAG_IV_INO_LBLK_64 K) <> 0 ->
  0 <= lblk_num < 2 ^ 32 -> 0 <= ci_inode_ino ci < 2 ^ 32 ->
  0 <= lblk_num' < 2 ^ 32 -> 0 <= ci_inode_ino ci' < 2 ^ 32 ->
  iv_lblk_num (fscrypt_generate_iv K iv lblk_num ci)
  = lblk_num + ci_inode_ino ci * 2 ^ 32 /\
  (forall j : nat,
     (j < FSCRYPT_FILE_NONCE_SIZE K)%nat ->
     nth j (iv_nonce (fscrypt_generate_iv K iv lblk_num ci)) NUL
     = if (8 + j <? ci_mode_ivsize ci)%nat then NUL else nth j (iv_nonce iv) NUL) /\
  (iv_lblk_num (fscrypt_generate_iv K iv lblk_num ci)
   = iv_lblk_num (fscrypt_generate_iv K iv' lblk_num' ci') <->
   lblk_num = lblk_num' /\ ci_inode_ino ci = ci_inode_ino ci') /\
  (fscrypt_generate_iv K iv lblk_num ci = fscrypt_generate_iv K iv' lblk_num' ci' ->
   lblk_num = lblk_num' /\ ci_inode_ino ci = ci_inode_ino ci').
Proof.
  intros Hf Hf' Hl Hi Hl' Hi'.
  assert (E : forall v l c,
             Z.land (ci_policy_flags c) (FSCRYPT_POLICY_FLAG_IV_INO_LBLK_64 K) <> 0 ->
             0 <= l < 2 ^ 32 -> 0 <= ci_inode_ino c < 2 ^ 32 ->
             iv_lblk_num (fscrypt_generate_iv K v l c) = l + ci_inode_ino c * 2 ^ 32).
  { intros v l c Hc Hlr Hir. unfold fscrypt_generate_iv. cbv zeta.
    apply Z.eqb_neq in Hc. rewrite Hc. cbn [negb iv_lblk_num].
    apply iv_ino_lblk_64_field; assumption. }
  assert (F : iv_lblk_num (fscrypt_generate_iv K iv lblk_num ci)
              = iv_lblk_num (fscrypt_generate_iv K iv' lblk_num' ci') ->
              lblk_num = lblk_num' /\ ci_inode_ino ci = ci_inode_ino ci').
  { rewrite (E _ _ _ Hf Hl Hi), (E _ _ _ Hf' Hl' Hi'). lia. }
  split; [now apply E|]. split; [|split].
  - intros j Hj. rewrite fscrypt_generate_iv_nonce_memset by (left; exact Hf).
    apply nth_memset_iv_bytes. exact Hj.
  - split; [exact F|].
    intros [-> Hino]. rewrite (E _ _ _ Hf Hl' Hi), (E _ _ _ Hf' Hl' Hi'), Hino.
    reflexivity.
  - intros Eq. apply F. now rewrite Eq.
Qed.

(** X11 on inode 7, block 5, a transform with IVs of 16 bytes and a
    memory full of 0xff: nonce byte 7 is cleared, nonce byte 8 is not. *)
Lemma fscrypt_generate_iv_ino_lblk_64_witness :
  iv_lblk_num (fscrypt_generate_iv (example_kernel true (fun _ => finger_ff))
                 (mkIv 0 (repeat xff 16) (repeat xff 8)) 5 (mkInfo 8 7 0 [] 7 16))
  = 5 + 7 * 2 ^ 32 /\
  nth 7 (iv_nonce (fscrypt_generate_iv (example_kernel true (fun _ => finger_ff))
                     (mkIv 0 (repeat xff 16) (repeat xff 8)) 5 (mkInfo 8 7 0 [] 7 16)))
    NUL = NUL /\
  nth 8 (iv_nonce (fscrypt_generate_iv (example_kernel true (fun _ => finger_ff))
                     (mkIv 0 (repeat xff 16) (repeat xff 8)) 5 (mkInfo 8 7 0 [] 7 16)))
    NUL = xff.
Proof.
  assert (H64 : Z.land 8 8 <> 0) by (vm_compute; discriminate).
  assert (H64' : Z.land 12 8 <> 0) by (vm_compute; discriminate).
  assert (Hl : 0 <= 5 < 2 ^ 32) by lia.
  assert (Hi : 0 <= 7 < 2 ^ 32) by lia.
  assert (Hl' : 0 <= 6 < 2 ^ 32) by lia.
  assert (Hi' : 0 <= 9 < 2 ^ 32) by lia.
  destruct (fscrypt_generate_iv_ino_lblk_64
              (example_kernel true (fun _ => finger_ff))
              (mkIv 0 (repeat xff 16) (repeat xff 8)) (mkIv 0 [] [])
              5 6 (mkInfo 8 7 0 [] 7 16) (mkInfo 12 9 0 [] 9 16) H64 H64' Hl Hi Hl' Hi')
    as (Hfield & Hnonce & _).
  split; [exact Hfield|].
  split; [exact (Hnonce 7%nat ltac:(cbn; lia)) | exact (Hnonce 8%nat ltac:(cbn; lia))].
Defined.

(** X12.  Under [FSCRYPT_POLICY_FLAG_IV_INO_LBLK_32] without
    [IV_INO_LBLK_64], whatever the memory of the IV held before: the
    field [lblk_num] of the IV is the sum of the hashed inode number and
    the block number cut to 32 bits; a nonce byte whose offset in the
    union is below [ci->ci_mode->ivsize] is 0, and each other nonce byte
    is what the memory held; the fields [lblk_num] of two such IVs are
    equal exactly when those sums are equal modulo 2^32.  When they are,
    and the two transforms have IVs of the same size, the two IVs are
    the same in the bytes a transform reads: so the IVs of one file
    repeat every 2^32 blocks, and two files share IVs where their sums
    meet. *)
Theorem fscrypt_generate_iv_ino_lblk_32 (K : kernel) (iv iv' : fscrypt_iv)
    (lblk_num lblk_num' : Z) (ci ci' : fscrypt_info) :
  Z.land (ci_policy_flags ci) (FSCRYPT_POLICY_FLAG_IV_INO_LBLK_64 K) = 0 ->
  Z.land (ci_policy_flags ci) (FSCRYPT_POLICY_FLAG_IV_INO_LBLK_32 K) <> 0 ->
  Z.land (ci_policy_flags ci') (FSCRYPT_POLICY_FLAG_IV_INO_LBLK_64 K) = 0 ->
  Z.land (ci_policy_flags ci') (FSCRYPT_POLICY_FLAG_IV_INO_LBLK_32 K) <> 0 ->
  iv_lblk_num (fscrypt_generate_iv K iv lblk_num ci)
  = (ci_hashed_ino ci + lblk_num) mod 2 ^ 32 /\
  (forall j : nat,
     (j < FSCRYPT_FILE_NONCE_SIZE K)%nat ->
     nth j (iv_nonce (fscrypt_generate_iv K iv lblk_num ci)) NUL
     = if (8 + j <? ci_mode_ivsize ci)%nat then NUL else nth j (iv_nonce iv) NUL) /\
  (iv_lblk_num (fscrypt_generate_iv K iv lblk_num ci)
   = iv_lblk_num (fscrypt_generate_iv K iv' lblk_num' ci') <->
   (ci_hashed_ino ci + lblk_num) mod 2 ^ 32
   = (ci_hashed_ino ci' + lblk_num') mod 2 ^ 32) /\
  ((ci_hashed_ino ci + lblk_num) mod 2 ^ 32
   = (ci_hashed_ino ci' + lblk_num') mod 2 ^ 32 ->
   ci_mode_ivsize ci = ci_mode_ivsize ci' ->
   iv_read K (ci_mode_ivsize ci) (fscrypt_generate_iv K iv lblk_num ci)
   = iv_read K (ci_mode_ivsize ci') (fscrypt_generate_iv K iv' lblk_num' ci')).
Proof.
  intros H64 H32 H64' H32'.
  assert (E : forall v l c,
             Z.land (ci_policy_flags c) (FSCRYPT_POLICY_FLAG_IV_INO_LBLK_64 K) = 0 ->
             Z.land (ci_policy_flags c) (FSCRYPT_POLICY_FLAG_IV_INO_LBLK_32 K) <> 0 ->
             fscrypt_generate_iv K v l c
             = mkIv ((ci_hashed_ino c + l) mod 2 ^ 32)
                 (memset_iv_bytes (ci_mode_ivsize c) 8 (FSCRYPT_FILE_NONCE_SIZE K)
                    (iv_nonce v))
                 (memset_iv_bytes (ci_mode_ivsize c) (8 + FSCRYPT_FILE_NONCE_SIZE K)
                    (FSCRYPT_MAX_IV_SIZE K - (8 + FSCRYPT_FILE_NONCE_SIZE K))
                    (iv_tail v))).
  { intros v l c Hc Hd. unfold fscrypt_generate_iv. cbv zeta.
    rewrite Hc. apply Z.eqb_neq in Hd. rewrite Hd. cbn [negb Z.eqb].
    unfold to_uint, to_u64.
    rewrite Z.mod_mod_divide by (exists (2 ^ 32); reflexivity). reflexivity. }
  rewrite (E _ _ _ H64 H32), (E _ _ _ H64' H32'). cbn [iv_lblk_num iv_nonce].
  split; [reflexivity|]. split; [|split].
  - intros j Hj. apply nth_memset_iv_bytes. exact Hj.
  - reflexivity.
  - intros Hsum Hsize. unfold iv_read. cbn [iv_lblk_num iv_nonce iv_tail].
    rewrite <- Hsize, Hsum.
    rewrite (firstn_memset_iv_bytes _ 8 _ (iv_nonce iv) (iv_nonce iv')).
    rewrite (firstn_memset_iv_bytes _ _ _ (iv_tail iv) (iv_tail iv')).
    reflexivity.
Qed.

(** X12 on one file: blocks 5 and 5 + 2^32 get the same field
    [lblk_num], whatever the memory held. *)
Lemma fscrypt_generate_iv_ino_lblk_32_witness :
  iv_lblk_num (fscrypt_generate_iv (example_kernel true (fun _ => finger_ff))
                 (mkIv 0 (repeat xff 16) (repeat xff 8)) 5 (mkInfo 16 7 3 [] 7 16))
  = iv_lblk_num (fscrypt_generate_iv (example_kernel true (fun _ => finger_ff))
                   (mkIv 1 (repeat x01 16) (repeat x01 8)) (5 + 2 ^ 32)
                   (mkInfo 16 7 3 [] 7 16)).
Proof.
  assert (H64 : Z.land 16 8 = 0) by reflexivity.
  assert (H32 : Z.land 16 16 <> 0) by (vm_compute; discriminate).
  refine (proj2 (proj1 (proj2 (proj2 (fscrypt_generate_iv_ino_lblk_32
                          (example_kernel true (fun _ => finger_ff))
                          (mkIv 0 (repeat xff 16) (repeat xff 8))
                          (mkIv 1 (repeat x01 16) (repeat x01 8))
                          5 (5 + 2 ^ 32)
                          (mkInfo 16 7 3 [] 7 16) (mkInfo 16 7 3 [] 7 16)
                          H64 H32 H64 H32)))) _).
  reflexivity.
Defined.

(** * The rest of the file: bounce pages, the page-level encrypt, set-up *)

(** Calls that leave the file from the functions below, oldest first,
    with what they returned. *)
Inductive call :=
| EvMempoolAlloc (pool : option Z) (gfp_flags : Z) (page : option Z)
    (* mempool_alloc(pool, gfp_flags) *)
| EvMempoolFree (page : Z) (pool : option Z)         (* mempool_free(page, pool) *)
| EvMutexLock                                        (* mutex_lock(&fscrypt_init_mutex) *)
| EvMutexUnlock                                      (* mutex_unlock(&fscrypt_init_mutex) *)
| EvMempoolCreatePagePool (min_nr order : Z) (pool : option Z)
    (* mempool_create_page_pool(min_nr, order) *)
| EvAllocWorkqueue (wq : option Z)                   (* alloc_workqueue(..) *)
| EvKmemCacheCreate (cachep : option Z)              (* KMEM_CACHE(fscrypt_info, ..) *)
| EvInitKeyring (err : Z)                            (* fscrypt_init_keyring() *)
| EvKmemCacheDestroy (cachep : option Z)             (* kmem_cache_destroy(cachep) *)
| EvDestroyWorkqueue (wq : option Z)                 (* destroy_workqueue(wq) *)
| EvQueueWork (wq : option Z) (work : Z).            (* queue_work(wq, work) *)

(** The globals of the file besides [cryptArray], the two fields of
    [struct page] that the file writes, and the calls made.  A pointer is
    [None] when it is NULL. *)
Record module_state := mkModule {
  index : state;
  fscrypt_bounce_page_pool : option Z;
  fscrypt_read_workqueue : option Z;
  fscrypt_info_cachep : option Z;
  num_prealloc_crypto_pages : Z;
  page_private : gmap Z Z;        (* page->private *)
  PagePrivate : gset Z;           (* the pages whose PG_private bit is set *)
  calls : list call
}.

Definition set_index (st : state) (ms : module_state) : module_state :=
  mkModule st (fscrypt_bounce_page_pool ms) (fscrypt_read_workqueue ms)
    (fscrypt_info_cachep ms) (num_prealloc_crypto_pages ms) (page_private ms)
    (PagePrivate ms) (calls ms).
Definition set_bounce_page_pool (pool : option Z) (ms : module_state) : module_state :=
  mkModule (index ms) pool (fscrypt_read_workqueue ms) (fscrypt_info_cachep ms)
    (num_prealloc_crypto_pages ms) (page_private ms) (PagePrivate ms) (calls ms).
Definition set_read_workqueue (wq : option Z) (ms : module_state) : module_state :=
  mkModule (index ms) (fscrypt_bounce_page_pool ms) wq (fscrypt_info_cachep ms)
    (num_prealloc_crypto_pages ms) (page_private ms) (PagePrivate ms) (calls ms).
Definition set_info_cachep (cachep : option Z) (ms : module_state) : module_state :=
  mkModule (index ms) (fscrypt_bounce_page_pool ms) (fscrypt_read_workqueue ms) cachep
    (num_prealloc_crypto_pages ms) (page_private ms) (PagePrivate ms) (calls ms).
(** [set_page_private(page, private)] *)
Definition set_page_private (page private : Z) (ms : module_state) : module_state :=
  mkModule (index ms) (fscrypt_bounce_page_pool ms) (fscrypt_read_workqueue ms)
    (fscrypt_info_cachep ms) (num_prealloc_crypto_pages ms)
    (<[page := private]> (page_private ms)) (PagePrivate ms) (calls ms).
(** [SetPagePrivate(page)] and [ClearPagePrivate(page)] *)
Definition SetPagePrivate (page : Z) (ms : module_state) : module_state :=
  mkModule (index ms) (fscrypt_bounce_page_pool ms) (fscrypt_read_workqueue ms)
    (fscrypt_info_cachep ms) (num_prealloc_crypto_pages ms) (page_private ms)
    ({[ page ]} ∪ PagePrivate ms) (calls ms).
Definition ClearPagePrivate (page : Z) (ms : module_state) : module_state :=
  mkModule (index ms) (fscrypt_bounce_page_pool ms) (fscrypt_read_workqueue ms)
    (fscrypt_info_cachep ms) (num_prealloc_crypto_pages ms) (page_private ms)
    (PagePrivate ms ∖ {[ page ]}) (calls ms).
Definition log_call (c : call) (ms : module_state) : module_state :=
  mkModule (index ms) (fscrypt_bounce_page_pool ms) (fscrypt_read_workqueue ms)
    (fscrypt_info_cachep ms) (num_prealloc_crypto_pages ms) (page_private ms)
    (PagePrivate ms) (calls ms ++ [c]).

(** What the functions below take from the rest of the kernel.  What an
    allocator returns may depend on everything that happened before, so
    each one is given the calls made so far. *)
Record mm := mkMm {
  FS_CFLG_OWN_PAGES : Z;
  (** [mempool_alloc(pool, gfp_flags)]: a page, or NULL. *)
  mempool_alloc : option Z -> Z -> list call -> option Z;
  (** [mempool_create_page_pool(min_nr, order)]: a pool, or NULL. *)
  mempool_create_page_pool : Z -> Z -> list call -> option Z;
  (** [alloc_workqueue("fscrypt_read_queue", WQ_UNBOUND | WQ_HIGHPRI,
      num_online_cpus())]: a workqueue, or NULL. *)
  alloc_workqueue : list call -> option Z;
  (** [KMEM_CACHE(fscrypt_info, SLAB_RECLAIM_ACCOUNT)]: a cache, or NULL. *)
  KMEM_CACHE : list call -> option Z;
  (** [fscrypt_init_keyring()]: 0 or an error. *)
  fscrypt_init_keyring : list call -> Z
}.

(** What [fscrypt_encrypt_pagecache_blocks] returns: a page, or
    [ERR_PTR(err)]. *)
Inductive page_or_err :=
| Page (page : Z)
| ERR_PTR (err : Z).

(** The loop of [fscrypt_encrypt_pagecache_blocks] (lines 330-338), one
    iteration per unit of [fuel]; [None] is "out of fuel".
    [crypt_block lblk_num i] is the call in its body.  A result
    [Some (err, st)] with [err] other than 0 is the exit through
    [if (err)]: the caller frees the bounce page and returns
    [ERR_PTR(err)]. *)
Fixpoint encrypt_blocks (crypt_block : Z -> Z -> state -> Z * state) (fuel : nat)
    (blocksize bound i lblk_num : Z) (st : state) : option (Z * state) :=
  match fuel with
  | O => None
  | S fuel' =>
      if i <? bound then
        let '(err, st) := crypt_block lblk_num i st in
        if negb (err =? 0) then Some (err, st)
        else encrypt_blocks crypt_block fuel' blocksize bound
               (to_uint (i + blocksize)) (to_u64 (lblk_num + 1)) st
      else Some (0, st)
  end.

Section BouncePages.

Variable M : mm.
Variable K : kernel.

(** [fscrypt_enqueue_decrypt_work] *)
Definition fscrypt_enqueue_decrypt_work (work : Z) (ms : module_state) : module_state :=
  log_call (EvQueueWork (fscrypt_read_workqueue ms) work) ms.

(** [fscrypt_alloc_bounce_page] *)
Definition fscrypt_alloc_bounce_page (gfp_flags : Z) (ms : module_state)
    : option Z * module_state :=
  let page := mempool_alloc M (fscrypt_bounce_page_pool ms) gfp_flags (calls ms) in
  (page, log_call (EvMempoolAlloc (fscrypt_bounce_page_pool ms) gfp_flags page) ms).

(** [fscrypt_free_bounce_page] *)
Definition fscrypt_free_bounce_page (bounce_page : option Z) (ms : module_state)
    : module_state :=
  match bounce_page with
  | None => ms
  | Some bounce_page =>
      let ms := set_page_private bounce_page 0 ms in
      let ms := ClearPagePrivate bounce_page ms in
      log_call (EvMempoolFree bounce_page (fscrypt_bounce_page_pool ms)) ms
  end.

(** [fscrypt_encrypt_pagecache_blocks] *)
Definition fscrypt_encrypt_pagecache_blocks (fuel : nat) (page : Z) (len offs : Z)
    (gfp_flags : Z) (ms : module_state) : option (page_or_err * module_state) :=
  let inode := page_host K page in
  let blockbits := i_blkbits inode in
  let blocksize := to_uint (Z.shiftl 1 blockbits) in
  let lblk_num :=
    to_u64 (to_u64 (Z.shiftl (page_index K page) (PAGE_SHIFT K - blockbits))
            + Z.shiftr offs blockbits) in
  if negb (PageLocked K page) then Some (ERR_PTR (- EINVAL), ms)
  else if (len <=? 0) || negb (IS_ALIGNED (Z.lor len offs) blocksize) then
    Some (ERR_PTR (- EINVAL), ms)
  else
    let '(ciphertext_page, ms) := fscrypt_alloc_bounce_page gfp_flags ms in
    match ciphertext_page with
    | None => Some (ERR_PTR (- ENOMEM), ms)
    | Some ciphertext_page =>
        match encrypt_blocks
                (fun lblk_num i =>
                   fscrypt_crypt_block K inode FS_ENCRYPT lblk_num page ciphertext_page
                     blocksize i gfp_flags)
                fuel blocksize (to_uint (offs + len)) offs lblk_num (index ms) with
        | None => None
        | Some (err, st) =>
            let ms := set_index st ms in
            if negb (err =? 0) then
              Some (ERR_PTR err, fscrypt_free_bounce_page (Some ciphertext_page) ms)
            else
              let ms := SetPagePrivate ciphertext_page ms in
              let ms := set_page_private ciphertext_page page ms in
              Some (Page ciphertext_page, ms)
        end
    end.

(** [fscrypt_initialize] *)
Definition fscrypt_initialize (cop_flags : Z) (ms : module_state) : Z * module_state :=
  if negb (Z.land cop_flags (FS_CFLG_OWN_PAGES M) =? 0) then (0, ms)
  else
    let ms := log_call EvMutexLock ms in
    match fscrypt_bounce_page_pool ms with
    | Some _ => (0, log_call EvMutexUnlock ms)
    | None =>
        let pool :=
          mempool_create_page_pool M (num_prealloc_crypto_pages ms) 0 (calls ms) in
        let ms :=
          log_call (EvMempoolCreatePagePool (num_prealloc_crypto_pages ms) 0 pool) ms in
        let ms := set_bounce_page_pool pool ms in
        match pool with
        | None => (- ENOMEM, log_call EvMutexUnlock ms)
        | Some _ => (0, log_call EvMutexUnlock ms)
        end
    end.

(** [fscrypt_init] *)
Definition fscrypt_init (ms : module_state) : Z * module_state :=
  let wq := alloc_workqueue M (calls ms) in
  let ms := set_read_workqueue wq (log_call (EvAllocWorkqueue wq) ms) in
  match wq with
  | None => (- ENOMEM, ms)
  | Some _ =>
      let cachep := KMEM_CACHE M (calls ms) in
      let ms := set_info_cachep cachep (log_call (EvKmemCacheCreate cachep) ms) in
      match cachep with
      | None =>
          (- ENOMEM, log_call (EvDestroyWorkqueue (fscrypt_read_workqueue ms)) ms)
      | Some _ =>
          let err := fscrypt_init_keyring M (calls ms) in
          let ms := log_call (EvInitKeyring err) ms in
          if negb (err =? 0) then
            let ms := log_call (EvKmemCacheDestroy (fscrypt_info_cachep ms)) ms in
            (err, log_call (EvDestroyWorkqueue (fscrypt_read_workqueue ms)) ms)
          else (0, ms)
      end
  end.

End BouncePages.

Arguments fscrypt_encrypt_pagecache_blocks : simpl never.

(** ** The page-level encrypt *)

(** When a check fails nothing is done. *)
Lemma encrypt_pagecache_refused M K fuel page len offs gfp_flags ms :
  page_checks K page len offs = false ->
  fscrypt_encrypt_pagecache_blocks M K fuel page len offs gfp_flags ms
  = Some (ERR_PTR (- EINVAL), ms).
Proof.
  unfold page_checks, fscrypt_encrypt_pagecache_blocks, page_blocksize. cbv zeta.
  destruct (PageLocked K page); cbn [negb andb]; [|reflexivity].
  destruct (_ || _); cbn [negb]; [reflexivity | discriminate].
Qed.

(** X13.  [fscrypt_encrypt_pagecache_blocks] checks before it does
    anything: for a page that is not locked, a length that is not
    positive, or a length or offset that is not a multiple of the block
    size, it returns [ERR_PTR(-EINVAL)] and nothing has been allocated,
    called or changed. *)
Theorem fscrypt_encrypt_pagecache_blocks_refused (M : mm) (K : kernel) (fuel : nat)
    (page len offs gfp_flags : Z) (ms : module_state) :
  PageLocked K page = false \/ len <= 0
  \/ IS_ALIGNED (Z.lor len offs) (page_blocksize K page) = false ->
  fscrypt_encrypt_pagecache_blocks M K fuel page len offs gfp_flags ms
  = Some (ERR_PTR (- EINVAL), ms).
Proof.
  intros Hbad. apply encrypt_pagecache_refused. unfold page_checks.
  destruct Hbad as [Hl | [Hlen | Hal]].
  - rewrite Hl. reflexivity.
  - replace (len <=? 0) with true by lia. cbn [orb negb]. apply andb_false_r.
  - rewrite Hal. cbn [negb]. rewrite orb_true_r. cbn [negb]. apply andb_false_r.
Qed.

(** A module in which nothing was set up or called, over a fresh
    index. *)
Definition fresh_module (pg : gmap Z (list byte)) : module_state :=
  mkModule (fresh_state pg) None None None 32 ∅ ∅ [].

(** Collaborators for the examples: page 100 is what the pool hands out,
    every creation succeeds. *)
Definition example_mm : mm :=
  {| FS_CFLG_OWN_PAGES := 1;
     mempool_alloc := fun _ _ _ => Some 100;
     mempool_create_page_pool := fun _ _ _ => Some 200;
     alloc_workqueue := fun _ => Some 300;
     KMEM_CACHE := fun _ => Some 400;
     fscrypt_init_keyring := fun _ => 0 |}.

Lemma fscrypt_encrypt_pagecache_blocks_refused_witness :
  fscrypt_encrypt_pagecache_blocks example_mm (example_kernel true (fun _ => finger_ff))
    0 1 0 0 0 (fresh_module {[ 1 := finger_one ]})
  = Some (ERR_PTR (- EINVAL), fresh_module {[ 1 := finger_one ]}).
Proof.
  apply fscrypt_encrypt_pagecache_blocks_refused. right. left. lia.
Defined.

(** When the checks pass, the bounce page is asked for. *)
Lemma encrypt_pagecache_accepted M K fuel page len offs gfp_flags ms :
  page_checks K page len offs = true ->
  fscrypt_encrypt_pagecache_blocks M K fuel page len offs gfp_flags ms
  = match mempool_alloc M (fscrypt_bounce_page_pool ms) gfp_flags (calls ms) with
    | None =>
        Some (ERR_PTR (- ENOMEM),
              log_call (EvMempoolAlloc (fscrypt_bounce_page_pool ms) gfp_flags None) ms)
    | Some ciphertext_page =>
        match encrypt_blocks
                (fun lblk_num i =>
                   fscrypt_crypt_block K (page_host K page) FS_ENCRYPT lblk_num page
                     ciphertext_page (page_blocksize K page) i gfp_flags)
                fuel (page_blocksize K page) (to_uint (offs + len)) offs
                (page_lblk_num K page offs) (index ms) with
        | None => None
        | Some (err, st) =>
            if negb (err =? 0) then
              Some (ERR_PTR err,
                    fscrypt_free_bounce_page (Some ciphertext_page)
                      (set_index st
                         (log_call (EvMempoolAlloc (fscrypt_bounce_page_pool ms) gfp_flags
                                      (Some ciphertext_page)) ms)))
            else
              Some (Page ciphertext_page,
                    set_page_private ciphertext_page page
                      (SetPagePrivate ciphertext_page
                         (set_index st
                            (log_call (EvMempoolAlloc (fscrypt_bounce_page_pool ms)
                                         gfp_flags (Some ciphertext_page)) ms))))
        end
    end.
Proof.
  unfold page_checks, fscrypt_encrypt_pagecache_blocks, page_blocksize, page_lblk_num,
    fscrypt_alloc_bounce_page.
  cbv zeta.
  destruct (PageLocked K page); cbn [negb andb]; [|discriminate].
  destruct (_ || _); cbn [negb]; [discriminate|]. intros _.
  destruct (mempool_alloc M _ _ _); reflexivity.
Qed.

(** X14.  What becomes of the bounce page in
    [fscrypt_encrypt_pagecache_blocks].  When the checks pass and the
    function returns, one of three things has happened.  The pool gave
    no page: the result is [ERR_PTR(-ENOMEM)] and nothing but that one
    call was made.  Or a block failed with [err]: the result is
    [ERR_PTR(err)], and the page the pool gave went back to the pool,
    its private word 0 and its private bit clear.  Or every block
    succeeded: the result is the page the pool gave, never given back,
    its private bit set and its private word the source page.  So a
    bounce page is either returned to the caller or to the pool. *)
Theorem fscrypt_encrypt_pagecache_blocks_bounce_page (M : mm) (K : kernel) (fuel : nat)
    (page len offs gfp_flags : Z) (ms ms' : module_state) (res : page_or_err) :
  page_checks K page len offs = true ->
  fscrypt_encrypt_pagecache_blocks M K fuel page len offs gfp_flags ms = Some (res, ms') ->
  (res = ERR_PTR (- ENOMEM) /\
   ms' = log_call (EvMempoolAlloc (fscrypt_bounce_page_pool ms) gfp_flags None) ms)
  \/ (exists ciphertext_page err,
        err <> 0 /\ res = ERR_PTR err /\
        calls ms' = calls ms
                    ++ [EvMempoolAlloc (fscrypt_bounce_page_pool ms) gfp_flags
                          (Some ciphertext_page);
                        EvMempoolFree ciphertext_page (fscrypt_bounce_page_pool ms)] /\
        page_private ms' !! ciphertext_page = Some 0 /\
        ciphertext_page ∉ PagePrivate ms')
  \/ (exists ciphertext_page,
        res = Page ciphertext_page /\
        calls ms' = calls ms
                    ++ [EvMempoolAlloc (fscrypt_bounce_page_pool ms) gfp_flags
                          (Some ciphertext_page)] /\
        page_private ms' !! ciphertext_page = Some page /\
        ciphertext_page ∈ PagePrivate ms').
Proof.
  intros Hchk. rewrite (encrypt_pagecache_accepted M K fuel page len offs gfp_flags ms Hchk).
  destruct (mempool_alloc M _ _ _) as [cp|].
  2:{ intros H. injection H as <- <-. left. split; reflexivity. }
  destruct (encrypt_blocks _ _ _ _ _ _ _) as [[err st]|]; [|discriminate].
  destruct (err =? 0) eqn:He; cbn [negb]; intros H.
  - right. right. exists cp.
    assert (Hres : res = Page cp) by congruence.
    assert (Hms : ms' = set_page_private cp page
                          (SetPagePrivate cp
                             (set_index st
                                (log_call (EvMempoolAlloc (fscrypt_bounce_page_pool ms)
                                             gfp_flags (Some cp)) ms)))) by congruence.
    split; [exact Hres|]. rewrite Hms. cbn.
    split; [reflexivity|]. split; [apply lookup_insert_eq|].
    apply elem_of_union_l, elem_of_singleton. reflexivity.
  - right. left. exists cp, err.
    assert (Hres : res = ERR_PTR err) by congruence.
    assert (Hms : ms' = fscrypt_free_bounce_page (Some cp)
                          (set_index st
                             (log_call (EvMempoolAlloc (fscrypt_bounce_page_pool ms)
                                          gfp_flags (Some cp)) ms))) by congruence.
    split; [lia|]. split; [exact Hres|]. rewrite Hms. cbn.
    split; [now rewrite <- app_assoc|]. split; [apply lookup_insert_eq|].
    intros Hin. apply elem_of_difference in Hin as [_ Hn].
    apply Hn, elem_of_singleton. reflexivity.
Qed.

(** The loop of the page-level encrypt terminates, like the one of the
    page-level decrypt. *)
Lemma encrypt_blocks_total crypt_block blocksize bound :
  0 < blocksize -> bound mod blocksize = 0 -> 0 <= bound < 2 ^ 32 ->
  forall (fuel : nat) i lblk_num st,
    0 <= i -> i mod blocksize = 0 -> (Z.to_nat (bound - i) < fuel)%nat ->
    exists res, encrypt_blocks crypt_block fuel blocksize bound i lblk_num st = Some res.
Proof.
  intros Hbs Hbound Hrange fuel.
  induction fuel as [|fuel IH]; intros i lblk_num st Hi Hmod Hfuel; [lia|].
  cbn [encrypt_blocks]. destruct (i <? bound) eqn:Hlt; [|eauto].
  destruct (crypt_block lblk_num i st) as [err st1].
  destruct (negb (err =? 0)); [eauto|].
  apply Z.ltb_lt in Hlt.
  apply Z.mod_divide in Hbound; [|lia]. destruct Hbound as [q2 ->].
  apply Z.mod_divide in Hmod; [|lia]. destruct Hmod as [q1 ->].
  assert (q1 + 1 <= q2) by nia.
  assert (Hnext : to_uint (q1 * blocksize + blocksize) = (q1 + 1) * blocksize).
  { unfold to_uint. rewrite Z.mod_small; nia. }
  rewrite Hnext. apply IH; [nia | apply Z.mod_mul; lia | nia].
Qed.

Lemma fscrypt_encrypt_pagecache_blocks_total M K page len offs gfp_flags ms :
  0 <= len < 2 ^ 32 -> 0 <= offs < 2 ^ 32 ->
  0 <= i_blkbits (page_host K page) < 32 ->
  exists res,
    fscrypt_encrypt_pagecache_blocks M K (S (Z.to_nat len)) page len offs gfp_flags ms
    = Some res.
Proof.
  intros Hlen Hoffs Hbits.
  destruct (page_checks K page len offs) eqn:Hchk.
  2:{ rewrite (encrypt_pagecache_refused M K _ page len offs gfp_flags ms Hchk). eauto. }
  rewrite (encrypt_pagecache_accepted M K _ page len offs gfp_flags ms Hchk).
  destruct (mempool_alloc M _ _ _) as [cp|]; [|eauto].
  assert (Hrun : exists res,
             encrypt_blocks
               (fun lblk_num i =>
                  fscrypt_crypt_block K (page_host K page) FS_ENCRYPT lblk_num page cp
                    (page_blocksize K page) i gfp_flags)
               (S (Z.to_nat len)) (page_blocksize K page) (to_uint (offs + len)) offs
               (page_lblk_num K page offs) (index ms) = Some res).
  { unfold page_checks, page_blocksize in Hchk.
    apply andb_true_iff in Hchk. destruct Hchk as [_ Hchk].
    apply negb_true_iff, orb_false_iff in Hchk. destruct Hchk as [Hpos Hal].
    apply negb_false_iff in Hal. apply Z.leb_gt in Hpos.
    destruct (IS_ALIGNED_lor len offs _ Hbits Hal) as (Hbs & Hl & Ho).
    assert (Hpow : 0 < 2 ^ i_blkbits (page_host K page))
      by (apply Z.pow_pos_nonneg; lia).
    unfold page_blocksize. rewrite Hbs.
    destruct (Z.lt_ge_cases (offs + len) (2 ^ 32)) as [Hfit|Hwrap].
    - apply encrypt_blocks_total.
      + exact Hpow.
      + unfold to_uint. rewrite (Z.mod_small (offs + len) (2 ^ 32)) by lia.
        rewrite Z.add_mod, Hl, Ho by lia. reflexivity.
      + unfold to_uint. apply Z.mod_pos_bound. lia.
      + lia.
      + exact Ho.
      + unfold to_uint. rewrite (Z.mod_small (offs + len) (2 ^ 32)) by lia. lia.
    - cbn [encrypt_blocks].
      replace (offs <? to_uint (offs + len)) with false; [eauto|].
      symmetry. apply Z.ltb_ge. unfold to_uint.
      replace (offs + len) with (offs + len - 2 ^ 32 + 1 * 2 ^ 32) by lia.
      rewrite Z.mod_add by lia. rewrite Z.mod_small; lia. }
  destruct Hrun as [[err st] ->]. destruct (negb (err =? 0)); eauto.
Qed.

(** X15.  The page-level operations return.  For a length and an offset
    of the type [unsigned int] and a block size that the type holds,
    [fscrypt_encrypt_pagecache_blocks] and
    [fscrypt_decrypt_pagecache_blocks] come to an end within [len + 1]
    turns of their loop: past the checks the bound [offs + len] is a
    multiple of the block size, so [i] reaches it without wrapping
    around. *)
Theorem pagecache_blocks_terminate (M : mm) (K : kernel) (page len offs gfp_flags : Z)
    (ms : module_state) :
  0 <= len < 2 ^ 32 -> 0 <= offs < 2 ^ 32 ->
  0 <= i_blkbits (page_host K page) < 32 ->
  (exists res,
     fscrypt_encrypt_pagecache_blocks M K (S (Z.to_nat len)) page len offs gfp_flags ms
     = Some res) /\
  (exists res,
     fscrypt_decrypt_pagecache_blocks K (S (Z.to_nat len)) page len offs (index ms)
     = Some res).
Proof.
  intros Hlen Hoffs Hbits. split.
  - now apply fscrypt_encrypt_pagecache_blocks_total.
  - now apply fscrypt_decrypt_pagecache_blocks_total.
Qed.

Lemma pagecache_blocks_terminate_witness :
  (exists res,
     fscrypt_encrypt_pagecache_blocks example_mm (example_kernel true (fun _ => finger_ff))
       (S (Z.to_nat 4096)) 1 4096 0 0 (fresh_module {[ 1 := finger_one ]})
     = Some res) /\
  (exists res,
     fscrypt_decrypt_pagecache_blocks (example_kernel true (fun _ => finger_ff))
       (S (Z.to_nat 4096)) 1 4096 0 (index (fresh_module {[ 1 := finger_one ]}))
     = Some res).
Proof.
  apply pagecache_blocks_terminate; [lia | lia |]. cbn. lia.
Defined.

(** X14 on a fresh system: a locked page of one block, a pool that
    hands out page 100. *)
Lemma fscrypt_encrypt_pagecache_blocks_bounce_page_witness :
  exists res ms',
    fscrypt_encrypt_pagecache_blocks example_mm (example_kernel true (fun _ => finger_ff))
      (S (Z.to_nat 4096)) 1 4096 0 0 (fresh_module {[ 1 := finger_one ]})
    = Some (res, ms') /\
    ((res = ERR_PTR (- ENOMEM) /\
      ms' = log_call
              (EvMempoolAlloc
                 (fscrypt_bounce_page_pool (fresh_module {[ 1 := finger_one ]})) 0 None)
              (fresh_module {[ 1 := finger_one ]}))
     \/ (exists ciphertext_page err,
           err <> 0 /\ res = ERR_PTR err /\
           calls ms'
           = calls (fresh_module {[ 1 := finger_one ]})
             ++ [EvMempoolAlloc
                   (fscrypt_bounce_page_pool (fresh_module {[ 1 := finger_one ]})) 0
                   (Some ciphertext_page);
                 EvMempoolFree ciphertext_page
                   (fscrypt_bounce_page_pool (fresh_module {[ 1 := finger_one ]}))] /\
           page_private ms' !! ciphertext_page = Some 0 /\
           ciphertext_page ∉ PagePrivate ms')
     \/ (exists ciphertext_page,
           res = Page ciphertext_page /\
           calls ms'
           = calls (fresh_module {[ 1 := finger_one ]})
             ++ [EvMempoolAlloc
                   (fscrypt_bounce_page_pool (fresh_module {[ 1 := finger_one ]})) 0
                   (Some ciphertext_page)] /\
           page_private ms' !! ciphertext_page = Some 1 /\
           ciphertext_page ∈ PagePrivate ms')).
Proof.
  destruct (fscrypt_encrypt_pagecache_blocks_total example_mm
              (example_kernel true (fun _ => finger_ff)) 1 4096 0 0
              (fresh_module {[ 1 := finger_one ]}))
    as [[res ms'] H]; [lia | lia | cbn; lia |].
  exists res, ms'. split; [exact H|].
  exact (fscrypt_encrypt_pagecache_blocks_bounce_page example_mm
           (example_kernel true (fun _ => finger_ff)) (S (Z.to_nat 4096)) 1 4096 0 0
           (fresh_module {[ 1 := finger_one ]}) ms' res eq_refl H).
Defined.

(** ** Set-up *)

(** X16.  [fscrypt_initialize] creates the bounce page pool at most
    once, under the mutex, and releases the mutex on every path.  Its
    calls are none (the file system has its own pages), or lock and
    unlock (the pool exists: it is kept, nothing is created), or lock,
    one [mempool_create_page_pool] for [num_prealloc_crypto_pages] pages
    of order 0, and unlock.  It returns 0, or [-ENOMEM] with the pool
    still NULL; after a 0 without [FS_CFLG_OWN_PAGES] the pool is not
    NULL. *)
Theorem fscrypt_initialize_creates_pool_once (M : mm) (cop_flags : Z)
    (ms : module_state) :
  (exists l,
     calls (snd (fscrypt_initialize M cop_flags ms)) = calls ms ++ l /\
     ((l = [] /\ Z.land cop_flags (FS_CFLG_OWN_PAGES M) <> 0 /\
       snd (fscrypt_initialize M cop_flags ms) = ms)
      \/ (l = [EvMutexLock; EvMutexUnlock] /\
          is_Some (fscrypt_bounce_page_pool ms) /\
          fscrypt_bounce_page_pool (snd (fscrypt_initialize M cop_flags ms))
          = fscrypt_bounce_page_pool ms)
      \/ (fscrypt_bounce_page_pool ms = None /\
          l = [EvMutexLock;
               EvMempoolCreatePagePool (num_prealloc_crypto_pages ms) 0
                 (fscrypt_bounce_page_pool (snd (fscrypt_initialize M cop_flags ms)));
               EvMutexUnlock]))) /\
  (fst (fscrypt_initialize M cop_flags ms) = 0
   \/ (fst (fscrypt_initialize M cop_flags ms) = - ENOMEM /\
       fscrypt_bounce_page_pool (snd (fscrypt_initialize M cop_flags ms)) = None)) /\
  (fst (fscrypt_initialize M cop_flags ms) = 0 ->
   Z.land cop_flags (FS_CFLG_OWN_PAGES M) = 0 ->
   is_Some (fscrypt_bounce_page_pool (snd (fscrypt_initialize M cop_flags ms)))).
Proof.
  unfold fscrypt_initialize.
  destruct (Z.land cop_flags (FS_CFLG_OWN_PAGES M) =? 0) eqn:Hown; cbn [negb].
  2:{ apply Z.eqb_neq in Hown. cbn [fst snd]. split; [|split].
      - exists []. split; [now rewrite app_nil_r|]. left. auto.
      - left. reflexivity.
      - intros _ Hz. contradiction. }
  cbn zeta. cbn [fscrypt_bounce_page_pool log_call].
  destruct (fscrypt_bounce_page_pool ms) as [pool|] eqn:Hpool.
  - cbn. split; [|split].
    + eexists. split; [now rewrite <- app_assoc|]. right. left.
      split; [reflexivity|]. rewrite Hpool. split; [eauto | reflexivity].
    + left. reflexivity.
    + intros _ _. rewrite Hpool. eauto.
  - cbn [calls num_prealloc_crypto_pages].
    destruct (mempool_create_page_pool M _ _ _) as [pool|] eqn:Hnew; cbn.
    + split; [|split].
      * eexists. split; [now rewrite <- !app_assoc|]. right. right.
        split; reflexivity.
      * left. reflexivity.
      * intros _ _. eauto.
    + split; [|split].
      * eexists. split; [now rewrite <- !app_assoc|]. right. right.
        split; reflexivity.
      * right. split; reflexivity.
      * intros Hz. discriminate Hz.
Qed.

(** The resources a list of calls has created and not destroyed: the
    workqueues and the caches. *)
Definition outstanding_step (held : list Z * list Z) (c : call) : list Z * list Z :=
  match c with
  | EvAllocWorkqueue (Some wq) => (wq :: fst held, snd held)
  | EvKmemCacheCreate (Some cachep) => (fst held, cachep :: snd held)
  | EvDestroyWorkqueue (Some wq) => (remove Z.eq_dec wq (fst held), snd held)
  | EvKmemCacheDestroy (Some cachep) => (fst held, remove Z.eq_dec cachep (snd held))
  | _ => held
  end.

Definition outstanding (l : list call) : list Z * list Z :=
  fold_left outstanding_step l ([], []).

(** X17.  [fscrypt_init] leaves nothing behind when it fails.  Whatever
    the three set-up steps answer: when it returns 0 the workqueue and
    the cache it created are the ones the globals point to, and
    [fscrypt_enqueue_decrypt_work] queues on that workqueue; when it
    returns an error ([-ENOMEM], or what [fscrypt_init_keyring]
    returned) every workqueue and cache it created has been destroyed,
    and the global [fscrypt_read_workqueue], which is not reset, is NULL
    or points to the destroyed workqueue. *)
Theorem fscrypt_init_releases_on_failure (M : mm) (ms : module_state) :
  exists l,
    calls (snd (fscrypt_init M ms)) = calls ms ++ l /\
    (fst (fscrypt_init M ms) = 0 ->
     exists wq cachep,
       outstanding l = ([wq], [cachep]) /\
       fscrypt_read_workqueue (snd (fscrypt_init M ms)) = Some wq /\
       fscrypt_info_cachep (snd (fscrypt_init M ms)) = Some cachep /\
       forall work,
         calls (fscrypt_enqueue_decrypt_work work (snd (fscrypt_init M ms)))
         = calls (snd (fscrypt_init M ms)) ++ [EvQueueWork (Some wq) work]) /\
    (fst (fscrypt_init M ms) <> 0 ->
     outstanding l = ([], []) /\
     (fst (fscrypt_init M ms) = - ENOMEM
      \/ In (EvInitKeyring (fst (fscrypt_init M ms))) l) /\
     forall wq, fscrypt_read_workqueue (snd (fscrypt_init M ms)) = Some wq ->
                In (EvDestroyWorkqueue (Some wq)) l).
Proof.
  unfold fscrypt_init. cbv zeta. cbn [calls log_call set_read_workqueue].
  destruct (alloc_workqueue M (calls ms)) as [wq|].
  2:{ cbn. eexists. split; [reflexivity|]. split; [discriminate|].
      intros _. split; [reflexivity|]. split; [left; reflexivity|]. discriminate. }
  destruct (KMEM_CACHE M _) as [cachep|].
  2:{ cbn. eexists. split; [now rewrite <- !app_assoc|]. split; [discriminate|].
      intros _. unfold outstanding. cbn.
      destruct (Z.eq_dec wq wq) as [_|Hne]; [|contradiction].
      split; [reflexivity|]. split; [left; reflexivity|].
      intros wq' Hwq. injection Hwq as <-. right. right. left. reflexivity. }
  cbn [fscrypt_info_cachep fscrypt_read_workqueue set_info_cachep log_call calls].
  generalize (fscrypt_init_keyring M
                (calls (set_read_workqueue (Some wq)
                          (log_call (EvAllocWorkqueue (Some wq)) ms))
                 ++ [EvKmemCacheCreate (Some cachep)])).
  intros err. destruct (err =? 0) eqn:Hk; cbn [negb].
  - apply Z.eqb_eq in Hk. subst err. cbn.
    eexists. split; [now rewrite <- !app_assoc|]. split; [|intros Hz; contradiction].
    intros _. exists wq, cachep. unfold outstanding. cbn.
    split; [reflexivity|]. split; [reflexivity|]. split; [reflexivity|].
    intros work. reflexivity.
  - apply Z.eqb_neq in Hk. cbn.
    eexists. split; [now rewrite <- !app_assoc|]. split; [intros Hz; contradiction|].
    intros _. unfold outstanding. cbn.
    destruct (Z.eq_dec cachep cachep) as [_|Hne]; [|contradiction].
    destruct (Z.eq_dec wq wq) as [_|Hne]; [|contradiction].
    split; [reflexivity|]. split.
    + right. right. right. left. reflexivity.
    + intros wq' Hwq. injection Hwq as <-. do 4 right. left. reflexivity.
Qed.

(** ** Two fingerprints without a NUL *)

Lemma strncmp_no_nul_neq (f1 f2 : list byte) :
  length f1 = 16%nat -> length f2 = 16%nat ->
  forallb (fun b => negb (is_nul b)) f1 = true ->
  forallb (fun b => negb (is_nul b)) f2 = true ->
  f1 <> f2 -> strncmp f1 f2 16 <> 0.
Proof.
  intros Hl1 Hl2 Hn1 Hn2 Hne Hz. apply strncmp_zero_iff in Hz.
  rewrite (strncpy_no_nul 16 f1 Hl1 Hn1), (strncpy_no_nul 16 f2 Hl2 Hn2) in Hz.
  contradiction.
Qed.

(** A search that finds an item still finds it after another slot, one
    that does not hold the item, got an item that does not match. *)
Lemma crypt_search_other_slot sgn (a : gmap Z Cryptitem) finger found slot other :
  crypt_search sgn a finger = Some found ->
  a !! slot <> Some found ->
  strncmp (fingerprint_crypt other) finger 16 <> 0 ->
  crypt_search sgn (<[slot := other]> a) finger = Some found.
Proof.
  intros Hs Hslot Hne.
  destruct (crypt_search_spec sgn a finger) as [(k & Hk & Hp & Hstop)|(Hn & _)].
  2:{ rewrite Hn in Hs. discriminate Hs. }
  rewrite Hs in Hstop. destruct Hstop as [Hl Hz].
  apply (crypt_search_at sgn _ finger k (Some found) Hk).
  - intros j Hj. destruct (Hp j Hj) as (it & Hit & Hnz).
    destruct (decide (probe_slot (hashCrypt sgn finger) j = slot)) as [<-|Hd].
    + exists other. rewrite lookup_insert_eq. split; [reflexivity | exact Hne].
    + exists it. rewrite lookup_insert_ne by congruence. split; assumption.
  - split; [|exact Hz]. rewrite lookup_insert_ne; [exact Hl|].
    intros ->. contradiction.
Qed.

(** X18.  Two distinct fingerprints of sixteen bytes without a NUL do
    not get in each other's way.  On a table without NULL slots that
    holds neither, after lines 269-271 for the first with a positive
    owner and then for the second, both inserts returning 0, the search
    returns for each fingerprint the item with that fingerprint and its
    own owner, also when the two hash to the same slot. *)
Theorem search_insert_two_fingerprints (sgn : bool) (a : gmap Z Cryptitem)
    (f1 f2 : list byte) (o1 o2 : Z) :
  materialized a ->
  length f1 = 16%nat -> length f2 = 16%nat ->
  forallb (fun b => negb (is_nul b)) f1 = true ->
  forallb (fun b => negb (is_nul b)) f2 = true ->
  f1 <> f2 -> 0 < o1 ->
  crypt_search sgn a f1 = None -> crypt_search sgn a f2 = None ->
  fst (crypttable_insert sgn a f1 o1) = 0 ->
  fst (crypttable_insert sgn (search_insert sgn a f1 o1) f2 o2) = 0 ->
  crypt_search sgn (search_insert sgn (search_insert sgn a f1 o1) f2 o2) f1
  = Some (mkCryptitem f1 o1) /\
  crypt_search sgn (search_insert sgn (search_insert sgn a f1 o1) f2 o2) f2
  = Some (mkCryptitem f2 o2).
Proof.
  intros Hm Hl1 Hl2 Hn1 Hn2 Hne Ho1 Hs1 Hs2 Hi1 Hi2.
  pose proof (strncmp_no_nul_neq f1 f2 Hl1 Hl2 Hn1 Hn2 Hne) as H12.
  assert (H21 : strncmp f2 f1 16 <> 0)
    by (apply strncmp_no_nul_neq; auto).
  (* the first insert *)
  destruct (crypttable_insert_spec sgn a f1 o1)
    as [(k1 & Hk1 & Hw1 & _ & E1)|(_ & E1)];
    [|rewrite E1 in Hi1; discriminate Hi1].
  rewrite (strncpy_no_nul 16 f1 Hl1 Hn1) in E1.
  set (s1 := probe_slot (hashCrypt sgn f1) k1) in *.
  set (a1 := <[s1 := mkCryptitem f1 o1]> a) in *.
  assert (Ea1 : search_insert sgn a f1 o1 = a1).
  { unfold search_insert. rewrite Hs1. unfold if_found. rewrite E1. reflexivity. }
  rewrite Ea1 in Hi2 |- *.
  assert (Hm1 : materialized a1).
  { intros i Hi. unfold a1. destruct (decide (i = s1)) as [->|Hd].
    - rewrite lookup_insert_eq. eauto.
    - rewrite lookup_insert_ne by congruence. now apply Hm. }
  assert (Hf1 : crypt_search sgn a1 f1 = Some (mkCryptitem f1 o1)).
  { destruct (crypt_search_after_insert sgn a a1 f1 o1 Hm Hs1) as [Hf _].
    - exact E1.
    - rewrite Hf, (strncpy_no_nul 16 f1 Hl1 Hn1). reflexivity. }
  assert (Hs2' : crypt_search sgn a1 f2 = None).
  { apply crypt_search_exhausted. intros i Hi. unfold a1.
    destruct (decide (i = s1)) as [->|Hd].
    - exists (mkCryptitem f1 o1). rewrite lookup_insert_eq. split; [reflexivity|exact H12].
    - destruct (crypt_search_none_all_pass sgn a f2 Hm Hs2 i Hi) as (it & Hit & Hnz).
      exists it. rewrite lookup_insert_ne by congruence. split; assumption. }
  (* the second insert *)
  destruct (crypttable_insert_spec sgn a1 f2 o2)
    as [(k2 & Hk2 & Hw2 & _ & E2)|(_ & E2)];
    [|rewrite E2 in Hi2; discriminate Hi2].
  rewrite (strncpy_no_nul 16 f2 Hl2 Hn2) in E2.
  unfold search_insert. rewrite Hs2'. unfold if_found. rewrite E2. cbn [snd].
  split.
  - apply crypt_search_other_slot; [exact Hf1 | | exact H21].
    intros Hslot. unfold writable in Hw2. rewrite Hslot in Hw2. cbn [ino] in Hw2. lia.
  - destruct (crypt_search_after_insert sgn a1
                (<[probe_slot (hashCrypt sgn f2) k2 := mkCryptitem f2 o2]> a1)
                f2 o2 Hm1 Hs2') as [Hf _].
    + exact E2.
    + rewrite Hf, (strncpy_no_nul 16 f2 Hl2 Hn2). reflexivity.
Qed.

(** Sixteen bytes 01. *)
Definition finger_ones : list byte :=
  [x01; x01; x01; x01; x01; x01; x01; x01; x01; x01; x01; x01; x01; x01; x01; x01].

Lemma writable_search_insert sgn (a : gmap Z Cryptitem) finger owner (i : Z) :
  crypt_search sgn a finger = None ->
  writable a (hashCrypt sgn finger) ->
  i <> hashCrypt sgn finger -> writable a i ->
  writable (search_insert sgn a finger owner) i.
Proof.
  intros Hs Hw Hne Hi. rewrite (search_insert_at_hash sgn a finger owner Hs Hw).
  unfold writable. rewrite lookup_insert_ne by congruence. exact Hi.
Qed.

(** X18 on the reloaded table of a fresh system. *)
Lemma search_insert_two_fingerprints_witness :
  crypt_search true
    (search_insert true
       (search_insert true
          (cryptArray (reload (example_kernel true (fun _ => finger_ff))
                         (log EvFilpOpen (fresh_state ∅))))
          finger_no_nul 7)
       finger_ones 9)
    finger_no_nul
  = Some (mkCryptitem finger_no_nul 7) /\
  crypt_search true
    (search_insert true
       (search_insert true
          (cryptArray (reload (example_kernel true (fun _ => finger_ff))
                         (log EvFilpOpen (fresh_state ∅))))
          finger_no_nul 7)
       finger_ones 9)
    finger_ones
  = Some (mkCryptitem finger_ones 9).
Proof.
  assert (Hj1 : forall i : Z, strncmp ((fun _ : Z => finger_ff) i) finger_no_nul 16 <> 0)
    by (intros i; vm_compute; discriminate).
  assert (Hj2 : forall i : Z, strncmp ((fun _ : Z => finger_ff) i) finger_ones 16 <> 0)
    by (intros i; vm_compute; discriminate).
  pose proof (fresh_search_none true (fun _ => finger_ff) ∅ finger_no_nul Hj1) as Hs1.
  pose proof (fresh_search_none true (fun _ => finger_ff) ∅ finger_ones Hj2) as Hs2.
  pose proof (fresh_writable true (fun _ => finger_ff) ∅ (hashCrypt true finger_no_nul)
                (hashCrypt_range true finger_no_nul)) as Hw1.
  pose proof (fresh_writable true (fun _ => finger_ff) ∅ (hashCrypt true finger_ones)
                (hashCrypt_range true finger_ones)) as Hw2.
  refine (search_insert_two_fingerprints true _ finger_no_nul finger_ones 7 9
            (reload_materialized _ _) eq_refl eq_refl eq_refl eq_refl _ _ Hs1 Hs2 _ _).
  - discriminate.
  - lia.
  - exact (crypttable_insert_first_writable true _ finger_no_nul 7 Hw1).
  - refine (crypttable_insert_first_writable true _ finger_ones 9 _).
    refine (writable_search_insert true _ finger_no_nul 7 _ Hs1 Hw1 _ Hw2).
    vm_compute. discriminate.
Defined.

(** ** Opening and closing "/citable" *)

(** A call that neither opens nor closes "/citable". *)
Definition not_open_close (e : event) : Prop :=
  match e with
  | EvFilpOpen | EvFilpClose => False
  | _ => True
  end.

Lemma decrypts_with_not_open_close ci e : decrypts_with ci e -> not_open_close e.
Proof. destruct e; cbn; tauto. Qed.

Lemma Forall_not_open_close_decrypts ci calls :
  Forall (decrypts_with ci) calls -> Forall not_open_close calls.
Proof.
  induction 1 as [|e l He _ IH]; constructor; [|exact IH].
  exact (decrypts_with_not_open_close ci e He).
Qed.

Lemma Forall_not_open_close_map (f : Z -> event) (l : list Z) :
  (forall i, not_open_close (f i)) -> Forall not_open_close (map f l).
Proof. intros Hf. induction l; constructor; auto. Qed.

(** X19.  The encrypt branch opens "/citable" once and closes it at its
    end; [fscrypt_decrypt_pagecache_blocks] opens it on every call, also
    on one that its checks refuse, and never closes it.  The calls of
    the encrypt branch are one open, calls that neither open nor close,
    and one close; the calls of a page-level decrypt that returns are
    one open and calls that neither open nor close. *)
Theorem citable_closed_by_encrypt_only (K : kernel) :
  (forall inode dest_page st,
     exists calls,
       trace (encrypt_post_step K inode dest_page st)
       = trace st ++ EvFilpOpen :: calls ++ [EvFilpClose] /\
       Forall not_open_close calls) /\
  (forall fuel page len offs st r st',
     fscrypt_decrypt_pagecache_blocks K fuel page len offs st = Some (r, st') ->
     exists calls,
       trace st' = trace st ++ EvFilpOpen :: calls /\
       Forall not_open_close calls).
Proof.
  split.
  - intros inode dest_page st.
    exists (map EvKernelRead (seqZ 0 DEDUP_TABLE_SIZE)
            ++ EvHashPage dest_page (hash_page_data K (page_data st dest_page))
               :: EvCryptSearch (hash_page_data K (page_data st dest_page))
               :: if_found
                    (crypt_search (char_is_signed K)
                       (cryptArray (reload K (log EvFilpOpen st)))
                       (hash_page_data K (page_data st dest_page)))
                    []
                    [EvCrypttableInsert (hash_page_data K (page_data st dest_page))
                       (i_ino inode)]
               ++ map EvKernelWrite (seqZ 0 DEDUP_TABLE_SIZE)).
    split.
    + rewrite (encrypt_post_step_trace K inode dest_page st).
      rewrite (owner_recorded_trace K inode dest_page st).
      rewrite <- !app_assoc. rewrite <- !app_comm_cons. rewrite <- !app_assoc.
      apply (f_equal (app (trace st))). apply (f_equal (cons EvFilpOpen)).
      apply (f_equal (app (map EvKernelRead (seqZ 0 DEDUP_TABLE_SIZE)))).
      rewrite <- !app_comm_cons. reflexivity.
    + apply Forall_app. split; [now apply Forall_not_open_close_map|].
      constructor; [exact I|]. constructor; [exact I|].
      apply Forall_app. split; [|now apply Forall_not_open_close_map].
      destruct (crypt_search _ _ _); unfold if_found; repeat constructor.
  - intros fuel page len offs st r st' H.
    destruct (page_checks K page len offs) eqn:Hchk.
    + destruct (pagecache_calls K fuel page len offs st r st' Hchk H)
        as (_ & calls & Ht & Hcalls).
      eexists. split; [exact Ht|].
      apply Forall_app. split; [now apply Forall_not_open_close_map|].
      constructor; [exact I|]. constructor; [exact I|].
      apply Forall_app. split.
      * unfold switch_events. destruct (crypt_search _ _ _); repeat constructor.
      * exact (Forall_not_open_close_decrypts _ _ Hcalls).
    + rewrite (pagecache_refused K fuel page len offs st Hchk) in H.
      injection H as <- <-. exists []. split; [apply trace_log | constructor].
Qed.

(** ** The cost of a miss, and the pages *)

(** On slots that are all passed the loop of [crypt_search] does not
    stop before it has counted past [DEDUP_TABLE_SIZE]. *)
Lemma crypt_search_loop_all_pass (a : gmap Z Cryptitem) finger :
  (forall i, 0 <= i < DEDUP_TABLE_SIZE -> passes a finger i) ->
  forall (fuel : nat) h loop,
    0 <= h < DEDUP_TABLE_SIZE -> 0 <= loop ->
    Z.of_nat fuel <= DEDUP_TABLE_SIZE - loop ->
    crypt_search_loop fuel a finger h loop = None.
Proof.
  intros Hall fuel.
  induction fuel as [|fuel IH]; intros h loop Hh Hloop Hfuel; [reflexivity|].
  cbn [crypt_search_loop].
  destruct (Hall h Hh) as (item & -> & Hne).
  replace (strncmp (fingerprint_crypt item) finger 16 =? 0) with false by lia.
  replace (loop + 1 >? DEDUP_TABLE_SIZE) with false by lia.
  apply IH; [|lia|lia].
  apply Z.mod_pos_bound. lia.
Qed.

(** X20.  On a table without NULL slots, which is what every reload
    leaves, a search that finds nothing has gone through the whole
    table: its loop is still running after [DEDUP_TABLE_SIZE] turns and
    returns NULL in the turn after. *)
Theorem crypt_search_miss_scans_table (sgn : bool) (a : gmap Z Cryptitem)
    (finger : list byte) :
  materialized a -> crypt_search sgn a finger = None ->
  crypt_search_loop (Z.to_nat DEDUP_TABLE_SIZE) a finger (hashCrypt sgn finger) 0 = None /\
  crypt_search_loop (S (Z.to_nat DEDUP_TABLE_SIZE)) a finger (hashCrypt sgn finger) 0
  = Some None.
Proof.
  intros Hm Hs. split.
  - apply crypt_search_loop_all_pass.
    + exact (crypt_search_none_all_pass sgn a finger Hm Hs).
    + apply hashCrypt_range.
    + lia.
    + rewrite Z2Nat.id; rewrite DEDUP_TABLE_SIZE_val; lia.
  - pose proof (crypt_search_loop_probe_fuel sgn a finger) as H.
    unfold probe_fuel in H. rewrite H, Hs. reflexivity.
Qed.

Lemma crypt_search_miss_scans_table_witness :
  crypt_search_loop (Z.to_nat DEDUP_TABLE_SIZE)
    (cryptArray (reload (example_kernel true (fun _ => finger_ff))
                   (log EvFilpOpen (fresh_state ∅))))
    finger_one (hashCrypt true finger_one) 0 = None /\
  crypt_search_loop (S (Z.to_nat DEDUP_TABLE_SIZE))
    (cryptArray (reload (example_kernel true (fun _ => finger_ff))
                   (log EvFilpOpen (fresh_state ∅))))
    finger_one (hashCrypt true finger_one) 0 = Some None.
Proof.
  assert (Hj : forall i : Z, strncmp ((fun _ : Z => finger_ff) i) finger_one 16 <> 0)
    by (intros i; vm_compute; discriminate).
  refine (crypt_search_miss_scans_table true _ finger_one (reload_materialized _ _) _).
  exact (fresh_search_none true (fun _ => finger_ff) ∅ finger_one Hj).
Defined.

(** X21.  [fscrypt_crypt_block] writes no page but the destination
    page: in either direction and whatever it returns, every other page
    holds afterwards what it held before. *)
Theorem fscrypt_crypt_block_writes_dest_page_only (K : kernel) (inode : inode)
    (rw : fscrypt_direction_t) (lblk_num src_page dest_page len offs gfp : Z)
    (st : state) (p : Z) :
  p <> dest_page ->
  pages (snd (fscrypt_crypt_block K inode rw lblk_num src_page dest_page len offs gfp st))
    !! p
  = pages st !! p.
Proof.
  intros Hp. unfold fscrypt_crypt_block. cbv zeta.
  assert (Hpre : exists l st0,
             match rw with
             | FS_DECRYPT => decrypt_pre_step K lblk_num src_page st
             | FS_ENCRYPT => (lblk_num, st)
             end = (l, st0) /\ pages st0 = pages st).
  { destruct rw.
    - rewrite decrypt_pre_step_eq. eexists _, _. split; reflexivity.
    - eexists _, _. split; reflexivity. }
  destruct Hpre as (l & st0 & -> & Hst0).
  destruct (len <=? 0); [cbn [snd]; now rewrite Hst0|].
  destruct (negb (len mod FSCRYPT_CONTENTS_ALIGNMENT K =? 0));
    [cbn [snd]; now rewrite Hst0|].
  destruct (negb (skcipher_request_alloc K (ci_tfm (i_crypt_info inode)) gfp));
    [cbn [snd]; rewrite pages_log; now rewrite Hst0|].
  destruct (crypto_skcipher K rw _ _ _ _ _ _) as [res dest].
  assert (Hset : pages (log (EvCipher rw (ci_tfm (i_crypt_info inode))
                               (fscrypt_generate_iv K (uninitialized_iv K (trace st0)) l
                                  (i_crypt_info inode)) len offs)
                          (set_page dest_page dest
                             (log (EvGenerateIv l (ci_inode_ino (i_crypt_info inode)))
                                st0))) !! p
                 = pages st !! p).
  { rewrite pages_log. unfold set_page. cbn [pages].
    rewrite lookup_insert_ne by congruence. rewrite pages_log, Hst0. reflexivity. }
  destruct (negb (res =? 0)); [cbn [snd]; rewrite pages_log; exact Hset|].
  destruct rw; cbn [snd]; [exact Hset|].
  rewrite encrypt_post_step_pages. exact Hset.
Qed.

Lemma fscrypt_crypt_block_writes_dest_page_only_witness :
  pages (snd (fscrypt_crypt_block (example_kernel true (fun _ => finger_ff)) inode_7
                FS_DECRYPT 0 1 1 4096 0 0
                (fresh_state {[ 1 := finger_one; 2 := finger_ones ]}))) !! 2
  = pages (fresh_state {[ 1 := finger_one; 2 := finger_ones ]}) !! 2.
Proof. apply fscrypt_crypt_block_writes_dest_page_only. lia. Defined.
